(** * A shallow embedding of the indexing and query-evaluation engine

    Source: [index/builders.py], [index/access.py],
    [query_processing/*.py] and [ranking/rankers.py].

    Modelling conventions:
    - Python [str] is [string] (ASCII characters); Python [int] is [Z].
    - A Python dict is a [gmap]; a Python [set] is a [gset].
    - A term key ([TokGram = Union[str, Tuple[str, ...]]]) is [tokgram].
    - A raised [ValueError] is [Err reason]; a normal return is [Ok v].
    - Python's [sorted] is a stable sort; on the element types used here
      (ints, strings) its result is unique, so any stable sort agrees with
      it; we use insertion sort. *)

From Stdlib Require Import ZArith QArith List Lia Permutation Sorted.
From Stdlib Require Import String Ascii.
From stdpp Require Import base gmap sets list strings.

Open Scope Z_scope.

(** ** Error results *)

Inductive result (A : Type) : Type :=
| Ok (a : A)
| Err (reason : string).
Arguments Ok {A} a.
Arguments Err {A} reason.

(** ** Term keys: [TokGram = Union[str, Tuple[str, ...]]] *)

Inductive tokgram : Type :=
| Uni (t : string)
| Tup (ts : list string).

#[global] Instance tokgram_eq_dec : EqDecision tokgram.
Proof. solve_decision. Defined.

#[global] Program Instance tokgram_countable : Countable tokgram :=
  inj_countable'
    (fun k => match k with Uni t => inl t | Tup ts => inr ts end)
    (fun s => match s with inl t => Uni t | inr ts => Tup ts end) _.
Next Obligation. by intros []. Qed.

(** ** [sorted] : a stable insertion sort *)

Section Sort.
Context {A : Type} (leb : A -> A -> bool).

Fixpoint insert_sorted (x : A) (l : list A) : list A :=
    match l with
    | [] => [x]
    | y :: l' => if leb x y then x :: l else y :: insert_sorted x l'
    end.

Fixpoint sort_list (l : list A) : list A :=
    match l with
    | [] => []
    | x :: l' => insert_sorted x (sort_list l')
    end.
End Sort.

Definition sorted_Z (l : list Z) : list Z := sort_list Z.leb l.
Definition sorted_str (l : list string) : list string := sort_list String.leb l.

(** ** The persisted package (a pickled dict) *)

(** [__META__]; each field is optional because readers use [dict.get]. *)
Record meta : Type := {
  meta_N : option Z;
  meta_doc_lengths : option (gmap Z Z);
  meta_avgdl : option Q;   (* the float [total_len / N], by its exact value *)
  meta_version : option string;
  meta_ngrams_max : option Z;
  meta_char_ngrams_max : option Z
}.

Record package : Type := {
  pkg_meta : option meta;
  pkg_unified : option (gmap tokgram (list Z));
  pkg_wildcard : option (gmap string (list string));
  pkg_proximity : option (gmap tokgram (gmap Z (list Z)))
}.

(** ** [index/builders.py] *)

(** [_token_ngrams(tokens, n_max)]: (key, pos) for n = 1..n_max;
    the outer loop breaks as soon as the document is shorter than n. *)
Definition ngram_key (tokens : list string) (n i : nat) : tokgram :=
  if (n =? 1)%nat then Uni (nth i tokens EmptyString)
  else Tup (firstn n (skipn i tokens)).

Fixpoint token_ngrams_from (tokens : list string) (n fuel : nat)
  : list (tokgram * nat) :=
  match fuel with
  | O => []
  | S fuel' =>
      if (length tokens <? n)%nat then []
      else map (fun i => (ngram_key tokens n i, i))
               (seq 0 (length tokens - n + 1))
           ++ token_ngrams_from tokens (S n) fuel'
  end.

Definition token_ngrams (tokens : list string) (n_max : nat)
  : list (tokgram * nat) :=
  token_ngrams_from tokens 1 n_max.

(** [_char_ngrams(term, n_max)]: substrings of ["$" + term + "$"] of
    length 1..n_max, skipping the bare ["$"]. *)
Definition char_ngrams (term : string) (n_max : nat) : list string :=
  let s := ("$" ++ term ++ "$")%string in
  let L := String.length s in
  flat_map (fun n =>
    flat_map (fun i =>
      let cg := substring i n s in
      if String.eqb cg "$" then [] else [cg])
      (seq 0 (L + 1 - n)))
    (seq 1 n_max).

(** The in-memory builders of [create_all_indexes]. *)
Record build_state : Type := {
  bs_unified : gmap tokgram (gset Z);
  bs_proximity : gmap tokgram (gmap Z (list Z));
  bs_wildcard : gmap string (gset string);
  bs_doc_lengths : gmap Z Z;
  bs_total_len : Z
}.

Definition empty_state : build_state :=
  {| bs_unified := ∅; bs_proximity := ∅; bs_wildcard := ∅;
     bs_doc_lengths := ∅; bs_total_len := 0 |}.

(** The elementary updates performed by the single pass. *)
Inductive build_op : Type :=
| OpLength (did : Z) (L : Z)                  (* doc_lengths[did] = L; total_len += L *)
| OpNgram (key : tokgram) (did : Z) (pos : Z) (* bucket.add(did); pos_list.append(pos) *)
| OpWild (cg : string) (term : string).       (* wb.add(term) *)

Definition add_posting (key : tokgram) (did : Z) (m : gmap tokgram (gset Z)) :=
  <[key := {[did]} ∪ default ∅ (m !! key)]> m.

Definition add_position (key : tokgram) (did pos : Z)
    (m : gmap tokgram (gmap Z (list Z))) :=
  let docmap := default ∅ (m !! key) in
  let pos_list := default [] (docmap !! did) in
  <[key := <[did := pos_list ++ [pos]]> docmap]> m.

Definition add_wild (cg term : string) (m : gmap string (gset string)) :=
  <[cg := {[term]} ∪ default ∅ (m !! cg)]> m.

Definition apply_op (st : build_state) (o : build_op) : build_state :=
  match o with
  | OpLength did L =>
      {| bs_unified := bs_unified st; bs_proximity := bs_proximity st;
         bs_wildcard := bs_wildcard st;
         bs_doc_lengths := <[did := L]> (bs_doc_lengths st);
         bs_total_len := bs_total_len st + L |}
  | OpNgram key did pos =>
      {| bs_unified := add_posting key did (bs_unified st);
         bs_proximity := add_position key did pos (bs_proximity st);
         bs_wildcard := bs_wildcard st;
         bs_doc_lengths := bs_doc_lengths st;
         bs_total_len := bs_total_len st |}
  | OpWild cg term =>
      {| bs_unified := bs_unified st; bs_proximity := bs_proximity st;
         bs_wildcard := add_wild cg term (bs_wildcard st);
         bs_doc_lengths := bs_doc_lengths st;
         bs_total_len := bs_total_len st |}
  end.

Definition NGRAMS_MAX : nat := 3.
Definition CHAR_NGRAMS_MAX : nat := 3.

(** The updates of one iteration of the document loop, in source order.
    [for term in set(tokens)] iterates a Python set in an unspecified
    order; the wildcard updates commute, so any enumeration of the set
    ([elements]) gives the same state. *)
Definition doc_ops (tokens : list string) (did : Z) : list build_op :=
  OpLength did (Z.of_nat (length tokens))
  :: map (fun '(key, pos) => OpNgram key did (Z.of_nat pos))
         (token_ngrams tokens NGRAMS_MAX)
  ++ flat_map (fun term => map (fun cg => OpWild cg term)
                                (char_ngrams term CHAR_NGRAMS_MAX))
              (elements (list_to_set tokens : gset string)).

Definition index_doc (st : build_state) (tokens : list string) (did : Z) :=
  fold_left apply_op (doc_ops tokens did) st.

Definition index_docs (st : build_state) (docs : list (list string * Z)) :=
  fold_left (fun st '(tokens, did) => index_doc st tokens did) docs st.

(** Deterministic post-processing and the final package. The source
    stores [avgdl] as the float [float(total_len / N)]; it is kept here as
    the exact quotient, so no statement below relies on it beyond the
    values that a float represents exactly. *)
Definition finalize (N : Z) (st : build_state) : package :=
  let avgdl : Q := if 0 <? N then Qdiv (inject_Z (bs_total_len st)) (inject_Z N)
                   else 0%Q in
  {| pkg_meta := Some {| meta_N := Some N;
                         meta_doc_lengths := Some (bs_doc_lengths st);
                         meta_avgdl := Some avgdl;
                         meta_version := Some "1.0"%string;
                         meta_ngrams_max := Some (Z.of_nat NGRAMS_MAX);
                         meta_char_ngrams_max := Some (Z.of_nat CHAR_NGRAMS_MAX) |};
     pkg_unified := Some ((fun v : gset Z => sorted_Z (elements v)) <$> bs_unified st);
     pkg_wildcard := Some ((fun v : gset string => sorted_str (elements v)) <$> bs_wildcard st);
     pkg_proximity := Some ((fun dm : gmap Z (list Z) => sorted_Z <$> dm) <$> bs_proximity st) |}.

(** [create_all_indexes(tokenized_docs, index_path, doc_ids)]: the package
    handed to [dump]. *)
Definition create_all_indexes (tokenized_docs : list (list string))
    (doc_ids : option (list Z)) : result package :=
  let ids := match doc_ids with
             | None => map Z.of_nat (seq 0 (length tokenized_docs))
             | Some l => l
             end in
  if negb (length ids =? length tokenized_docs)%nat
  then Err "doc_ids and tokenized_docs must be the same length"%string
  else
    let N := Z.of_nat (length tokenized_docs) in
    Ok (finalize N (index_docs empty_state (combine tokenized_docs ids))).

(** The document IDs [create_all_indexes] uses: [doc_ids], or [0 .. N-1]. *)
Definition ids_used (docs : list (list string)) (doc_ids : option (list Z)) : list Z :=
  default (map Z.of_nat (seq 0 (length docs))) doc_ids.

(** ** [index/access.py] *)

Definition get_posting_list (pkg : package) (term : tokgram) : list Z :=
  let unified := default ∅ (pkg_unified pkg) in
  match unified !! term with
  | None => []
  | Some posting => posting
  end.

Definition find_wildcard_matches (pkg : package) (pattern : string)
  : list string :=
  let wildcard := default ∅ (pkg_wildcard pkg) in
  match wildcard !! pattern with
  | None => []
  | Some terms => terms
  end.

Definition get_term_positions (pkg : package) (term : tokgram) (doc_id : Z)
  : list Z :=
  let proximity := default ∅ (pkg_proximity pkg) in
  match proximity !! term with
  | None => []
  | Some docmap =>
      match docmap !! doc_id with
      | None => []
      | Some positions => positions
      end
  end.

Definition pkg_of (r : result package) : package :=
  match r with
  | Ok p => p
  | Err _ => {| pkg_meta := None; pkg_unified := None;
                pkg_wildcard := None; pkg_proximity := None |}
  end.

Definition spec_corpus : list (list string) :=
  [["climate"; "change"; "is"; "real"];
   ["machine"; "learning"; "climate"; "models"];
   ["deep"; "learning"; "for"; "climate"; "change"]]%string.

Example spec_postings :
  get_posting_list (pkg_of (create_all_indexes spec_corpus (Some [10; 20; 30])))
    (Uni "climate") = [10; 20; 30].
Proof. vm_compute. reflexivity. Qed.

Example spec_postings_bigram :
  get_posting_list (pkg_of (create_all_indexes spec_corpus (Some [10; 20; 30])))
    (Tup ["climate"; "change"]%string) = [10; 30].
Proof. vm_compute. reflexivity. Qed.

Example spec_wildcard :
  find_wildcard_matches (pkg_of (create_all_indexes spec_corpus (Some [10; 20; 30])))
    "$cl" = ["climate"]%string.
Proof. vm_compute. reflexivity. Qed.

(** ** Properties of the sort *)

Section SortProps.
Context {A : Type} (leb : A -> A -> bool).
Hypothesis leb_total : forall x y, leb x y = true \/ leb y x = true.
Hypothesis leb_trans :
    forall x y z, leb x y = true -> leb y z = true -> leb x z = true.

Let R := fun x y => leb x y = true.

Lemma insert_sorted_perm x l : Permutation (insert_sorted leb x l) (x :: l).
  Proof.
    induction l as [|y l IH]; simpl; [done|].
    destruct (leb x y); [done|].
    rewrite IH. apply perm_swap.
  Qed.

Lemma sort_list_perm l : Permutation (sort_list leb l) l.
  Proof.
    induction l as [|x l IH]; simpl; [done|].
    rewrite insert_sorted_perm. by constructor.
  Qed.

Lemma insert_sorted_sorted x l :
    StronglySorted R l -> StronglySorted R (insert_sorted leb x l).
  Proof.
    induction l as [|y l IH]; simpl; intros Hs.
    - repeat constructor.
    - inversion Hs as [|? ? Hl Hall]; subst.
      destruct (leb x y) eqn:Hxy.
      + constructor; [done|]. constructor; [done|].
        eapply Forall_impl; [exact Hall|]. intros z Hz. unfold R in *. eauto.
      + constructor; [by apply IH|].
        apply Forall_forall. intros z Hz.
        rewrite insert_sorted_perm in Hz.
        apply elem_of_cons in Hz as [->|Hz].
        * unfold R. destruct (leb_total x y) as [H|H]; congruence.
        * by eapply Forall_forall in Hall.
  Qed.

Lemma sort_list_sorted l : StronglySorted R (sort_list leb l).
  Proof.
    induction l; simpl; [constructor|]. by apply insert_sorted_sorted.
  Qed.

Lemma sort_list_strict l :
    NoDup l ->
    StronglySorted (fun x y => leb x y = true /\ x <> y) (sort_list leb l).
  Proof.
    intros Hnd.
    assert (Hnd' : NoDup (sort_list leb l)).
    { by rewrite sort_list_perm. }
    pose proof (sort_list_sorted l) as Hs. revert Hnd' Hs.
    generalize (sort_list leb l). intros l'.
    induction l' as [|x l' IH]; intros Hnd' Hs; [constructor|].
    inversion Hs as [|? ? Hs' Hall]; subst.
    apply NoDup_cons in Hnd' as [Hx Hnd'].
    constructor; [by apply IH|].
    apply Forall_forall. intros y Hy. split.
    - by eapply Forall_forall in Hall.
    - by intros ->.
  Qed.
End SortProps.

Lemma SS_impl {A} (R1 R2 : A -> A -> Prop) l :
  (forall x y, R1 x y -> R2 x y) -> StronglySorted R1 l -> StronglySorted R2 l.
Proof.
  intros Himp Hs. induction Hs; constructor; [done|].
  eapply Forall_impl; eauto.
Qed.

Lemma Z_leb_total x y : Z.leb x y = true \/ Z.leb y x = true.
Proof. destruct (Z.le_ge_cases x y); [left|right]; apply Z.leb_le; lia. Qed.

Lemma Z_leb_trans x y z : Z.leb x y = true -> Z.leb y z = true -> Z.leb x z = true.
Proof. rewrite !Z.leb_le. lia. Qed.

Lemma str_leb_trans x y z :
  String.leb x y = true -> String.leb y z = true -> String.leb x z = true.
Proof.
  intros H1 H2. apply Is_true_true.
  change (String.le x z). transitivity y; unfold String.le; by apply Is_true_true.
Qed.

Lemma sorted_Z_perm l : Permutation (sorted_Z l) l.
Proof. apply sort_list_perm. Qed.

Lemma sorted_Z_strict l : NoDup l -> StronglySorted Z.lt (sorted_Z l).
Proof.
  intros Hnd. eapply SS_impl; [|apply (sort_list_strict Z.leb); eauto using Z_leb_total, Z_leb_trans].
  intros x y [H1 H2]. apply Z.leb_le in H1. lia.
Qed.

Lemma sorted_str_strict l :
  NoDup l -> StronglySorted (fun x y => String.ltb x y = true) (sorted_str l).
Proof.
  intros Hnd. eapply SS_impl;
    [|apply (sort_list_strict String.leb); eauto using String.leb_total, str_leb_trans].
  intros x y [H1 H2]. unfold String.ltb, String.leb in *.
  destruct (String.compare x y) eqn:Hc; try done.
  by apply String.compare_eq_iff in Hc.
Qed.

(** ** Builder updates for different documents commute *)

Definition op_did (o : build_op) : option Z :=
  match o with
  | OpLength did _ => Some did
  | OpNgram _ did _ => Some did
  | OpWild _ _ => None
  end.

Definition ops_apart (o1 o2 : build_op) : Prop :=
  forall d1 d2, op_did o1 = Some d1 -> op_did o2 = Some d2 -> d1 <> d2.

Lemma add_posting_comm k1 d1 k2 d2 m :
  add_posting k1 d1 (add_posting k2 d2 m) = add_posting k2 d2 (add_posting k1 d1 m).
Proof.
  unfold add_posting. apply map_eq. intros i.
  destruct (decide (i = k1)), (decide (i = k2)); subst; simplify_map_eq; try done.
  f_equal. set_solver.
Qed.

Lemma add_wild_comm c1 t1 c2 t2 m :
  add_wild c1 t1 (add_wild c2 t2 m) = add_wild c2 t2 (add_wild c1 t1 m).
Proof.
  unfold add_wild. apply map_eq. intros i.
  destruct (decide (i = c1)), (decide (i = c2)); subst; simplify_map_eq; try done.
  f_equal. set_solver.
Qed.

Lemma add_position_comm k1 d1 p1 k2 d2 p2 m :
  d1 <> d2 ->
  add_position k1 d1 p1 (add_position k2 d2 p2 m)
  = add_position k2 d2 p2 (add_position k1 d1 p1 m).
Proof.
  intros Hd. unfold add_position. apply map_eq. intros i.
  destruct (decide (i = k1)), (decide (i = k2)); subst; simplify_map_eq; try done.
  f_equal. apply map_eq. intros j.
  destruct (decide (j = d1)), (decide (j = d2)); subst; simplify_map_eq; done.
Qed.

Lemma apply_op_comm st o1 o2 :
  ops_apart o1 o2 ->
  apply_op (apply_op st o1) o2 = apply_op (apply_op st o2) o1.
Proof.
  intros Hap. destruct st as [u p w dl tl].
  destruct o1 as [d1 L1|k1 d1 p1|c1 t1], o2 as [d2 L2|k2 d2 p2|c2 t2];
    simpl; try reflexivity.
  - assert (d1 <> d2) by (apply Hap; done).
    f_equal; [by apply insert_insert_ne | lia].
  - assert (d1 <> d2) by (apply Hap; done).
    f_equal; [apply add_posting_comm | by apply add_position_comm].
  - f_equal. apply add_wild_comm.
Qed.

Lemma apply_op_fold_comm o ops st :
  (forall o', o' ∈ ops -> ops_apart o o') ->
  apply_op (fold_left apply_op ops st) o = fold_left apply_op ops (apply_op st o).
Proof.
  revert st. induction ops as [|o' ops IH]; intros st Hap; simpl; [done|].
  rewrite IH; [|set_solver]. f_equal.
  symmetry. apply apply_op_comm. apply Hap. set_solver.
Qed.

Lemma fold_ops_comm ops1 ops2 st :
  (forall o1 o2, o1 ∈ ops1 -> o2 ∈ ops2 -> ops_apart o1 o2) ->
  fold_left apply_op ops2 (fold_left apply_op ops1 st)
  = fold_left apply_op ops1 (fold_left apply_op ops2 st).
Proof.
  revert st. induction ops1 as [|o ops1 IH]; intros st Hap; simpl; [done|].
  rewrite IH; [|set_solver]. f_equal.
  symmetry. apply apply_op_fold_comm. intros o' Ho'. apply Hap; set_solver.
Qed.

Lemma doc_ops_did tokens did o :
  o ∈ doc_ops tokens did -> forall d, op_did o = Some d -> d = did.
Proof.
  unfold doc_ops. intros Ho d Hd. apply list_elem_of_In in Ho.
  destruct Ho as [<-|Ho]; [by injection Hd|].
  apply in_app_or in Ho as [Ho|Ho].
  - apply in_map_iff in Ho as [[k p] [<- _]]. by injection Hd.
  - apply in_flat_map in Ho as [t [_ Ho]].
    apply in_map_iff in Ho as [c [<- _]]. done.
Qed.

Lemma index_doc_comm st t1 d1 t2 d2 :
  d1 <> d2 ->
  index_doc (index_doc st t1 d1) t2 d2 = index_doc (index_doc st t2 d2) t1 d1.
Proof.
  intros Hd. unfold index_doc. apply fold_ops_comm.
  intros o1 o2 H1 H2 e1 e2 He1 He2.
  pose proof (doc_ops_did _ _ _ H1 _ He1). pose proof (doc_ops_did _ _ _ H2 _ He2).
  congruence.
Qed.

Lemma index_docs_perm P1 P2 st :
  Permutation P1 P2 -> NoDup (map snd P1) ->
  index_docs st P1 = index_docs st P2.
Proof.
  intros Hp. revert st. induction Hp as [|[t d] P1 P2 Hp IH|[t1 d1] [t2 d2] P|P1 P2 P3 H12 IH12 H23 IH23];
    intros st Hnd; simpl in *.
  - done.
  - apply IH. by apply NoDup_cons in Hnd as [_ ?].
  - unfold index_docs in *. simpl. f_equal.
    apply NoDup_cons in Hnd as [Hn _]. apply index_doc_comm.
    intros ->. apply Hn. set_solver.
  - rewrite IH12; [|done]. apply IH23.
    by rewrite <- (Permutation_map snd H12).
Qed.

(** ** Position lists collected by the single pass *)

Definition positions_at (m : gmap tokgram (gmap Z (list Z))) (k : tokgram) (d : Z)
  : list Z :=
  match m !! k with
  | Some docmap => default [] (docmap !! d)
  | None => []
  end.

(** The positions that a sequence of updates appends to [(k, d)]. *)
Definition prox_contrib (k : tokgram) (d : Z) (ops : list build_op) : list Z :=
  flat_map (fun o => match o with
                     | OpNgram k0 d0 p =>
                         if bool_decide (k0 = k /\ d0 = d) then [p] else []
                     | _ => []
                     end) ops.

Lemma positions_at_add k0 d0 p m k d :
  positions_at (add_position k0 d0 p m) k d
  = positions_at m k d ++ (if bool_decide (k0 = k /\ d0 = d) then [p] else []).
Proof.
  unfold positions_at, add_position.
  destruct (decide (k0 = k)) as [<-|Hk].
  - rewrite lookup_insert_eq. simpl.
    destruct (decide (d0 = d)) as [<-|Hd].
    + rewrite lookup_insert_eq, bool_decide_true by done. simpl.
      destruct (m !! k0); simpl; [done|]. by rewrite lookup_empty.
    + rewrite lookup_insert_ne by done. rewrite bool_decide_false by naive_solver.
      rewrite app_nil_r. destruct (m !! k0); simpl; [done|]. by rewrite lookup_empty.
  - rewrite lookup_insert_ne by done. rewrite bool_decide_false by naive_solver.
    by rewrite app_nil_r.
Qed.

Lemma positions_at_fold ops st k d :
  positions_at (bs_proximity (fold_left apply_op ops st)) k d
  = positions_at (bs_proximity st) k d ++ prox_contrib k d ops.
Proof.
  revert st. induction ops as [|o ops IH]; intros st; simpl.
  - by rewrite app_nil_r.
  - rewrite IH, app_assoc. f_equal.
    destruct o; simpl; try by rewrite app_nil_r. by rewrite positions_at_add.
Qed.

Definition ngram_positions (k : tokgram) (ng : list (tokgram * nat)) : list Z :=
  map (fun kp => Z.of_nat (snd kp)) (List.filter (fun kp => bool_decide (fst kp = k)) ng).

Lemma prox_contrib_doc_ops k d tokens did :
  prox_contrib k d (doc_ops tokens did)
  = if bool_decide (did = d) then ngram_positions k (token_ngrams tokens NGRAMS_MAX)
    else [].
Proof.
  unfold prox_contrib, doc_ops, ngram_positions. simpl.
  rewrite flat_map_app.
  assert (Hw : forall l : list string,
    flat_map (fun o => match o with
                       | OpNgram k0 d0 p =>
                           if bool_decide (k0 = k /\ d0 = d) then [p] else []
                       | _ => []
                       end)
      (flat_map (fun term => map (fun cg => OpWild cg term)
                                 (char_ngrams term CHAR_NGRAMS_MAX)) l) = []).
  { intros l. induction l as [|t l IH]; simpl; [done|].
    rewrite flat_map_app, IH, app_nil_r.
    induction (char_ngrams t CHAR_NGRAMS_MAX); simpl; done. }
  rewrite Hw, app_nil_r.
  induction (token_ngrams tokens NGRAMS_MAX) as [|[k0 p] ng IH]; simpl.
  - by case_bool_decide.
  - rewrite IH. simpl.
    repeat (case_bool_decide; simpl); naive_solver.
Qed.

Definition arity (k : tokgram) : nat :=
  match k with Uni _ => 1 | Tup ts => length ts end.

Lemma ngram_key_arity tokens n i :
  (1 <= n)%nat -> (i + n <= length tokens)%nat -> arity (ngram_key tokens n i) = n.
Proof.
  intros Hn Hi. unfold ngram_key. destruct (Nat.eqb_spec n 1) as [->|Hn1]; [done|].
  simpl. rewrite length_firstn, length_skipn. lia.
Qed.

Lemma token_ngrams_from_arity tokens fuel n kp :
  (1 <= n)%nat -> In kp (token_ngrams_from tokens n fuel) -> (n <= arity (fst kp))%nat.
Proof.
  revert n. induction fuel as [|fuel IH]; intros n Hn Hin; simpl in *; [done|].
  destruct (Nat.ltb_spec (length tokens) n); [done|].
  apply in_app_or in Hin as [Hin|Hin].
  - apply in_map_iff in Hin as [i [<- Hi]]. apply in_seq in Hi. simpl.
    rewrite ngram_key_arity; lia.
  - apply IH in Hin; lia.
Qed.

Lemma filter_map_pairs {B} (g : nat -> B) (P : B * nat -> bool) l :
  map snd (List.filter P (map (fun i => (g i, i)) l))
  = List.filter (fun i => P (g i, i)) l.
Proof.
  induction l as [|i l IH]; simpl; [done|].
  destruct (P (g i, i)); simpl; by rewrite IH.
Qed.

Lemma filter_none {A} (f : A -> bool) l :
  (forall x, In x l -> f x = false) -> List.filter f l = [].
Proof.
  induction l as [|x l IH]; intros Hf; simpl; [done|].
  rewrite Hf by (left; done). apply IH. intros y Hy. apply Hf. by right.
Qed.

Lemma token_ngrams_from_nodup tokens fuel n k :
  (1 <= n)%nat ->
  List.NoDup (map snd (List.filter (fun kp => bool_decide (fst kp = k))
                                   (token_ngrams_from tokens n fuel))).
Proof.
  revert n. induction fuel as [|fuel IH]; intros n Hn; simpl; [constructor|].
  destruct (Nat.ltb_spec (length tokens) n); [constructor|].
  rewrite List.filter_app, map_app.
  destruct (Nat.eq_dec (arity k) n) as [Ha|Ha].
  - rewrite (filter_none _ (token_ngrams_from tokens (S n) fuel)).
    + rewrite app_nil_r, filter_map_pairs. apply List.NoDup_filter, seq_NoDup.
    + intros kp Hin. apply token_ngrams_from_arity in Hin; [|lia].
      apply bool_decide_eq_false. intros Hk. rewrite Hk in Hin. lia.
  - rewrite filter_none; [by apply IH; lia|].
    intros kp Hin. apply in_map_iff in Hin as [i [<- Hi]]. apply in_seq in Hi.
    apply bool_decide_eq_false. simpl. intros Hk.
    rewrite <- Hk, ngram_key_arity in Ha; lia.
Qed.

Lemma ngram_positions_nodup tokens k :
  NoDup (ngram_positions k (token_ngrams tokens NGRAMS_MAX)).
Proof.
  apply NoDup_ListNoDup. unfold ngram_positions.
  rewrite <- (map_map snd Z.of_nat).
  apply Finite.Injective_map_NoDup; [intros x y; lia|].
  apply token_ngrams_from_nodup. lia.
Qed.

Lemma index_docs_positions_nodup P st :
  (forall k d, NoDup (positions_at (bs_proximity st) k d)) ->
  (forall k d, d ∈ map snd P -> positions_at (bs_proximity st) k d = []) ->
  NoDup (map snd P) ->
  forall k d, NoDup (positions_at (bs_proximity (index_docs st P)) k d).
Proof.
  revert st. induction P as [|[t d0] P IH]; intros st Hnd Hfresh HP; simpl; [done|].
  apply NoDup_cons in HP as [Hd0 HP].
  apply IH; [| |done].
  - intros k d. unfold index_doc. rewrite positions_at_fold, prox_contrib_doc_ops.
    case_bool_decide as Hd.
    + subst. rewrite Hfresh by (simpl; set_solver). apply ngram_positions_nodup.
    + rewrite app_nil_r. apply Hnd.
  - intros k d Hd. unfold index_doc. rewrite positions_at_fold, prox_contrib_doc_ops.
    rewrite bool_decide_false by (intros ->; done).
    rewrite app_nil_r. apply Hfresh. simpl. set_solver.
Qed.

Lemma map_snd_combine {A B} (l1 : list A) (l2 : list B) :
  length l2 = length l1 -> map snd (combine l1 l2) = l2.
Proof.
  revert l2. induction l1 as [|x l1 IH]; intros [|y l2] Hl; simpl in *; try done.
  f_equal. apply IH. lia.
Qed.

(** Every posting list, wildcard term list and position list of a package
    is strictly ascending. *)
Definition package_sorted (pkg : package) : Prop :=
  (forall uni k l, pkg_unified pkg = Some uni -> uni !! k = Some l ->
     StronglySorted Z.lt l) /\
  (forall wild cg l, pkg_wildcard pkg = Some wild -> wild !! cg = Some l ->
     StronglySorted (fun x y => String.ltb x y = true) l) /\
  (forall prox k docmap d l, pkg_proximity pkg = Some prox -> prox !! k = Some docmap ->
     docmap !! d = Some l -> StronglySorted Z.lt l).

Lemma finalize_sorted N st :
  (forall k d, NoDup (positions_at (bs_proximity st) k d)) ->
  package_sorted (finalize N st).
Proof.
  intros Hnd. unfold finalize, package_sorted; simpl. split; [|split].
  - intros uni k l [= <-] Hl. rewrite lookup_fmap in Hl.
    destruct (bs_unified st !! k) as [v|]; simplify_eq/=.
    apply sorted_Z_strict, NoDup_elements.
  - intros wild cg l [= <-] Hl. rewrite lookup_fmap in Hl.
    destruct (bs_wildcard st !! cg) as [v|]; simplify_eq/=.
    apply sorted_str_strict, NoDup_elements.
  - intros prox k docmap d l [= <-] Hk Hd. rewrite lookup_fmap in Hk.
    destruct (bs_proximity st !! k) as [dm|] eqn:Edm; simplify_eq/=.
    rewrite lookup_fmap in Hd. destruct (dm !! d) as [l0|] eqn:El0; simplify_eq/=.
    apply sorted_Z_strict. specialize (Hnd k d).
    unfold positions_at in Hnd. by rewrite Edm, El0 in Hnd.
Qed.

Lemma create_all_indexes_sorted docs doc_ids pkg :
  match doc_ids with Some ids => NoDup ids | None => True end ->
  create_all_indexes docs doc_ids = Ok pkg ->
  package_sorted pkg.
Proof.
  intros Hids. unfold create_all_indexes.
  set (ids := match doc_ids with Some l => l | None => _ end).
  destruct (Nat.eqb_spec (length ids) (length docs)) as [Hl|Hl]; simpl; [|done].
  intros [= <-]. apply finalize_sorted.
  apply index_docs_positions_nodup.
  - intros k d. unfold positions_at. simpl. rewrite lookup_empty. constructor.
  - intros k d _. unfold positions_at. simpl. by rewrite lookup_empty.
  - rewrite map_snd_combine by done. subst ids. destruct doc_ids as [l|]; [done|].
    apply NoDup_fmap_2; [apply _|]. apply NoDup_seq.
Qed.

(** ** Claims about the index package *)

(** ** String helpers (Python [str] methods on ASCII strings) *)

Fixpoint str_has (c : ascii) (s : string) : bool :=
  match s with
  | EmptyString => false
  | String a s' => Ascii.eqb a c || str_has c s'
  end.

Definition str_startswith (c : ascii) (s : string) : bool :=
  match s with
  | EmptyString => false
  | String a _ => Ascii.eqb a c
  end.

Fixpoint str_endswith (c : ascii) (s : string) : bool :=
  match s with
  | EmptyString => false
  | String a EmptyString => Ascii.eqb a c
  | String _ s' => str_endswith c s'
  end.

(** [s.split(c, 1)[0]] *)
Fixpoint before_first (c : ascii) (s : string) : string :=
  match s with
  | EmptyString => EmptyString
  | String a s' => if Ascii.eqb a c then EmptyString else String a (before_first c s')
  end.

(** [s.rsplit(c, 1)[-1]] *)
Fixpoint after_last (c : ascii) (s : string) : string :=
  match s with
  | EmptyString => EmptyString
  | String a s' =>
      if str_has c s' then after_last c s'
      else if Ascii.eqb a c then s' else String a s'
  end.

(** [s.replace(c, EmptyString)] *)
Fixpoint remove_char (c : ascii) (s : string) : string :=
  match s with
  | EmptyString => EmptyString
  | String a s' => if Ascii.eqb a c then remove_char c s' else String a (remove_char c s')
  end.

(** [ch.isspace()] on ASCII characters: [\t \n \v \f \r], [\x1c]-[\x1f], space. *)
Definition is_space (c : ascii) : bool :=
  let n := nat_of_ascii c in
  ((9 <=? n) && (n <=? 13))%nat || ((28 <=? n) && (n <=? 32))%nat.

(** [s.strip()] *)
Fixpoint lstrip_l (l : list ascii) : list ascii :=
  match l with
  | [] => []
  | c :: l' => if is_space c then lstrip_l l' else l
  end.

Definition strip (s : string) : string :=
  string_of_list_ascii (rev (lstrip_l (rev (lstrip_l (list_ascii_of_string s))))).

(** ** [query_processing/wildcard.py] *)

Definition dedupe_grams (grams : list string) : list string :=
  rev (fold_left (fun out g =>
         if String.eqb g EmptyString || String.eqb g "$" || existsb (String.eqb g) out
         then out else g :: out) grams []).

Definition pattern_to_ngrams (pat : string) : list string :=
  let s := pat in
  let pre :=
    if negb (str_startswith "*" s) then
      let stem := before_first "*" s in
      flat_map (fun L => if (L <=? String.length stem)%nat
                         then [("$" ++ substring 0 L stem)%string] else [])
               [1; 2]%nat
    else [] in
  let suf :=
    if negb (str_endswith "*" s) then
      let stem := after_last "*" s in
      flat_map (fun L => if (L <=? String.length stem)%nat
                         then [(substring (String.length stem - L) L stem ++ "$")%string]
                         else [])
               [1; 2]%nat
    else [] in
  let core := remove_char "*" s in
  let inner :=
    flat_map (fun L => map (fun i => substring i L core)
                           (seq 0 (String.length core + 1 - L)))
             [3; 2; 1]%nat in
  dedupe_grams (pre ++ suf ++ inner).

(** [re.compile("^" + re.escape(pat).replace("\\*", ".*") + "$").match(t)]:
    ['*'] matches any run of characters other than a newline, every other
    character of the pattern matches itself, and the final ["$"] accepts
    the end of the term or a newline that ends it. *)
Fixpoint glob_match_l (p t : list ascii) : bool :=
  match p with
  | [] => match t with
          | [] => true
          | [c] => Ascii.eqb c "010"%char
          | _ => false
          end
  | c :: p' =>
      if Ascii.eqb c "*" then
        (fix star (t : list ascii) : bool :=
           glob_match_l p' t ||
           match t with
           | [] => false
           | a :: t' => negb (Ascii.eqb a "010"%char) && star t'
           end) t
      else match t with
           | [] => false
           | a :: t' => Ascii.eqb a c && glob_match_l p' t'
           end
  end.

Definition glob_match (pat t : string) : bool :=
  glob_match_l (list_ascii_of_string pat) (list_ascii_of_string t).

Definition expand_terms (pkg : package) (pat : string) : list string :=
  let grams := pattern_to_ngrams pat in
  match grams with
  | [] => []
  | g0 :: rest =>
      let candidates :=
        fold_left (fun cands g =>
                     if decide (cands = ∅) then cands   (* break *)
                     else cands ∩ list_to_set (find_wildcard_matches pkg g))
                  rest (list_to_set (find_wildcard_matches pkg g0) : gset string) in
      sorted_str (List.filter (glob_match pat) (elements candidates))
  end.

Definition process_wildcard_query (pkg : package) (pattern : string) : gset Z :=
  if negb (str_has "*" pattern) || String.eqb (strip pattern) EmptyString then ∅
  else
    fold_left (fun results t => results ∪ list_to_set (get_posting_list pkg (Uni t)))
              (expand_terms pkg pattern) ∅.

Definition test_corpus : list (list string) :=
  [["climate"; "change"; "effects"];
   ["machine"; "learning"; "algorithms"];
   ["climate"; "science"; "research"];
   ["renewable"; "energy"; "transition"]]%string.

Definition test_pkg : package := pkg_of (create_all_indexes test_corpus (Some [10; 20; 30; 40])).

Example wildcard_prefix : process_wildcard_query test_pkg "climat*" = {[10; 30]}.
Proof. vm_compute. reflexivity. Qed.
Example wildcard_suffix : process_wildcard_query test_pkg "*tion" = {[40]}.
Proof. vm_compute. reflexivity. Qed.
Example wildcard_infix : process_wildcard_query test_pkg "learn*ing" = {[20]}.
Proof. vm_compute. reflexivity. Qed.

(** ** [query_processing/boolean.py] *)

(** Character classes of Python's [re] on ASCII text. *)
Definition is_word (c : ascii) : bool :=
  let n := nat_of_ascii c in
  ((48 <=? n) && (n <=? 57))%nat || ((65 <=? n) && (n <=? 90))%nat ||
  ((97 <=? n) && (n <=? 122))%nat || (n =? 95)%nat.

(** The double-quote character. *)
Definition dq : ascii := "034".

Definition is_paren (c : ascii) : bool := Ascii.eqb c "(" || Ascii.eqb c ")".

(** The text up to the next double quote, and the text after it. *)
Fixpoint split_quote (l : list ascii) : option (list ascii * list ascii) :=
  match l with
  | [] => None
  | c :: l' =>
      if Ascii.eqb c dq then Some ([], l')
      else match split_quote l' with
           | Some (inner, r) => Some (c :: inner, r)
           | None => None
           end
  end.

(** The maximal run of [[^()\s]]. *)
Fixpoint span_word (l : list ascii) : list ascii * list ascii :=
  match l with
  | [] => ([], [])
  | c :: l' =>
      if is_paren c || is_space c then ([], l)
      else let '(w, r) := span_word l' in (c :: w, r)
  end.

Fixpoint strip_prefix (p l : list ascii) : option (list ascii) :=
  match p, l with
  | [], _ => Some l
  | a :: p', c :: l' => if Ascii.eqb a c then strip_prefix p' l' else None
  | _ :: _, [] => None
  end.

(** [\bKW\b] at the current position, [prev] being the character before it
    (the keywords start and end with a word character). *)
Definition kw_match (prev : option ascii) (kw : list ascii) (l : list ascii)
  : option (list ascii) :=
  match prev with
  | Some p => if is_word p then None else
      match strip_prefix kw l with
      | Some [] => Some []
      | Some (c :: r) => if is_word c then None else Some (c :: r)
      | None => None
      end
  | None =>
      match strip_prefix kw l with
      | Some [] => Some []
      | Some (c :: r) => if is_word c then None else Some (c :: r)
      | None => None
      end
  end.

Definition last_char (w : list ascii) (dflt : ascii) : ascii := List.last w dflt.

(** [RE_TOKEN.findall(query)]. The alternatives of [RE_TOKEN] are tried in
    order at each position: a double-quoted phrase (a double quote, then
    anything up to the next double quote), an opening parenthesis, a
    closing parenthesis, the keywords AND, OR, NOT between word boundaries,
    and a maximal run of characters that are neither parentheses nor
    white space. A position where none matches (white space) is skipped. *)
Fixpoint findall_tokens (fuel : nat) (prev : option ascii) (l : list ascii)
  : list string :=
  match fuel with
  | O => []
  | S fuel' =>
      match l with
      | [] => []
      | c :: l' =>
          match (if Ascii.eqb c dq then split_quote l' else None) with
          | Some (inner, r) =>
              string_of_list_ascii (dq :: inner ++ [dq])
              :: findall_tokens fuel' (Some dq) r
          | None =>
              if Ascii.eqb c "(" then "(" :: findall_tokens fuel' (Some c) l'
              else if Ascii.eqb c ")" then ")" :: findall_tokens fuel' (Some c) l'
              else match kw_match prev (list_ascii_of_string "AND") l with
              | Some r => "AND" :: findall_tokens fuel' (Some "D"%char) r
              | None =>
              match kw_match prev (list_ascii_of_string "OR") l with
              | Some r => "OR" :: findall_tokens fuel' (Some "R"%char) r
              | None =>
              match kw_match prev (list_ascii_of_string "NOT") l with
              | Some r => "NOT" :: findall_tokens fuel' (Some "T"%char) r
              | None =>
                  if is_space c then findall_tokens fuel' (Some c) l'
                  else let '(w, r) := span_word l in
                       string_of_list_ascii w
                       :: findall_tokens fuel' (Some (last_char w c)) r
              end end end
          end
      end
  end%string.

Definition tokenize (query : string) : list string :=
  let l := list_ascii_of_string query in
  findall_tokens (S (length l)) None l.

(** [inside.split()] *)
Fixpoint split_ws_go (cur : list ascii) (l : list ascii) : list string :=
  match l with
  | [] => match cur with [] => [] | _ => [string_of_list_ascii (rev cur)] end
  | c :: l' =>
      if is_space c then
        match cur with
        | [] => split_ws_go [] l'
        | _ => string_of_list_ascii (rev cur) :: split_ws_go [] l'
        end
      else split_ws_go (c :: cur) l'
  end.

Definition split_ws (s : string) : list string :=
  split_ws_go [] (list_ascii_of_string s).

(** [s[1:-1]] for a string of length at least 2, empty otherwise. *)
Definition drop_ends (s : string) : string :=
  substring 1 (String.length s - 2) s.

Definition str_endswith_s (c : ascii) (s : string) : bool := str_endswith c s.

(** [_as_key] of [boolean.py]. *)
Definition bool_as_key (t : string) : tokgram :=
  if str_startswith dq t && str_endswith dq t then
    let inside := strip (drop_ends t) in
    if String.eqb inside EmptyString then Uni EmptyString
    else match split_ws inside with
         | [t0] => Uni t0
         | toks => Tup toks
         end
  else Uni t.

Definition postings_for_key (pkg : package) (k : tokgram) : gset Z :=
  if decide (k = Uni EmptyString) then ∅ else list_to_set (get_posting_list pkg k).

Definition is_op_or_paren (t : string) : bool :=
  String.eqb t "AND" || String.eqb t "OR" || String.eqb t "NOT" ||
  String.eqb t "(" || String.eqb t ")".

Definition collect_universe (pkg : package) (tokens : list string) : gset Z :=
  fold_left (fun U t => if is_op_or_paren t then U
                        else U ∪ postings_for_key pkg (bool_as_key t))
            tokens ∅.

(** [prec = {"NOT": 3, "AND": 2, "OR": 1}] *)
Definition prec (t : string) : option nat :=
  if String.eqb t "NOT" then Some 3%nat
  else if String.eqb t "AND" then Some 2%nat
  else if String.eqb t "OR" then Some 1%nat
  else None.

(** [while ops and ops[-1] in prec and cond(prec[ops[-1]]): output.append(ops.pop())];
    the operator stack is a list whose head is [ops[-1]]. *)
Fixpoint pop_ops (cond : nat -> bool) (ops : list string) (output : list tokgram)
  : list string * list tokgram :=
  match ops with
  | o :: ops' =>
      match prec o with
      | Some q => if cond q then pop_ops cond ops' (output ++ [Uni o]) else (ops, output)
      | None => (ops, output)
      end
  | [] => ([], output)
  end.

(** [while ops and ops[-1] != "(": output.append(ops.pop())] *)
Fixpoint pop_to_paren (ops : list string) (output : list tokgram)
  : list string * list tokgram :=
  match ops with
  | o :: ops' =>
      if String.eqb o "(" then (ops, output) else pop_to_paren ops' (output ++ [Uni o])
  | [] => ([], output)
  end.

(** The final [while ops] loop of [_to_rpn]. *)
Fixpoint flush_ops (ops : list string) (output : list tokgram) : result (list tokgram) :=
  match ops with
  | [] => Ok output
  | o :: ops' =>
      if String.eqb o "(" || String.eqb o ")" then Err "Unbalanced parentheses"
      else flush_ops ops' (output ++ [Uni o])
  end.

Fixpoint to_rpn_loop (tokens : list string) (ops : list string) (output : list tokgram)
  : result (list tokgram) :=
  match tokens with
  | [] => flush_ops ops output
  | t :: rest =>
      if String.eqb t "(" then to_rpn_loop rest (t :: ops) output
      else if String.eqb t ")" then
        let '(ops', output') := pop_to_paren ops output in
        match ops' with
        | [] => Err "Unbalanced parentheses"
        | _ :: ops'' => to_rpn_loop rest ops'' output'
        end
      else match prec t with
      | Some p =>
          let '(ops', output') :=
            if String.eqb t "NOT"
            then pop_ops (fun q => p <? q)%nat ops output    (* right-assoc: strictly higher *)
            else pop_ops (fun q => p <=? q)%nat ops output   (* left-assoc: >= *)
          in to_rpn_loop rest (t :: ops') output'
      | None => to_rpn_loop rest ops (output ++ [bool_as_key t])
      end
  end.

Definition to_rpn (tokens : list string) : result (list tokgram) :=
  to_rpn_loop tokens [] [].

(** A token as [_balanced_parens] would see it: a parenthesis token is that
    parenthesis, any other token a character that is neither. *)
Definition paren_of_token (t : string) : ascii :=
  if String.eqb t "(" then "(" else if String.eqb t ")" then ")" else "a".

(** The open parentheses on the operator stack. *)
Definition count_open (ops : list string) : nat :=
  length (List.filter (fun o => String.eqb o "(") ops).

(** [_eval_rpn]: the value stack is a list whose head is [stack[-1]]. *)
Fixpoint eval_rpn_loop (pkg : package) (universe : gset Z) (rpn : list tokgram)
    (stack : list (gset Z)) : result (gset Z) :=
  match rpn with
  | [] => match stack with
          | [v] => Ok v
          | _ => Err "Malformed boolean expression"
          end
  | token :: rest =>
      if decide (token = Uni "NOT") then
        match stack with
        | a :: stack' => eval_rpn_loop pkg universe rest ((universe ∖ a) :: stack')
        | [] => Err "NOT without operand"
        end
      else if decide (token = Uni "AND") then
        match stack with
        | b :: a :: stack' => eval_rpn_loop pkg universe rest ((a ∩ b) :: stack')
        | _ => Err "AND needs two operands"
        end
      else if decide (token = Uni "OR") then
        match stack with
        | b :: a :: stack' => eval_rpn_loop pkg universe rest ((a ∪ b) :: stack')
        | _ => Err "OR needs two operands"
        end
      else eval_rpn_loop pkg universe rest (postings_for_key pkg token :: stack)
  end.

Definition eval_rpn (pkg : package) (rpn : list tokgram) (universe : gset Z)
  : result (gset Z) :=
  eval_rpn_loop pkg universe rpn [].

Definition process_boolean_query (pkg : package) (query : string) : result (gset Z) :=
  let tokens := tokenize query in
  let U := collect_universe pkg tokens in
  match to_rpn tokens with
  | Ok rpn => eval_rpn pkg rpn U
  | Err e => Err e
  end.

Example boolean_and_or :
  process_boolean_query test_pkg "climate AND change" = Ok {[10]} /\
  process_boolean_query test_pkg "climate OR science" = Ok {[10; 30]}.
Proof. split; vm_compute; reflexivity. Qed.

Example boolean_phrase :
  process_boolean_query test_pkg (String dq ("machine learning" ++ String dq EmptyString))
  = Ok {[20]}.
Proof. vm_compute. reflexivity. Qed.

(** ** The boolean result lies in the query universe *)

Lemma prec_some o q : prec o = Some q -> o = "NOT" \/ o = "AND" \/ o = "OR".
Proof.
  unfold prec. intros H.
  destruct (String.eqb_spec o "NOT"); [by left|].
  destruct (String.eqb_spec o "AND"); [by right; left|].
  destruct (String.eqb_spec o "OR"); [by right; right|]. done.
Qed.

Definition rpn_item_ok (tokens : list string) (x : tokgram) : Prop :=
  (exists o q, x = Uni o /\ prec o = Some q) \/
  (exists t, t ∈ tokens /\ is_op_or_paren t = false /\ x = bool_as_key t).

Definition ops_ok (ops : list string) : Prop :=
  Forall (fun o => o = "(" \/ exists q, prec o = Some q) ops.

Lemma pop_ops_ok tokens cond ops output ops' output' :
  ops_ok ops -> Forall (rpn_item_ok tokens) output ->
  pop_ops cond ops output = (ops', output') ->
  ops_ok ops' /\ Forall (rpn_item_ok tokens) output'.
Proof.
  revert output. induction ops as [|o ops IH]; intros output Hops Hout; simpl.
  - intros [= <- <-]. split; [constructor|done].
  - destruct (prec o) as [q|] eqn:Hq; [destruct (cond q)|].
    + apply Forall_cons in Hops as [_ Hops]. apply IH; [done|].
      apply Forall_app. split; [done|]. apply Forall_singleton. left. eauto.
    + intros [= <- <-]. done.
    + intros [= <- <-]. done.
Qed.

Lemma pop_to_paren_ok tokens ops output ops' output' :
  ops_ok ops -> Forall (rpn_item_ok tokens) output ->
  pop_to_paren ops output = (ops', output') ->
  ops_ok ops' /\ Forall (rpn_item_ok tokens) output'.
Proof.
  revert output. induction ops as [|o ops IH]; intros output Hops Hout; simpl.
  - intros [= <- <-]. split; [constructor|done].
  - destruct (String.eqb_spec o "(").
    + intros [= <- <-]. done.
    + apply Forall_cons in Hops as [Ho Hops]. apply IH; [done|].
      apply Forall_app. split; [done|]. apply Forall_singleton. left.
      destruct Ho as [->|[q Hq]]; [done|]. eauto.
Qed.

Lemma flush_ops_ok tokens ops output rpn :
  ops_ok ops -> Forall (rpn_item_ok tokens) output ->
  flush_ops ops output = Ok rpn -> Forall (rpn_item_ok tokens) rpn.
Proof.
  revert output. induction ops as [|o ops IH]; intros output Hops Hout; simpl.
  - intros [= <-]. done.
  - destruct (String.eqb_spec o "("), (String.eqb_spec o ")"); simpl; try done.
    apply Forall_cons in Hops as [Ho Hops]. apply IH; [done|].
    apply Forall_app. split; [done|]. apply Forall_singleton. left.
    destruct Ho as [->|[q Hq]]; [done|]. eauto.
Qed.

Lemma to_rpn_loop_ok tokens rest ops output rpn :
  (forall t, t ∈ rest -> t ∈ tokens) ->
  ops_ok ops -> Forall (rpn_item_ok tokens) output ->
  to_rpn_loop rest ops output = Ok rpn -> Forall (rpn_item_ok tokens) rpn.
Proof.
  revert ops output. induction rest as [|t rest IH]; intros ops output Hsub Hops Hout; simpl.
  - by apply flush_ops_ok.
  - assert (Ht : t ∈ tokens) by (apply Hsub; set_solver).
    assert (Hsub' : forall t', t' ∈ rest -> t' ∈ tokens) by (intros; apply Hsub; set_solver).
    destruct (String.eqb_spec t "(") as [->|Hl].
    { apply IH; [done| |done]. constructor; [by left|done]. }
    destruct (String.eqb_spec t ")") as [->|Hr].
    { destruct (pop_to_paren ops output) as [ops' output'] eqn:E.
      apply (pop_to_paren_ok tokens) in E as [Hops' Hout']; [|done|done].
      destruct ops' as [|o ops'']; [done|].
      apply Forall_cons in Hops' as [_ Hops'']. by apply IH. }
    destruct (prec t) as [p|] eqn:Hp.
    + destruct (String.eqb t "NOT");
        [destruct (pop_ops (fun q => p <? q)%nat ops output) as [ops' output'] eqn:E
        |destruct (pop_ops (fun q => p <=? q)%nat ops output) as [ops' output'] eqn:E];
        apply (pop_ops_ok tokens) in E as [Hops' Hout']; try done;
        apply IH; try done; constructor; eauto.
    + apply IH; [done|done|]. apply Forall_app. split; [done|].
      apply Forall_singleton. right. exists t. split; [done|]. split; [|done].
      unfold is_op_or_paren.
      destruct (String.eqb_spec t "AND") as [->|]; [done|].
      destruct (String.eqb_spec t "OR") as [->|]; [done|].
      destruct (String.eqb_spec t "NOT") as [->|]; [done|].
      destruct (String.eqb_spec t "("); [done|].
      destruct (String.eqb_spec t ")"); done.
Qed.

Lemma collect_universe_spec pkg tokens d :
  d ∈ collect_universe pkg tokens <->
  exists t, t ∈ tokens /\ is_op_or_paren t = false /\
            d ∈ postings_for_key pkg (bool_as_key t).
Proof.
  unfold collect_universe.
  assert (Hgen : forall U, d ∈ fold_left (fun U t => if is_op_or_paren t then U
                        else U ∪ postings_for_key pkg (bool_as_key t)) tokens U <->
          d ∈ U \/ exists t, t ∈ tokens /\ is_op_or_paren t = false /\
                             d ∈ postings_for_key pkg (bool_as_key t)).
  { induction tokens as [|t tokens IH]; intros U; simpl.
    - split; [by left|]. intros [?|[t [Ht _]]]; [done|set_solver].
    - rewrite IH. setoid_rewrite elem_of_cons.
      destruct (is_op_or_paren t) eqn:Ho; [|rewrite elem_of_union]; split.
      + intros [H|[t' [H1 [H2 H3]]]]; [left|right; exists t']; auto.
      + intros [H|[t' [[->|H1] [H2 H3]]]]; [by left|congruence|right; eauto].
      + intros [[H|H]|[t' [H1 [H2 H3]]]]; [by left|right; exists t; auto|right; exists t'; auto].
      + intros [H|[t' [[->|H1] [H2 H3]]]]; [by left; left|by left; right|right; eauto]. }
  rewrite Hgen. split; [intros [?|?]; [set_solver|done]|by right].
Qed.

Lemma eval_rpn_loop_subset pkg U rpn stack S :
  (forall x, x ∈ rpn -> x <> Uni "NOT" -> x <> Uni "AND" -> x <> Uni "OR" ->
     postings_for_key pkg x ⊆ U) ->
  Forall (fun v => v ⊆ U) stack ->
  eval_rpn_loop pkg U rpn stack = Ok S -> S ⊆ U.
Proof.
  revert stack. induction rpn as [|x rpn IH]; intros stack Hx Hst; simpl.
  - destruct stack as [|v [|]]; try done. intros [= <-]. by inversion Hst.
  - assert (Hx' : forall y, y ∈ rpn -> y <> Uni "NOT" -> y <> Uni "AND" -> y <> Uni "OR" ->
                   postings_for_key pkg y ⊆ U) by (intros; apply Hx; set_solver).
    destruct (decide (x = Uni "NOT")).
    { destruct stack as [|a stack]; [done|]. apply IH; [done|].
      inversion Hst; subst. constructor; [set_solver|done]. }
    destruct (decide (x = Uni "AND")).
    { destruct stack as [|b [|a stack]]; try done. apply IH; [done|].
      inversion Hst as [|? ? ? Hst']; subst. inversion Hst'; subst.
      constructor; [set_solver|done]. }
    destruct (decide (x = Uni "OR")).
    { destruct stack as [|b [|a stack]]; try done. apply IH; [done|].
      inversion Hst as [|? ? ? Hst']; subst. inversion Hst'; subst.
      constructor; [set_solver|done]. }
    apply IH; [done|]. constructor; [|done]. apply Hx; set_solver.
Qed.

(** ** Boolean expressions printed with the fewest parentheses *)

Inductive bexpr : Type :=
| BTerm (w : string)
| BNot (e : bexpr)
| BAnd (a b : bexpr)
| BOr (a b : bexpr).

Definition paren_if (b : bool) (l : list string) : list string :=
  if b then "(" :: l ++ [")"] else l.

(** Level 1: an OR operand list; level 2: an AND operand list; level 3: a
    NOT operand. AND and OR are left-associative, so a right operand is
    printed one level higher. *)
Fixpoint bexpr_tokens (lvl : nat) (e : bexpr) : list string :=
  match e with
  | BTerm w => [w]
  | BNot e => "NOT" :: bexpr_tokens 3 e
  | BAnd a b => paren_if (2 <? lvl)%nat (bexpr_tokens 2 a ++ "AND" :: bexpr_tokens 3 b)
  | BOr a b => paren_if (1 <? lvl)%nat (bexpr_tokens 1 a ++ "OR" :: bexpr_tokens 2 b)
  end.

Fixpoint bexpr_postfix (e : bexpr) : list tokgram :=
  match e with
  | BTerm w => [Uni w]
  | BNot e => bexpr_postfix e ++ [Uni "NOT"]
  | BAnd a b => bexpr_postfix a ++ bexpr_postfix b ++ [Uni "AND"]
  | BOr a b => bexpr_postfix a ++ bexpr_postfix b ++ [Uni "OR"]
  end.

(** Operands are words of lowercase letters and digits. *)
Definition is_lower_alnum (c : ascii) : bool :=
  let n := nat_of_ascii c in ((48 <=? n) && (n <=? 57))%nat || ((97 <=? n) && (n <=? 122))%nat.

Definition is_lower_word (w : string) : bool :=
  negb (String.eqb w EmptyString) && forallb is_lower_alnum (list_ascii_of_string w).

Fixpoint bexpr_atoms_ok (e : bexpr) : Prop :=
  match e with
  | BTerm w => is_lower_word w = true
  | BNot e => bexpr_atoms_ok e
  | BAnd a b | BOr a b => bexpr_atoms_ok a /\ bexpr_atoms_ok b
  end.

Fixpoint bexpr_atoms (e : bexpr) : list string :=
  match e with
  | BTerm w => [w]
  | BNot e => bexpr_atoms e
  | BAnd a b | BOr a b => bexpr_atoms a ++ bexpr_atoms b
  end.

(** The set semantics: NOT is the complement within U. *)
Fixpoint bexpr_denote (pkg : package) (U : gset Z) (e : bexpr) : gset Z :=
  match e with
  | BTerm w => list_to_set (get_posting_list pkg (Uni w))
  | BNot e => U ∖ bexpr_denote pkg U e
  | BAnd a b => bexpr_denote pkg U a ∩ bexpr_denote pkg U b
  | BOr a b => bexpr_denote pkg U a ∪ bexpr_denote pkg U b
  end.

(** The query universe: the union of the postings of the operands. *)
Definition bexpr_universe (pkg : package) (e : bexpr) : gset Z :=
  fold_right (fun w U => list_to_set (get_posting_list pkg (Uni w)) ∪ U) ∅ (bexpr_atoms e).

Definition render_bexpr (e : bexpr) : string :=
  String.concat " " (bexpr_tokens 1 e).

(** ** Shunting-yard on printed expressions *)

(** The operators above the innermost open parenthesis all bind looser
    than level [lvl]. *)
Fixpoint seg_below (lvl : nat) (ops : list string) : Prop :=
  match ops with
  | [] => True
  | o :: ops' => o = "(" \/ (exists q, prec o = Some q /\ (q < lvl)%nat /\ seg_below lvl ops')
  end.

Definition ctx_ok (lvl : nat) (ops : list string) : Prop :=
  lvl = 3%nat \/ seg_below lvl ops.

Lemma seg_below_mono l1 l2 ops : (l1 <= l2)%nat -> seg_below l1 ops -> seg_below l2 ops.
Proof.
  intros Hl. induction ops as [|o ops IH]; simpl; [done|].
  intros [?|[q [? [? ?]]]]; [by left|right; exists q; split_and!; auto; lia].
Qed.

Lemma pop_ops_pend cond pend ops out :
  Forall (fun o => exists q, prec o = Some q /\ cond q = true) pend ->
  pop_ops cond (pend ++ ops) out = pop_ops cond ops (out ++ map Uni pend).
Proof.
  revert out. induction pend as [|o pend IH]; intros out Hp; simpl.
  - by rewrite app_nil_r.
  - apply Forall_cons in Hp as [[q [Hq Hc]] Hp]. rewrite Hq, Hc, IH by done.
    by rewrite <- app_assoc.
Qed.

Lemma pop_ops_stop cond ops out :
  match ops with [] => True | o :: _ => forall q, prec o = Some q -> cond q = false end ->
  pop_ops cond ops out = (ops, out).
Proof.
  destruct ops as [|o ops]; simpl; [done|]. intros H.
  destruct (prec o) as [q|] eqn:Hq; [by rewrite H|done].
Qed.

Lemma prec_le_3 o q : prec o = Some q -> (q <= 3)%nat.
Proof.
  unfold prec. destruct (String.eqb o "NOT"); [intros [= <-]; lia|].
  destruct (String.eqb o "AND"); [intros [= <-]; lia|].
  destruct (String.eqb o "OR"); [intros [= <-]; lia|done].
Qed.

Lemma pop_to_paren_pend pend ops out :
  Forall (fun o => o <> "(") pend ->
  pop_to_paren (pend ++ "(" :: ops) out = ("(" :: ops, out ++ map Uni pend).
Proof.
  revert out. induction pend as [|o pend IH]; intros out Hp; simpl.
  - by rewrite app_nil_r.
  - apply Forall_cons in Hp as [Ho Hp].
    destruct (String.eqb_spec o "("); [done|]. rewrite IH by done.
    by rewrite <- app_assoc.
Qed.

Lemma flush_ops_pend pend out :
  Forall (fun o => exists q, prec o = Some q) pend ->
  flush_ops pend out = Ok (out ++ map Uni pend).
Proof.
  revert out. induction pend as [|o pend IH]; intros out Hp; simpl.
  - by rewrite app_nil_r.
  - apply Forall_cons in Hp as [[q Hq] Hp].
    assert (Ho : o <> "(" /\ o <> ")").
    { split; intros ->; discriminate Hq. }
    destruct Ho as [Ho1 Ho2].
    destruct (String.eqb_spec o "("), (String.eqb_spec o ")"); try done.
    simpl. rewrite IH by done. by rewrite <- app_assoc.
Qed.

Definition pend_ok (lvl : nat) (pend : list string) : Prop :=
  Forall (fun o => exists q, prec o = Some q /\ (lvl <= q)%nat) pend.

Lemma pend_ok_mono l1 l2 pend : (l1 <= l2)%nat -> pend_ok l2 pend -> pend_ok l1 pend.
Proof.
  intros Hl Hp. eapply Forall_impl; [exact Hp|]. intros o [q [? ?]]. exists q. split; [done|lia].
Qed.

Lemma pend_ok_no_paren lvl pend : pend_ok lvl pend -> Forall (fun o => o <> "(") pend.
Proof. intros Hp. eapply Forall_impl; [exact Hp|]. intros o [q [Hq _]] ->. discriminate Hq. Qed.

Lemma pend_ok_prec lvl pend : pend_ok lvl pend -> Forall (fun o => exists q, prec o = Some q) pend.
Proof. intros Hp. eapply Forall_impl; [exact Hp|]. intros o [q [Hq _]]. by exists q. Qed.

Lemma rpn_step_open rest ops out :
  to_rpn_loop ("(" :: rest) ops out = to_rpn_loop rest ("(" :: ops) out.
Proof. reflexivity. Qed.

Lemma rpn_step_close rest ops out :
  to_rpn_loop (")" :: rest) ops out =
  let '(ops', out') := pop_to_paren ops out in
  match ops' with [] => Err "Unbalanced parentheses" | _ :: ops'' => to_rpn_loop rest ops'' out' end.
Proof. reflexivity. Qed.

Lemma rpn_step_not rest ops out :
  to_rpn_loop ("NOT" :: rest) ops out =
  let '(ops', out') := pop_ops (fun q => 3 <? q)%nat ops out in to_rpn_loop rest ("NOT" :: ops') out'.
Proof. reflexivity. Qed.

Lemma rpn_step_and rest ops out :
  to_rpn_loop ("AND" :: rest) ops out =
  let '(ops', out') := pop_ops (fun q => 2 <=? q)%nat ops out in to_rpn_loop rest ("AND" :: ops') out'.
Proof. reflexivity. Qed.

Lemma rpn_step_or rest ops out :
  to_rpn_loop ("OR" :: rest) ops out =
  let '(ops', out') := pop_ops (fun q => 1 <=? q)%nat ops out in to_rpn_loop rest ("OR" :: ops') out'.
Proof. reflexivity. Qed.

Lemma rpn_step_atom w rest ops out :
  w <> "(" -> w <> ")" -> prec w = None ->
  to_rpn_loop (w :: rest) ops out = to_rpn_loop rest ops (out ++ [bool_as_key w]).
Proof.
  intros H1 H2 H3. cbn [to_rpn_loop].
  rewrite (proj2 (String.eqb_neq _ _) H1), (proj2 (String.eqb_neq _ _) H2), H3. done.
Qed.

Lemma lower_alnum_ne c d : is_lower_alnum c = true -> is_lower_alnum d = false -> c <> d.
Proof. intros Hc Hd ->. congruence. Qed.

Lemma lower_word_cons w : is_lower_word w = true ->
  exists c w', w = String c w' /\ is_lower_alnum c = true.
Proof.
  destruct w as [|c w']; [done|]. unfold is_lower_word. simpl.
  intros H. apply andb_prop in H as [Hc _]. by exists c, w'.
Qed.

Lemma lower_word_ne w s d : is_lower_word w = true -> is_lower_alnum d = false ->
  w <> String d s.
Proof.
  intros Hw Hd. destruct (lower_word_cons w Hw) as [c [w' [-> Hc]]].
  intros [= Hcd _]. exact (lower_alnum_ne c d Hc Hd Hcd).
Qed.

Lemma lower_word_facts w : is_lower_word w = true ->
  w <> "(" /\ w <> ")" /\ prec w = None /\ bool_as_key w = Uni w /\
  is_op_or_paren w = false /\ w <> EmptyString.
Proof.
  intros Hw.
  assert (Hne : forall d s, is_lower_alnum d = false -> String.eqb w (String d s) = false).
  { intros d s Hd. apply String.eqb_neq. by apply lower_word_ne. }
  destruct (lower_word_cons w Hw) as [c [w' [Hweq Hc]]].
  split_and!.
  - by apply lower_word_ne.
  - by apply lower_word_ne.
  - unfold prec. rewrite !Hne by reflexivity. done.
  - unfold bool_as_key. rewrite Hweq. simpl.
    destruct (Ascii.eqb_spec c dq) as [->|]; [discriminate Hc|done].
  - unfold is_op_or_paren. rewrite !Hne by reflexivity. done.
  - by rewrite Hweq.
Qed.

Lemma seg_below_top lvl ops cond :
  seg_below lvl ops -> (forall q, (q < lvl)%nat -> cond q = false) ->
  match ops with [] => True | o :: _ => forall q, prec o = Some q -> cond q = false end.
Proof.
  destruct ops as [|o ops]; [done|]. simpl.
  intros [->|[q [Hq [Hlt _]]]] Hc q' Hq'; [discriminate Hq'|].
  rewrite Hq in Hq'. injection Hq' as <-. by apply Hc.
Qed.

Lemma rpn_paren l pe rest ops out :
  (exists pend X, pend_ok 1 pend /\ X ++ map Uni pend = pe /\
     to_rpn_loop (l ++ ")" :: rest) ("(" :: ops) out =
     to_rpn_loop (")" :: rest) (pend ++ "(" :: ops) (out ++ X)) ->
  to_rpn_loop (("(" :: l ++ [")"]) ++ rest) ops out = to_rpn_loop rest ops (out ++ pe).
Proof.
  intros [pend [X [Hp [HX Heq]]]].
  rewrite <- app_comm_cons, rpn_step_open, <- app_assoc. cbn [app].
  rewrite Heq, rpn_step_close, pop_to_paren_pend by (by eapply pend_ok_no_paren).
  cbv iota. by rewrite <- app_assoc, HX.
Qed.

Lemma to_rpn_bexpr e : bexpr_atoms_ok e -> forall lvl rest ops out,
  (1 <= lvl <= 3)%nat -> ctx_ok lvl ops ->
  exists pend X, pend_ok lvl pend /\ X ++ map Uni pend = bexpr_postfix e /\
    to_rpn_loop (bexpr_tokens lvl e ++ rest) ops out =
    to_rpn_loop rest (pend ++ ops) (out ++ X).
Proof.
  induction e as [w|e IH|a IHa b IHb|a IHa b IHb]; intros Hok lvl rest ops out Hl Hc.
  - (* an operand *)
    destruct (lower_word_facts w Hok) as [H1 [H2 [H3 [H4 _]]]].
    exists [], [Uni w]. split_and!; [constructor|done|].
    cbn [bexpr_tokens app]. rewrite rpn_step_atom, H4 by done. done.
  - (* NOT *)
    cbn [bexpr_tokens app]. rewrite rpn_step_not.
    rewrite pop_ops_stop.
    2:{ destruct ops as [|o ops]; [done|]. intros q Hq.
        apply prec_le_3 in Hq. apply Nat.ltb_ge. lia. }
    cbv iota.
    destruct (IH Hok 3%nat rest ("NOT" :: ops) out) as [pend [X [Hp [HX Heq]]]];
      [lia|by left|].
    rewrite Heq. exists (pend ++ ["NOT"]), X. split_and!.
    + apply Forall_app. split; [by eapply pend_ok_mono; [|exact Hp]; lia|].
      constructor; [|constructor]. exists 3%nat. split; [done|lia].
    + by rewrite map_app, app_assoc, HX.
    + by rewrite <- app_assoc.
  - (* AND *)
    destruct Hok as [Ha Hb].
    assert (Hin : forall lvl' ops' out' rest', (1 <= lvl' <= 2)%nat -> seg_below lvl' ops' ->
      exists pend X, pend_ok lvl' pend /\ X ++ map Uni pend = bexpr_postfix (BAnd a b) /\
        to_rpn_loop ((bexpr_tokens 2 a ++ "AND" :: bexpr_tokens 3 b) ++ rest') ops' out' =
        to_rpn_loop rest' (pend ++ ops') (out' ++ X)).
    { intros lvl' ops' out' rest' Hl' Hs.
      destruct (IHa Ha 2%nat (("AND" :: bexpr_tokens 3 b) ++ rest') ops' out')
        as [pa [Xa [Hpa [HXa Ha']]]];
        [lia|right; by eapply seg_below_mono; [|exact Hs]; lia|].
      rewrite <- app_assoc, Ha', <- app_comm_cons, rpn_step_and.
      rewrite pop_ops_pend.
      2:{ eapply Forall_impl; [exact Hpa|]. intros o [q [Hq Hq2]].
          exists q. split; [done|]. by apply Nat.leb_le. }
      rewrite pop_ops_stop.
      2:{ apply (seg_below_top lvl'); [done|]. intros q Hq. apply Nat.leb_gt. lia. }
      cbv iota.
      destruct (IHb Hb 3%nat rest' ("AND" :: ops') ((out' ++ Xa) ++ map Uni pa))
        as [pb [Xb [Hpb [HXb Hb']]]]; [lia|by left|].
      rewrite Hb'. exists (pb ++ ["AND"]), ((Xa ++ map Uni pa) ++ Xb). split_and!.
      - apply Forall_app. split; [by eapply pend_ok_mono; [|exact Hpb]; lia|].
        constructor; [|constructor]. exists 2%nat. split; [done|lia].
      - cbn [bexpr_postfix]. rewrite map_app, HXa, <- HXb. cbn [map].
        by rewrite <- !app_assoc.
      - by rewrite <- !app_assoc. }
    cbn [bexpr_tokens]. unfold paren_if.
    destruct (Nat.ltb_spec 2 lvl) as [Hlt|Hge].
    + exists [], (bexpr_postfix (BAnd a b)). split_and!; [constructor|by rewrite app_nil_r|].
      change ([] ++ ops) with ops. apply rpn_paren.
      destruct (Hin 2%nat ("(" :: ops) out (")" :: rest)) as [pend [X [Hp [HX Heq]]]];
        [lia|by left|].
      exists pend, X. split_and!; [by eapply pend_ok_mono; [|exact Hp]; lia|done|].
      exact Heq.
    + apply Hin; [lia|]. destruct Hc as [->|Hc]; [lia|done].
  - (* OR *)
    destruct Hok as [Ha Hb].
    assert (Hin : forall ops' out' rest', seg_below 1 ops' ->
      exists pend X, pend_ok 1 pend /\ X ++ map Uni pend = bexpr_postfix (BOr a b) /\
        to_rpn_loop ((bexpr_tokens 1 a ++ "OR" :: bexpr_tokens 2 b) ++ rest') ops' out' =
        to_rpn_loop rest' (pend ++ ops') (out' ++ X)).
    { intros ops' out' rest' Hs.
      destruct (IHa Ha 1%nat (("OR" :: bexpr_tokens 2 b) ++ rest') ops' out')
        as [pa [Xa [Hpa [HXa Ha']]]]; [lia|by right|].
      rewrite <- app_assoc, Ha', <- app_comm_cons, rpn_step_or.
      rewrite pop_ops_pend.
      2:{ eapply Forall_impl; [exact Hpa|]. intros o [q [Hq Hq2]].
          exists q. split; [done|]. by apply Nat.leb_le. }
      rewrite pop_ops_stop.
      2:{ apply (seg_below_top 1); [done|]. intros q Hq. apply Nat.leb_gt. lia. }
      cbv iota.
      destruct (IHb Hb 2%nat rest' ("OR" :: ops') ((out' ++ Xa) ++ map Uni pa))
        as [pb [Xb [Hpb [HXb Hb']]]];
        [lia|right; right; exists 1%nat; split_and!; [done|lia|];
             by eapply seg_below_mono; [|exact Hs]; lia|].
      rewrite Hb'. exists (pb ++ ["OR"]), ((Xa ++ map Uni pa) ++ Xb). split_and!.
      - apply Forall_app. split; [by eapply pend_ok_mono; [|exact Hpb]; lia|].
        constructor; [|constructor]. exists 1%nat. split; [done|lia].
      - cbn [bexpr_postfix]. rewrite map_app, HXa, <- HXb. cbn [map].
        by rewrite <- !app_assoc.
      - by rewrite <- !app_assoc. }
    cbn [bexpr_tokens]. unfold paren_if.
    destruct (Nat.ltb_spec 1 lvl) as [Hlt|Hge].
    + exists [], (bexpr_postfix (BOr a b)). split_and!; [constructor|by rewrite app_nil_r|].
      change ([] ++ ops) with ops. apply rpn_paren.
      destruct (Hin ("(" :: ops) out (")" :: rest)) as [pend [X [Hp [HX Heq]]]];
        [by left|].
      exists pend, X. split_and!; [done|done|].
      exact Heq.
    + assert (lvl = 1%nat) as -> by lia.
      apply Hin. destruct Hc as [?|Hc]; [lia|done].
Qed.

Lemma to_rpn_bexpr_tokens e : bexpr_atoms_ok e ->
  to_rpn (bexpr_tokens 1 e) = Ok (bexpr_postfix e).
Proof.
  intros Hok. unfold to_rpn.
  destruct (to_rpn_bexpr e Hok 1%nat [] [] []) as [pend [X [Hp [HX Heq]]]];
    [lia|by right|].
  rewrite app_nil_r in Heq. rewrite Heq, app_nil_r. simpl.
  rewrite flush_ops_pend by (by eapply pend_ok_prec). by rewrite HX.
Qed.

Lemma eval_rpn_bexpr pkg U e : bexpr_atoms_ok e -> forall rest stack,
  eval_rpn_loop pkg U (bexpr_postfix e ++ rest) stack =
  eval_rpn_loop pkg U rest (bexpr_denote pkg U e :: stack).
Proof.
  induction e as [w|e IH|a IHa b IHb|a IHa b IHb]; intros Hok rest stack.
  - destruct (lower_word_facts w Hok) as [_ [_ [_ [_ [H5 H6]]]]].
    cbn [bexpr_postfix app eval_rpn_loop].
    assert (Hop : forall o, is_op_or_paren o = true -> Uni w <> Uni o).
    { intros o Ho [= <-]. by rewrite H5 in Ho. }
    rewrite !decide_False by (apply Hop; done).
    unfold postings_for_key. rewrite decide_False by (intros [= ?]; done). done.
  - cbn [bexpr_postfix]. rewrite <- app_assoc, IH by done.
    cbn [app eval_rpn_loop]. by rewrite decide_True.
  - destruct Hok as [Ha Hb]. cbn [bexpr_postfix]. rewrite <- !app_assoc, IHa, IHb by done.
    cbn [app eval_rpn_loop]. rewrite decide_False by done. by rewrite decide_True.
  - destruct Hok as [Ha Hb]. cbn [bexpr_postfix]. rewrite <- !app_assoc, IHa, IHb by done.
    cbn [app eval_rpn_loop]. rewrite !decide_False by done. by rewrite decide_True.
Qed.

(** ** The tokenizer on a printed expression *)

Definition good_tok (t : string) : bool :=
  String.eqb t "(" || String.eqb t ")" || String.eqb t "AND" || String.eqb t "OR" ||
  String.eqb t "NOT" || is_lower_word t.

Fixpoint join_l (ts : list string) : list ascii :=
  match ts with
  | [] => []
  | [t] => list_ascii_of_string t
  | t :: ts' => list_ascii_of_string t ++ " "%char :: join_l ts'
  end.

Lemma list_ascii_of_string_append s1 s2 :
  list_ascii_of_string (String.append s1 s2) = list_ascii_of_string s1 ++ list_ascii_of_string s2.
Proof. induction s1 as [|c s1 IH]; simpl; [done|by rewrite IH]. Qed.

Lemma join_concat ts : list_ascii_of_string (String.concat " " ts) = join_l ts.
Proof.
  induction ts as [|t ts IH]; [done|]. destruct ts as [|t' ts]; [done|].
  change (String.concat " " (t :: t' :: ts)) with
    (String.append t (String.append " " (String.concat " " (t' :: ts)))).
  rewrite !list_ascii_of_string_append, IH. done.
Qed.

Definition rest_ok (r : list ascii) : Prop := r = [] \/ exists r', r = " "%char :: r'.

Definition prev_ok (p : option ascii) : Prop :=
  match p with None => True | Some c => is_word c = false end.

Lemma kw_match_lower prev a s c l :
  is_lower_alnum c = true -> is_lower_alnum a = false ->
  kw_match prev (list_ascii_of_string (String a s)) (c :: l) = None.
Proof.
  intros Hc Ha.
  assert (Hs : strip_prefix (list_ascii_of_string (String a s)) (c :: l) = None).
  { simpl. destruct (Ascii.eqb_spec a c) as [->|]; [congruence|done]. }
  unfold kw_match. destruct prev as [p|]; [destruct (is_word p)|]; by rewrite ?Hs.
Qed.

Lemma lower_not_space c : is_lower_alnum c = true -> is_space c = false.
Proof.
  unfold is_lower_alnum, is_space. intros H.
  apply not_true_iff_false. intros Hs.
  rewrite !orb_true_iff, !andb_true_iff, !Nat.leb_le in H, Hs. lia.
Qed.

Lemma lower_not_paren c : is_lower_alnum c = true -> is_paren c = false.
Proof.
  intros Hc. unfold is_paren.
  destruct (Ascii.eqb_spec c "("), (Ascii.eqb_spec c ")"); subst; try done.
Qed.

Lemma span_word_lower w r : w <> [] -> Forall (fun c => is_lower_alnum c = true) w ->
  rest_ok r -> span_word (w ++ r) = (w, r).
Proof.
  intros _ Hw Hr. induction Hw as [|c w Hc Hw IH]; simpl.
  - destruct Hr as [->|[r' ->]]; done.
  - rewrite lower_not_paren, lower_not_space by done. simpl. by rewrite IH.
Qed.

Lemma lower_word_chars w : is_lower_word w = true ->
  exists c cs, list_ascii_of_string w = c :: cs /\ is_lower_alnum c = true /\
               Forall (fun c => is_lower_alnum c = true) (c :: cs).
Proof.
  unfold is_lower_word. intros H. apply andb_prop in H as [Hne H].
  destruct w as [|c w']; [done|]. exists c, (list_ascii_of_string w').
  pose proof (proj1 (forallb_forall _ _) H) as H'. simpl in H'.
  split_and!; [done| |].
  - apply H'. by left.
  - apply Forall_forall. intros x Hx. apply H'. change (In x (c :: list_ascii_of_string w')). by apply list_elem_of_In.
Qed.

Lemma findall_token_step f prev t r :
  good_tok t = true -> prev_ok prev -> rest_ok r ->
  exists p', findall_tokens (S f) prev (list_ascii_of_string t ++ r) = t :: findall_tokens f p' r.
Proof.
  intros Ht Hp Hr. unfold good_tok in Ht.
  rewrite !orb_true_iff, !String.eqb_eq in Ht.
  destruct Ht as [[[[[->| ->]| ->]| ->]| ->]|Hw].
  - by exists (Some "("%char).
  - by exists (Some ")"%char).
  - exists (Some "D"%char). destruct prev as [p|]; [simpl in Hp|clear Hp];
      destruct Hr as [->|[r' ->]]; simpl; try rewrite Hp; done.
  - exists (Some "R"%char). destruct prev as [p|]; [simpl in Hp|clear Hp];
      destruct Hr as [->|[r' ->]]; simpl; try rewrite Hp; done.
  - exists (Some "T"%char). destruct prev as [p|]; [simpl in Hp|clear Hp];
      destruct Hr as [->|[r' ->]]; simpl; try rewrite Hp; done.
  - destruct (lower_word_chars t Hw) as [c [cs [Hl [Hc Hall]]]].
    rewrite Hl. cbn [app findall_tokens].
    assert (Hdq : Ascii.eqb c dq = false).
    { destruct (Ascii.eqb_spec c dq) as [->|]; [discriminate Hc|done]. }
    assert (Hpar : Ascii.eqb c "(" = false /\ Ascii.eqb c ")" = false).
    { pose proof (lower_not_paren c Hc) as Hn. unfold is_paren in Hn.
      apply orb_false_iff in Hn. done. }
    destruct Hpar as [Hp1 Hp2].
    rewrite Hdq, Hp1, Hp2.
    rewrite !(kw_match_lower _ _ _ c) by done.
    rewrite lower_not_space by done.
    assert (Hs : span_word (c :: cs ++ r) = (c :: cs, r))
      by exact (span_word_lower (c :: cs) r ltac:(done) Hall Hr).
    rewrite Hs.
    eexists. f_equal. rewrite <- Hl. apply string_of_list_ascii_of_string.
Qed.

Lemma findall_space f p r :
  findall_tokens (S f) p (" "%char :: r) = findall_tokens f (Some " "%char) r.
Proof. destruct p as [p|]; simpl; [destruct (is_word p)|]; reflexivity. Qed.

Lemma good_tok_nonempty t : good_tok t = true -> list_ascii_of_string t <> [].
Proof.
  unfold good_tok. rewrite !orb_true_iff, !String.eqb_eq.
  intros [[[[[->| ->]| ->]| ->]| ->]|Hw]; try done.
  destruct (lower_word_chars t Hw) as [c [cs [-> _]]]. done.
Qed.

Lemma findall_join ts : forall f prev, Forall (fun t => good_tok t = true) ts ->
  prev_ok prev -> (length (join_l ts) < f)%nat -> findall_tokens f prev (join_l ts) = ts.
Proof.
  induction ts as [|t ts IH]; intros f prev Hall Hp Hf.
  - destruct f; [simpl in Hf; lia|done].
  - apply Forall_cons in Hall as [Ht Hall].
    pose proof (good_tok_nonempty t Ht) as Hne.
    destruct ts as [|t' ts].
    + cbn [join_l] in *. destruct f as [|f]; [lia|].
      rewrite <- (app_nil_r (list_ascii_of_string t)).
      destruct (findall_token_step f prev t [] Ht Hp) as [p' ->]; [by left|].
      destruct f; done.
    + change (join_l (t :: t' :: ts)) with
        (list_ascii_of_string t ++ " "%char :: join_l (t' :: ts)) in *.
      destruct f as [|f]; [lia|].
      destruct (findall_token_step f prev t (" "%char :: join_l (t' :: ts)) Ht Hp)
        as [p' ->]; [right; by eexists|].
      f_equal. rewrite length_app in Hf. cbn [length] in Hf.
      destruct (list_ascii_of_string t) as [|c0 l0]; [done|]. cbn [length] in Hf.
      destruct f as [|f]; [lia|]. rewrite findall_space.
      apply IH; [done|done|lia].
Qed.

Lemma good_tokens e lvl : bexpr_atoms_ok e ->
  Forall (fun t => good_tok t = true) (bexpr_tokens lvl e).
Proof.
  revert lvl. induction e as [w|e IH|a IHa b IHb|a IHa b IHb]; intros lvl Hok;
    cbn [bexpr_tokens bexpr_atoms_ok] in *.
  - apply Forall_cons_2; [|apply Forall_nil_2].
    unfold good_tok. rewrite Hok. by rewrite !orb_true_r.
  - apply Forall_cons_2; [done|]. by apply IH.
  - destruct Hok as [Ha Hb]. unfold paren_if. destruct (2 <? lvl)%nat;
      repeat first [apply Forall_app_2 | apply Forall_cons_2 | apply Forall_nil_2 | done
                   | by apply IHa | by apply IHb].
  - destruct Hok as [Ha Hb]. unfold paren_if. destruct (1 <? lvl)%nat;
      repeat first [apply Forall_app_2 | apply Forall_cons_2 | apply Forall_nil_2 | done
                   | by apply IHa | by apply IHb].
Qed.

Lemma tokenize_render e : bexpr_atoms_ok e -> tokenize (render_bexpr e) = bexpr_tokens 1 e.
Proof.
  intros Hok. unfold tokenize, render_bexpr. rewrite join_concat.
  apply findall_join; [by apply good_tokens|done|lia].
Qed.

(** ** The universe of a printed expression *)

Lemma atoms_ok_forall e : bexpr_atoms_ok e ->
  Forall (fun w => is_lower_word w = true) (bexpr_atoms e).
Proof.
  induction e as [w|e IH|a IHa b IHb|a IHa b IHb]; cbn [bexpr_atoms bexpr_atoms_ok];
    intros Hok.
  - by apply Forall_singleton.
  - by apply IH.
  - destruct Hok. apply Forall_app_2; auto.
  - destruct Hok. apply Forall_app_2; auto.
Qed.

Lemma paren_if_elem b L t : t ∈ paren_if b L -> t = "(" \/ t = ")" \/ t ∈ L.
Proof.
  unfold paren_if. destruct b; [|by right; right].
  rewrite elem_of_cons, elem_of_app, list_elem_of_singleton. naive_solver.
Qed.

Lemma paren_if_elem_2 b L t : t ∈ L -> t ∈ paren_if b L.
Proof.
  unfold paren_if. destruct b; [|done]. intros Ht.
  apply elem_of_cons. right. apply elem_of_app. by left.
Qed.

Lemma tokens_atoms e lvl t : t ∈ bexpr_tokens lvl e ->
  is_op_or_paren t = true \/ t ∈ bexpr_atoms e.
Proof.
  revert lvl. induction e as [w|e IH|a IHa b IHb|a IHa b IHb]; intros lvl;
    cbn [bexpr_tokens bexpr_atoms].
  - intros Ht. by right.
  - rewrite elem_of_cons. intros [->|Ht]; [by left|by eapply IH].
  - intros Ht. apply paren_if_elem in Ht as [->|[->|Ht]]; [by left|by left|].
    apply elem_of_app in Ht as [Ht|Ht]; [|apply elem_of_cons in Ht as [->|Ht]];
      [|by left|].
    + destruct (IHa _ Ht); [by left|right; apply elem_of_app; by left].
    + destruct (IHb _ Ht); [by left|right; apply elem_of_app; by right].
  - intros Ht. apply paren_if_elem in Ht as [->|[->|Ht]]; [by left|by left|].
    apply elem_of_app in Ht as [Ht|Ht]; [|apply elem_of_cons in Ht as [->|Ht]];
      [|by left|].
    + destruct (IHa _ Ht); [by left|right; apply elem_of_app; by left].
    + destruct (IHb _ Ht); [by left|right; apply elem_of_app; by right].
Qed.

Lemma atoms_tokens e lvl w : w ∈ bexpr_atoms e -> w ∈ bexpr_tokens lvl e.
Proof.
  revert lvl. induction e as [v|e IH|a IHa b IHb|a IHa b IHb]; intros lvl;
    cbn [bexpr_tokens bexpr_atoms].
  - done.
  - intros Hw. apply elem_of_cons. right. by eapply IH.
  - rewrite elem_of_app. intros Hw. apply paren_if_elem_2, elem_of_app.
    destruct Hw as [Hw|Hw]; [left; by apply IHa|right; apply elem_of_cons; right; by apply IHb].
  - rewrite elem_of_app. intros Hw. apply paren_if_elem_2, elem_of_app.
    destruct Hw as [Hw|Hw]; [left; by apply IHa|right; apply elem_of_cons; right; by apply IHb].
Qed.

Lemma bexpr_universe_spec pkg e d :
  d ∈ bexpr_universe pkg e <->
  exists w, w ∈ bexpr_atoms e /\ d ∈ (list_to_set (get_posting_list pkg (Uni w)) : gset Z).
Proof.
  unfold bexpr_universe. induction (bexpr_atoms e) as [|w ws IH]; simpl.
  - split; [set_solver|]. intros [w [Hw _]]. by apply elem_of_nil in Hw.
  - rewrite elem_of_union, IH. setoid_rewrite elem_of_cons. naive_solver.
Qed.

Lemma collect_universe_render pkg e : bexpr_atoms_ok e ->
  collect_universe pkg (tokenize (render_bexpr e)) = bexpr_universe pkg e.
Proof.
  intros Hok. rewrite tokenize_render by done.
  pose proof (atoms_ok_forall e Hok) as Hall.
  apply leibniz_equiv, set_equiv. intros d.
  rewrite collect_universe_spec, bexpr_universe_spec. split.
  - intros [t [Ht [Hop Hd]]].
    destruct (tokens_atoms e 1 t Ht) as [Hc|Ha]; [congruence|].
    rewrite Forall_forall in Hall. specialize (Hall t Ha).
    destruct (lower_word_facts t Hall) as [_ [_ [_ [Hk [_ Hne]]]]].
    exists t. split; [done|]. unfold postings_for_key in Hd.
    rewrite Hk, decide_False in Hd by (intros [= ?]; done). done.
  - intros [w [Hw Hd]]. rewrite Forall_forall in Hall. specialize (Hall w Hw).
    destruct (lower_word_facts w Hall) as [_ [_ [_ [Hk [Hop Hne]]]]].
    exists w. split_and!; [by apply atoms_tokens|done|].
    unfold postings_for_key. rewrite Hk, decide_False by (intros [= ?]; done). done.
Qed.

(** ** Wildcard grams that straddle a star *)

Definition reading_pkg : package :=
  pkg_of (create_all_indexes [["reading"; "books"]]%string (Some [10])).

(** ** [query_processing/proximity.py] *)

Definition is_digit (c : ascii) : bool :=
  let n := nat_of_ascii c in ((48 <=? n) && (n <=? 57))%nat.

(** The maximal run of digits ([\d+] is greedy). *)
Fixpoint span_digits (l : list ascii) : list ascii * list ascii :=
  match l with
  | c :: l' => if is_digit c then let '(ds, r) := span_digits l' in (c :: ds, r) else ([], l)
  | [] => ([], [])
  end.

(** [int(m.group(1))] *)
Definition digits_val (ds : list ascii) : nat :=
  fold_left (fun acc c => acc * 10 + (nat_of_ascii c - 48))%nat ds 0%nat.

Definition near_kw : list ascii := list_ascii_of_string "NEAR/".

(** [\bNEAR/(\d+)\b] matched at the current position, [prev] being the
    character before it; the digits and the text after the match. If a
    word character follows the longest run of digits, no shorter run ends
    on a word boundary either. *)
Definition near_at (prev : option ascii) (l : list ascii) : option (list ascii * list ascii) :=
  if match prev with Some p => is_word p | None => false end then None else
  match strip_prefix near_kw l with
  | Some r =>
      let '(ds, r') := span_digits r in
      match ds with
      | [] => None
      | _ => match r' with
             | c :: _ => if is_word c then None else Some (ds, r')
             | [] => Some (ds, r')
             end
      end
  | None => None
  end.

(** [_NEAR_RE.search(query)]: the text before the first match, its digits,
    and the text after it ([before] is kept reversed). *)
Fixpoint near_search (prev : option ascii) (before : list ascii) (l : list ascii)
  : option (list ascii * list ascii * list ascii) :=
  match near_at prev l with
  | Some (ds, r) => Some (rev before, ds, r)
  | None => match l with
            | [] => None
            | c :: l' => near_search (Some c) (c :: before) l'
            end
  end.

(** [_parse_near]; [k] is a natural number, so the [k < 0] branch is dead. *)
Definition parse_near (query : string) : result (string * nat * string) :=
  match near_search None [] (list_ascii_of_string query) with
  | None => Err "Malformed NEAR/k: missing or non-strict NEAR/<int>"
  | Some (before, ds, after) =>
      let k := digits_val ds in
      let left_str := strip (string_of_list_ascii before) in
      let right_str := strip (string_of_list_ascii after) in
      if String.eqb left_str EmptyString || String.eqb right_str EmptyString
      then Err "Malformed NEAR/k: missing left or right operand"
      else Ok (left_str, k, right_str)
  end.

(** [_as_key] of [proximity.py]. *)
Definition prox_as_key (operand : string) : tokgram :=
  if str_startswith dq operand && str_endswith dq operand then
    match split_ws (strip (drop_ends operand)) with
    | [t] => Uni t
    | toks => Tup toks
    end
  else Uni operand.

Definition span_positions (pkg : package) (key : tokgram) (doc_id : Z) : list (Z * Z) :=
  match key with
  | Tup ws =>
      let m := Z.of_nat (length ws) in
      map (fun s => (s, s + m - 1)) (get_term_positions pkg key doc_id)
  | Uni _ => map (fun p => (p, p)) (get_term_positions pkg key doc_id)
  end.

Definition edge_distance (a b : Z * Z) : Z :=
  let '(as_, ae) := a in
  let '(bs_, be) := b in
  if negb ((ae <? bs_) || (be <? as_)) then 0
  else Z.min (Z.abs (bs_ - ae)) (Z.abs (as_ - be)).

(** The double loop over span pairs, identical pairs skipped. *)
Definition doc_hit (pkg : package) (lk rk : tokgram) (k : nat) (did : Z) : bool :=
  existsb (fun a =>
    existsb (fun b => if decide (a = b) then false else (edge_distance a b <=? Z.of_nat k))
            (span_positions pkg rk did))
    (span_positions pkg lk did).

Definition process_proximity_query (pkg : package) (query : string) : result (gset Z) :=
  match parse_near query with
  | Err e => Err e
  | Ok (left_str, k, right_str) =>
      let lk := prox_as_key left_str in
      let rk := prox_as_key right_str in
      let candidates : gset Z :=
        list_to_set (get_posting_list pkg lk) ∩ list_to_set (get_posting_list pkg rk) in
      Ok (filter (fun did => doc_hit pkg lk rk k did = true) candidates)
  end.

(** ** [query_processing/detection.py] *)

Definition has_unmatched_quotes (s : string) : bool :=
  Nat.odd (count_occ Ascii.ascii_dec (list_ascii_of_string s) dq).

Fixpoint balanced_go (c : Z) (l : list ascii) : bool :=
  match l with
  | [] => Z.eqb c 0
  | ch :: l' =>
      if Ascii.eqb ch "(" then balanced_go (c + 1) l'
      else if Ascii.eqb ch ")" then (if c - 1 <? 0 then false else balanced_go (c - 1) l')
      else balanced_go c l'
  end.

Definition balanced_parens (s : string) : bool := balanced_go 0 (list_ascii_of_string s).

(** The numbers of opening and closing parentheses in a text. *)
Definition opens (l : list ascii) : nat := count_occ Ascii.ascii_dec l "("%char.
Definition closes (l : list ascii) : nat := count_occ Ascii.ascii_dec l ")"%char.

Definition phrase_bad (inner : list ascii) : bool :=
  let inside := strip (string_of_list_ascii inner) in
  String.eqb inside EmptyString || (3 <? length (split_ws inside))%nat.

(** [_RE_QUOTES.finditer] scanned left to right: [None] outside a match,
    [Some acc] inside one, with the text since the opening quote in [acc]
    (reversed). A quote with no closing quote after it starts no match. *)
Fixpoint bad_phrase_go (st : option (list ascii)) (l : list ascii) : bool :=
  match l with
  | [] => false
  | c :: l' =>
      match st with
      | None => if Ascii.eqb c dq then bad_phrase_go (Some []) l' else bad_phrase_go None l'
      | Some acc =>
          if Ascii.eqb c dq then phrase_bad (rev acc) || bad_phrase_go None l'
          else bad_phrase_go (Some (c :: acc)) l'
      end
  end.

Definition bad_phrase_lengths (s : string) : bool := bad_phrase_go None (list_ascii_of_string s).

Definition is_upper (c : ascii) : bool :=
  let n := nat_of_ascii c in ((65 <=? n) && (n <=? 90))%nat.

(** [_RE_UPPER_OPLIKE.fullmatch(t)]: two or more capital letters. *)
Definition upper_oplike (t : string) : bool :=
  (2 <=? String.length t)%nat && forallb is_upper (list_ascii_of_string t).

Definition is_bool_kw (t : string) : bool :=
  String.eqb t "AND" || String.eqb t "OR" || String.eqb t "NOT".

Definition unknown_op_token (query : string) : bool :=
  existsb (fun t => upper_oplike t && negb (is_bool_kw t) && negb (String.prefix "NEAR/" t))
          (split_ws (strip query)).

(** [p in s] *)
Fixpoint contains_l (p l : list ascii) : bool :=
  match strip_prefix p l with
  | Some _ => true
  | None => match l with [] => false | _ :: l' => contains_l p l' end
  end.

Definition str_contains (p s : string) : bool :=
  contains_l (list_ascii_of_string p) (list_ascii_of_string s).

(** [bool(m)] for an optional match. *)
Definition matched {A} (o : option A) : bool := match o with Some _ => true | None => false end.

(** [_RE_BOOL_OP.search(query)] *)
Fixpoint bool_op_search (prev : option ascii) (l : list ascii) : bool :=
  match l with
  | [] => false
  | c :: l' =>
      matched (kw_match prev (list_ascii_of_string "AND") l) ||
      matched (kw_match prev (list_ascii_of_string "OR") l) ||
      matched (kw_match prev (list_ascii_of_string "NOT") l) ||
      bool_op_search (Some c) l'
  end.

(** [_RE_NEAR.finditer(query)] for [NEAR/(\d+)]: for each match, the text
    before it and the text after it. [skip] counts the characters of the
    current match still to be passed over (matches do not overlap). *)
Fixpoint near_finditer (skip : nat) (before : list ascii) (l : list ascii)
  : list (list ascii * list ascii) :=
  match l with
  | [] => []
  | c :: l' =>
      match skip with
      | S s => near_finditer s (c :: before) l'
      | O =>
          match (match strip_prefix near_kw l with
                 | Some r => let '(ds, r') := span_digits r in
                             match ds with [] => None | _ => Some (ds, r') end
                 | None => None
                 end) with
          | Some (ds, r') => (rev before, r') :: near_finditer (4 + length ds) (c :: before) l'
          | None => near_finditer O (c :: before) l'
          end
      end
  end.

Definition near_plain_matches (s : string) : list (list ascii * list ascii) :=
  near_finditer O [] (list_ascii_of_string s).

Definition has_mixed_types (query : string) : bool :=
  let l := list_ascii_of_string query in
  let has_star := str_has "*" query in
  let has_near := negb (match near_plain_matches query with [] => true | _ => false end)
                  || str_contains "NEAR" query in
  let has_bool_ops := bool_op_search None l in
  let has_quotes := str_has dq query in
  if has_star && (has_near || has_bool_ops || has_quotes) then true
  else if has_near && has_bool_ops then true
  else false.

(** [_invalid_near]; [int] of a run of ASCII digits never fails and is
    never negative. *)
Definition invalid_near (query : string) : bool :=
  let ms := near_plain_matches query in
  if str_contains "NEAR" query && (match ms with [] => true | _ => false end) then true
  else match ms with
       | [] => false
       | [(before, after)] =>
           String.eqb (strip (string_of_list_ascii before)) EmptyString ||
           String.eqb (strip (string_of_list_ascii after)) EmptyString
       | _ => true
       end.

Definition invalid_wildcard (query : string) : bool :=
  if negb (str_has "*" query) then false
  else if str_has dq query then true
  else if existsb is_space (list_ascii_of_string query) then true
  else forallb (fun c => Ascii.eqb c "*") (list_ascii_of_string query).

Definition is_op3 (t : string) : bool := is_bool_kw t.
Definition is_op2 (t : string) : bool := String.eqb t "AND" || String.eqb t "OR".

Fixpoint adjacent_bad (toks : list string) : bool :=
  match toks with
  | a :: ((b :: _) as rest) =>
      (is_op2 a && is_op2 b) || (String.eqb a "NOT" && is_op3 b) || adjacent_bad rest
  | _ => false
  end.

Definition invalid_boolean_structure (query : string) : bool :=
  if has_unmatched_quotes query then true
  else if negb (balanced_parens query) then true
  else if bad_phrase_lengths query then true
  else
    let toks := split_ws (strip query) in
    match toks with
    | [] => false
    | t0 :: _ =>
        existsb (fun t => upper_oplike t && negb (is_bool_kw t)) toks ||
        is_op3 (List.last toks t0) || is_op2 t0 || adjacent_bad toks
    end.

Definition detect_query_type (query : string) : result string :=
  if has_unmatched_quotes query then Err "Unmatched quotes"
  else if negb (balanced_parens query) then Err "Unbalanced parentheses"
  else if bad_phrase_lengths query then Err "Phrases exceed max length 3 or empty phrase"
  else if unknown_op_token query then Err "Unknown operator token"
  else if has_mixed_types query
  then Err "Mixed query types (wildcard/boolean/proximity) are not supported"
  else if str_contains "NEAR" query ||
          negb (match near_plain_matches query with [] => true | _ => false end) then
    if invalid_near query then Err "Malformed NEAR/k" else Ok "proximity"
  else if str_has "*" query then
    if invalid_wildcard query then Err "Malformed wildcard query" else Ok "wildcard"
  else if bool_op_search None (list_ascii_of_string query) || str_has dq query then
    if invalid_boolean_structure query then Err "Malformed boolean query" else Ok "boolean"
  else Ok "natural_language".

(** ** [query_processing/query_process.py] *)

(** The body of [convert_natural_language] is [pass]: it returns [None]. *)
Definition convert_natural_language (nl_query : string) : option string := None.

(** [process_query]; a falsy [boolean_query] ([None] or the empty string)
    gives the empty set. *)
Definition process_query (pkg : package) (query : string) : result (gset Z) :=
  match detect_query_type query with
  | Err e => Err e
  | Ok qtype =>
      if String.eqb qtype "boolean" then process_boolean_query pkg query
      else if String.eqb qtype "wildcard" then Ok (process_wildcard_query pkg query)
      else if String.eqb qtype "proximity" then process_proximity_query pkg query
      else match convert_natural_language query with
           | Some bq => if String.eqb bq EmptyString then Ok ∅ else process_boolean_query pkg bq
           | None => Ok ∅
           end
  end.

Definition qstr (s : string) : string := String dq (s ++ String dq EmptyString).

Example detection_examples :
  detect_query_type "climate AND change" = Ok "boolean" /\
  detect_query_type (qstr "machine learning") = Ok "boolean" /\
  detect_query_type "(climate OR policy) AND NOT change" = Ok "boolean" /\
  detect_query_type "climat*" = Ok "wildcard" /\
  detect_query_type "*tion" = Ok "wildcard" /\
  detect_query_type "learn*ing" = Ok "wildcard" /\
  detect_query_type "climate NEAR/1 change" = Ok "proximity" /\
  detect_query_type (qstr "machine learning" ++ " NEAR/2 algorithms") = Ok "proximity" /\
  detect_query_type "climate change effects" = Ok "natural_language".
Proof. split_and!; vm_compute; reflexivity. Qed.

Example detection_malformed :
  (exists r, detect_query_type (String dq "unmatched") = Err r) /\
  (exists r, detect_query_type "climat* AND change" = Err r) /\
  (exists r, detect_query_type "A XOR B" = Err r) /\
  (exists r, detect_query_type "climate NEAR / 2 change" = Err r) /\
  (exists r, detect_query_type "NEAR/2 change" = Err r).
Proof. split_and!; eexists; vm_compute; reflexivity. Qed.

Example proximity_examples :
  process_proximity_query test_pkg (qstr "machine learning" ++ " NEAR/2 algorithms") = Ok {[20]} /\
  process_proximity_query test_pkg ("change NEAR/0 " ++ qstr "climate change") = Ok {[10]} /\
  process_proximity_query test_pkg "climate NEAR/1 change" = Ok {[10]}.
Proof. split_and!; vm_compute; reflexivity. Qed.

(** The conversion the specification describes: the whitespace-split tokens
    joined with OR. *)
Definition convert_natural_language_spec (nl_query : string) : string :=
  String.concat " OR " (split_ws nl_query).

Lemma process_query_natural_language pkg query :
  detect_query_type query = Ok "natural_language" -> process_query pkg query = Ok ∅.
Proof. intros H. unfold process_query. by rewrite H. Qed.

(** The distance as the claim words it: 0 for overlapping spans (neither
    strictly before the other), otherwise the smaller of the gap from the
    right span's start to the left span's end and the gap from the left
    span's start to the right span's end. *)
Definition spans_overlap (a b : Z * Z) : Prop := ~ (a.2 < b.1) /\ ~ (b.2 < a.1).

Definition claim_distance (a b : Z * Z) : Z :=
  if decide (spans_overlap a b) then 0 else Z.min (Z.abs (b.1 - a.2)) (Z.abs (a.1 - b.2)).

Lemma edge_distance_claim a b : edge_distance a b = claim_distance a b.
Proof.
  destruct a as [as_ ae], b as [bs_ be]. unfold edge_distance, claim_distance, spans_overlap.
  cbn. destruct (Z.ltb_spec ae bs_), (Z.ltb_spec be as_); cbn; case_decide as Hd;
    first [reflexivity | (exfalso; destruct Hd; lia) | (exfalso; apply Hd; split; lia)].
Qed.

Definition change_near_query : string := "change NEAR/0 " ++ qstr "climate change".

(** ** Detection of mixed queries and of NEAR queries *)

Lemma has_mixed_types_spec q :
  ((str_has "*" q = true /\
    (near_plain_matches q <> [] \/ str_contains "NEAR" q = true \/
     bool_op_search None (list_ascii_of_string q) = true \/ str_has dq q = true)) \/
   (str_contains "NEAR" q = true /\ bool_op_search None (list_ascii_of_string q) = true)) ->
  has_mixed_types q = true.
Proof.
  unfold has_mixed_types.
  destruct (near_plain_matches q), (str_contains "NEAR" q),
    (bool_op_search None (list_ascii_of_string q)), (str_has dq q), (str_has "*" q);
    simpl; intuition congruence.
Qed.

(** Operands of a NEAR query: bare words and quoted phrases. *)
Inductive near_item : Type :=
| NWord (w : string)
| NPhrase (ws : list string).

Definition item_chars (it : near_item) : list ascii :=
  match it with
  | NWord w => list_ascii_of_string w
  | NPhrase ws => dq :: join_l ws ++ [dq]
  end.

Fixpoint operand_chars (its : list near_item) : list ascii :=
  match its with
  | [] => []
  | [it] => item_chars it
  | it :: its' => item_chars it ++ " "%char :: operand_chars its'
  end.

Definition item_ok (it : near_item) : Prop :=
  match it with
  | NWord w => is_lower_word w = true
  | NPhrase ws => (1 <= length ws <= 3)%nat /\ Forall (fun w => is_lower_word w = true) ws
  end.

(** [L NEAR/ds R] with single spaces around the operator. *)
Definition near_query (L : list near_item) (ds : list ascii) (R : list near_item) : string :=
  string_of_list_ascii (operand_chars L ++ " "%char :: near_kw ++ ds ++ " "%char :: operand_chars R).

Definition op_char (c : ascii) : bool :=
  is_lower_alnum c || Ascii.eqb c dq || Ascii.eqb c " ".

Lemma lower_word_all w : is_lower_word w = true ->
  Forall (fun c => is_lower_alnum c = true) (list_ascii_of_string w).
Proof.
  intros Hw. destruct (lower_word_chars w Hw) as [c [cs [Hl [_ Hall]]]]. by rewrite Hl.
Qed.

Lemma join_l_class ws : Forall (fun w => is_lower_word w = true) ws ->
  Forall (fun c => is_lower_alnum c || Ascii.eqb c " " = true) (join_l ws).
Proof.
  induction ws as [|w ws IH]; intros Hall; [constructor|].
  apply Forall_cons in Hall as [Hw Hall].
  assert (Hc : Forall (fun c => is_lower_alnum c || Ascii.eqb c " " = true) (list_ascii_of_string w)).
  { eapply Forall_impl; [exact (lower_word_all w Hw)|]. intros c Hc. by rewrite Hc. }
  destruct ws as [|w' ws]; [done|].
  change (join_l (w :: w' :: ws)) with (list_ascii_of_string w ++ " "%char :: join_l (w' :: ws)).
  apply Forall_app_2; [done|]. apply Forall_cons_2; [done|]. by apply IH.
Qed.

Lemma item_chars_class it : item_ok it -> Forall (fun c => op_char c = true) (item_chars it).
Proof.
  destruct it as [w|ws]; simpl; intros Hok.
  - eapply Forall_impl; [exact (lower_word_all w Hok)|]. intros c Hc. unfold op_char. by rewrite Hc.
  - destruct Hok as [_ Hall]. apply Forall_cons_2; [done|]. apply Forall_app_2.
    + eapply Forall_impl; [exact (join_l_class ws Hall)|]. intros c Hc. unfold op_char.
      apply orb_true_iff in Hc as [->| ->]; by rewrite ?orb_true_r.
    + apply Forall_singleton. done.
Qed.

Lemma operand_chars_class L : Forall item_ok L -> Forall (fun c => op_char c = true) (operand_chars L).
Proof.
  induction L as [|it L IH]; intros Hall; [constructor|].
  apply Forall_cons in Hall as [Hit Hall]. destruct L as [|it' L]; [by apply item_chars_class|].
  change (operand_chars (it :: it' :: L)) with (item_chars it ++ " "%char :: operand_chars (it' :: L)).
  apply Forall_app_2; [by apply item_chars_class|]. apply Forall_cons_2; [done|]. by apply IH.
Qed.

Lemma item_chars_first it : item_ok it ->
  exists c r, item_chars it = c :: r /\ is_space c = false.
Proof.
  destruct it as [w|ws]; simpl; intros Hok.
  - destruct (lower_word_chars w Hok) as [c [cs [Hl [Hc _]]]]. exists c, cs.
    split; [done|]. by apply lower_not_space.
  - by eexists _, _.
Qed.

Lemma operand_chars_first L : L <> [] -> Forall item_ok L ->
  exists c r, operand_chars L = c :: r /\ is_space c = false.
Proof.
  destruct L as [|it L]; [done|]. intros _ Hall. apply Forall_cons in Hall as [Hit _].
  destruct (item_chars_first it Hit) as [c [r [Hr Hc]]].
  destruct L as [|it' L]; [exists c, r; by split|].
  exists c, (r ++ " "%char :: operand_chars (it' :: L)). split; [|done].
  change (operand_chars (it :: it' :: L)) with (item_chars it ++ " "%char :: operand_chars (it' :: L)).
  by rewrite Hr.
Qed.

Lemma lower_word_last w : is_lower_word w = true ->
  exists y c, list_ascii_of_string w = y ++ [c] /\ is_space c = false.
Proof.
  intros Hw. pose proof (lower_word_all w Hw) as Hall.
  destruct (lower_word_chars w Hw) as [c0 [cs [Hl _]]].
  assert (Hne : list_ascii_of_string w <> []) by (rewrite Hl; done).
  destruct (exists_last Hne) as [y [c Hyc]].
  exists y, c. split; [done|]. rewrite Hyc in Hall. apply Forall_app in Hall as [_ Hc].
  apply lower_not_space. exact (Forall_inv Hc).
Qed.

Lemma join_l_last ws : ws <> [] -> Forall (fun w => is_lower_word w = true) ws ->
  exists y c, join_l ws = y ++ [c] /\ is_space c = false.
Proof.
  induction ws as [|w ws IH]; [done|]. intros _ Hall. apply Forall_cons in Hall as [Hw Hall].
  destruct ws as [|w' ws]; [by apply lower_word_last|].
  destruct IH as [y [c [Hy Hc]]]; [done|done|].
  exists (list_ascii_of_string w ++ " "%char :: y), c. split; [|done].
  change (join_l (w :: w' :: ws)) with (list_ascii_of_string w ++ " "%char :: join_l (w' :: ws)).
  rewrite Hy. by rewrite <- app_assoc.
Qed.

Lemma operand_chars_last L : L <> [] -> Forall item_ok L ->
  exists y c, operand_chars L = y ++ [c] /\ is_space c = false.
Proof.
  induction L as [|it L IH]; [done|]. intros _ Hall. apply Forall_cons in Hall as [Hit Hall].
  destruct L as [|it' L].
  - destruct it as [w|ws]; simpl in *.
    + by apply lower_word_last.
    + exists (dq :: join_l ws), dq. split; [done|reflexivity].
  - destruct IH as [y [c [Hy Hc]]]; [done|done|].
    exists (item_chars it ++ " "%char :: y), c. split; [|done].
    change (operand_chars (it :: it' :: L)) with (item_chars it ++ " "%char :: operand_chars (it' :: L)).
    rewrite Hy. by rewrite <- app_assoc.
Qed.

(** [s.strip()] leaves a text with non-blank ends unchanged, and gives the
    empty string only for a blank text. *)
Lemma strip_id l c y d :
  l = c :: y -> is_space c = false -> (exists z, l = z ++ [d]) -> is_space d = false ->
  strip (string_of_list_ascii l) = string_of_list_ascii l.
Proof.
  intros Hl Hc [z Hz] Hd. unfold strip. rewrite list_ascii_of_string_of_list_ascii.
  assert (H1 : lstrip_l l = l) by (rewrite Hl; simpl; by rewrite Hc).
  assert (H2 : lstrip_l (rev l) = rev l) by (rewrite Hz, rev_unit; simpl; by rewrite Hd).
  by rewrite H1, H2, rev_involutive.
Qed.

Lemma lstrip_nil l : lstrip_l l = [] -> Forall (fun c => is_space c = true) l.
Proof.
  induction l as [|c l IH]; simpl; [constructor|].
  destruct (is_space c) eqn:Hc; [intros H; constructor; auto|done].
Qed.

Lemma lstrip_head l c r : lstrip_l l = c :: r -> is_space c = false.
Proof.
  induction l as [|a l IH]; simpl; [done|].
  destruct (is_space a) eqn:Ha; [done|]. by intros [= <- _].
Qed.

Lemma strip_blank l : strip (string_of_list_ascii l) = EmptyString ->
  Forall (fun c => is_space c = true) l.
Proof.
  unfold strip. rewrite list_ascii_of_string_of_list_ascii. intros H.
  assert (H0 : rev (lstrip_l (rev (lstrip_l l))) = []).
  { destruct (rev (lstrip_l (rev (lstrip_l l)))); [done|discriminate]. }
  apply (f_equal (@rev ascii)) in H0. rewrite rev_involutive in H0.
  apply lstrip_nil in H0. apply Forall_rev in H0. rewrite rev_involutive in H0.
  destruct (lstrip_l l) as [|c r] eqn:Hs; [by apply lstrip_nil|].
  apply Forall_cons in H0 as [Hc _]. by rewrite (lstrip_head l c r Hs) in Hc.
Qed.

Lemma strip_not_blank l c : In c l -> is_space c = false ->
  String.eqb (strip (string_of_list_ascii l)) EmptyString = false.
Proof.
  intros Hin Hc. apply String.eqb_neq. intros Hs. apply strip_blank in Hs.
  rewrite Forall_forall in Hs. rewrite (Hs c) in Hc; [done|]. by apply list_elem_of_In.
Qed.

(** [str.split()] *)
Lemma split_ws_go_nospace cur x r : Forall (fun c => is_space c = false) x ->
  split_ws_go cur (x ++ r) = split_ws_go (rev x ++ cur) r.
Proof.
  revert cur. induction x as [|c x IH]; intros cur Hx; [done|].
  apply Forall_cons in Hx as [Hc Hx]. simpl. rewrite Hc, IH by done.
  by rewrite <- app_assoc.
Qed.

Lemma split_ws_go_sep cur x c r : is_space c = true ->
  split_ws_go cur (x ++ c :: r) = split_ws_go cur x ++ split_ws_go [] r.
Proof.
  revert cur. induction x as [|a x IH]; intros cur Hc; simpl.
  - rewrite Hc. by destruct cur.
  - destruct (is_space a); [destruct cur|]; rewrite IH by done; done.
Qed.

Lemma split_ws_go_class (P : ascii -> Prop) cur l :
  Forall P cur -> (forall c, In c l -> is_space c = false -> P c) ->
  Forall (fun t => Forall P (list_ascii_of_string t)) (split_ws_go cur l).
Proof.
  revert cur. induction l as [|c l IH]; intros cur Hcur Hl; simpl.
  - destruct cur; [constructor|]. apply Forall_singleton.
    rewrite list_ascii_of_string_of_list_ascii. by apply Forall_rev.
  - assert (Hl' : forall c', In c' l -> is_space c' = false -> P c')
      by (intros; apply Hl; [by right|done]).
    destruct (is_space c) eqn:Hc.
    + destruct cur; [by apply IH|]. apply Forall_cons_2; [|by apply IH].
      rewrite list_ascii_of_string_of_list_ascii. by apply Forall_rev.
    + apply IH; [|done]. apply Forall_cons_2; [apply Hl; [by left|done]|done].
Qed.

Lemma split_ws_go_flush x r : x <> [] ->
  split_ws_go (rev x) r =
  match r with
  | [] => [string_of_list_ascii x]
  | c :: r' => if is_space c then string_of_list_ascii x :: split_ws_go [] r'
               else split_ws_go (c :: rev x) r'
  end.
Proof.
  intros Hx.
  assert (E : rev x <> []).
  { intros E. apply Hx. apply (f_equal (@rev ascii)) in E. by rewrite rev_involutive in E. }
  destruct r as [|c r']; cbn [split_ws_go]; rewrite rev_involutive;
    [|destruct (is_space c)]; destruct (rev x); done.
Qed.

Lemma split_join ws : Forall (fun w => is_lower_word w = true) ws ->
  split_ws_go [] (join_l ws) = ws.
Proof.
  induction ws as [|w ws IH]; intros Hall; [done|].
  apply Forall_cons in Hall as [Hw Hall].
  assert (Hns : Forall (fun c => is_space c = false) (list_ascii_of_string w)).
  { eapply Forall_impl; [exact (lower_word_all w Hw)|]. intros c Hc. by apply lower_not_space. }
  destruct (lower_word_chars w Hw) as [c0 [cs [Hl _]]].
  assert (Hne : list_ascii_of_string w <> []) by (rewrite Hl; done).
  destruct ws as [|w' ws].
  - cbn [join_l]. rewrite <- (app_nil_r (list_ascii_of_string w)), split_ws_go_nospace by done.
    rewrite app_nil_r, split_ws_go_flush by done. by rewrite string_of_list_ascii_of_string.
  - change (join_l (w :: w' :: ws)) with (list_ascii_of_string w ++ " "%char :: join_l (w' :: ws)).
    rewrite split_ws_go_nospace by done. rewrite app_nil_r, split_ws_go_flush by done.
    cbv beta iota. change (is_space " "%char) with true. cbv beta iota.
    rewrite IH by done. by rewrite string_of_list_ascii_of_string.
Qed.

Lemma join_l_first ws : ws <> [] -> Forall (fun w => is_lower_word w = true) ws ->
  exists c r, join_l ws = c :: r /\ is_space c = false.
Proof.
  destruct ws as [|w ws]; [done|]. intros _ Hall. apply Forall_cons in Hall as [Hw _].
  destruct (lower_word_chars w Hw) as [c [cs [Hl [Hc _]]]].
  exists c. destruct ws as [|w' ws].
  - exists cs. cbn [join_l]. rewrite Hl. split; [done|]. by apply lower_not_space.
  - exists (cs ++ " "%char :: join_l (w' :: ws)).
    change (join_l (w :: w' :: ws)) with (list_ascii_of_string w ++ " "%char :: join_l (w' :: ws)).
    rewrite Hl. split; [done|]. by apply lower_not_space.
Qed.

(** Character classes met in a NEAR query. *)
Lemma op_char_facts c : op_char c = true ->
  is_upper c = false /\ Ascii.eqb c "*" = false /\ is_paren c = false.
Proof.
  destruct c as [[] [] [] [] [] [] [] []]; vm_compute; intros H;
    first [discriminate | split_and!; reflexivity].
Qed.

Lemma digit_facts c : is_digit c = true ->
  is_upper c = false /\ Ascii.eqb c "*" = false /\ is_paren c = false /\
  Ascii.eqb c dq = false /\ is_space c = false.
Proof.
  destruct c as [[] [] [] [] [] [] [] []]; vm_compute; intros H;
    first [discriminate | split_and!; reflexivity].
Qed.

Lemma lower_sp_not_dq c : is_lower_alnum c || Ascii.eqb c " " = true -> Ascii.eqb c dq = false.
Proof.
  destruct c as [[] [] [] [] [] [] [] []]; vm_compute; intros H;
    first [discriminate | reflexivity].
Qed.

Lemma near_query_chars L ds R :
  list_ascii_of_string (near_query L ds R) =
  operand_chars L ++ " "%char :: near_kw ++ ds ++ " "%char :: operand_chars R.
Proof. unfold near_query. by rewrite list_ascii_of_string_of_list_ascii. Qed.

Lemma near_query_Forall (P : ascii -> bool) L ds R :
  Forall item_ok L -> Forall item_ok R -> Forall (fun c => is_digit c = true) ds ->
  (forall c, op_char c = true -> P c = true) ->
  (forall c, is_digit c = true -> P c = true) ->
  Forall (fun c => P c = true) (" "%char :: near_kw) ->
  Forall (fun c => P c = true) (list_ascii_of_string (near_query L ds R)).
Proof.
  intros HL HR Hds Hop Hdg Hmid. rewrite near_query_chars.
  apply Forall_cons in Hmid as [Hsp Hkw].
  apply Forall_app_2; [eapply Forall_impl; [exact (operand_chars_class L HL)|done]|].
  apply Forall_cons_2; [done|]. apply Forall_app_2; [done|].
  apply Forall_app_2; [eapply Forall_impl; [exact Hds|done]|].
  apply Forall_cons_2; [done|]. eapply Forall_impl; [exact (operand_chars_class R HR)|done].
Qed.

(** Quotes *)
Lemma count_dq_none x : Forall (fun c => Ascii.eqb c dq = false) x ->
  count_occ ascii_dec x dq = 0%nat.
Proof.
  induction x as [|c x IH]; intros Hx; [done|]. apply Forall_cons in Hx as [Hc Hx].
  simpl. destruct (ascii_dec c dq) as [->|_]; [by rewrite Ascii.eqb_refl in Hc|]. by apply IH.
Qed.

Lemma join_l_no_dq ws : Forall (fun w => is_lower_word w = true) ws ->
  Forall (fun c => Ascii.eqb c dq = false) (join_l ws).
Proof.
  intros Hall. eapply Forall_impl; [exact (join_l_class ws Hall)|]. intros c. apply lower_sp_not_dq.
Qed.

Lemma count_dq_item it : item_ok it -> exists n, count_occ ascii_dec (item_chars it) dq = (2 * n)%nat.
Proof.
  destruct it as [w|ws]; simpl; intros Hok.
  - exists 0%nat. apply count_dq_none. eapply Forall_impl; [exact (lower_word_all w Hok)|].
    intros c Hc. apply lower_sp_not_dq. by rewrite Hc.
  - exists 1%nat. destruct Hok as [_ Hall].
    rewrite count_occ_app, (count_dq_none _ (join_l_no_dq ws Hall)).
    destruct (ascii_dec dq dq); [|done]. simpl. destruct (ascii_dec dq dq); done.
Qed.

Lemma count_dq_operand L : Forall item_ok L ->
  exists n, count_occ ascii_dec (operand_chars L) dq = (2 * n)%nat.
Proof.
  induction L as [|it L IH]; intros Hall; [by exists 0%nat|].
  apply Forall_cons in Hall as [Hit Hall]. destruct L as [|it' L]; [by apply count_dq_item|].
  change (operand_chars (it :: it' :: L)) with (item_chars it ++ " "%char :: operand_chars (it' :: L)).
  destruct (count_dq_item it Hit) as [n Hn]. destruct (IH Hall) as [m Hm].
  exists (n + m)%nat. rewrite count_occ_app, Hn, count_occ_cons_neq by (unfold dq; discriminate).
  rewrite Hm. lia.
Qed.

Lemma near_query_quotes L ds R :
  Forall item_ok L -> Forall item_ok R -> Forall (fun c => is_digit c = true) ds ->
  has_unmatched_quotes (near_query L ds R) = false.
Proof.
  intros HL HR Hds. unfold has_unmatched_quotes. rewrite near_query_chars.
  destruct (count_dq_operand L HL) as [n Hn]. destruct (count_dq_operand R HR) as [m Hm].
  assert (Hmid : count_occ ascii_dec (" "%char :: near_kw ++ ds) dq = 0%nat).
  { apply count_dq_none. apply Forall_cons_2; [done|]. apply Forall_app_2; [repeat constructor|].
    eapply Forall_impl; [exact Hds|]. intros c Hc. apply (digit_facts c Hc). }
  replace (" "%char :: near_kw ++ ds ++ " "%char :: operand_chars R)
    with ((" "%char :: near_kw ++ ds) ++ " "%char :: operand_chars R)
    by (cbn [app]; by rewrite <- app_assoc).
  rewrite !count_occ_app, Hn, Hmid, count_occ_cons_neq by (unfold dq; discriminate).
  rewrite Hm.
  replace (2 * n + (0 + 2 * m))%nat with (2 * (n + m))%nat by lia.
  rewrite <- Nat.negb_even, Nat.even_mul. reflexivity.
Qed.

(** Parentheses *)
Lemma balanced_go_noparen c l : Forall (fun x => is_paren x = false) l -> balanced_go c l = Z.eqb c 0.
Proof.
  induction l as [|x l IH]; intros Hl; [done|]. apply Forall_cons in Hl as [Hx Hl].
  unfold is_paren in Hx. apply orb_false_iff in Hx as [H1 H2].
  simpl. rewrite H1, H2. by apply IH.
Qed.

Lemma near_query_parens L ds R :
  Forall item_ok L -> Forall item_ok R -> Forall (fun c => is_digit c = true) ds ->
  balanced_parens (near_query L ds R) = true.
Proof.
  intros HL HR Hds. unfold balanced_parens. rewrite balanced_go_noparen; [done|].
  assert (H : Forall (fun c => negb (is_paren c) = true) (list_ascii_of_string (near_query L ds R))).
  { apply near_query_Forall; [done|done|done| | |repeat constructor].
    - intros c Hc. by rewrite (proj2 (proj2 (op_char_facts c Hc))).
    - intros c Hc. by rewrite (proj1 (proj2 (proj2 (digit_facts c Hc)))). }
  eapply Forall_impl; [exact H|]. intros c Hc. apply negb_true_iff. exact Hc.
Qed.

(** Phrases *)
Lemma bad_phrase_none_skip x r : Forall (fun c => Ascii.eqb c dq = false) x ->
  bad_phrase_go None (x ++ r) = bad_phrase_go None r.
Proof.
  induction x as [|c x IH]; intros Hx; [done|]. apply Forall_cons in Hx as [Hc Hx].
  simpl. rewrite Hc. by apply IH.
Qed.

Lemma bad_phrase_some_skip acc x r : Forall (fun c => Ascii.eqb c dq = false) x ->
  bad_phrase_go (Some acc) (x ++ r) = bad_phrase_go (Some (rev x ++ acc)) r.
Proof.
  revert acc. induction x as [|c x IH]; intros acc Hx; [done|].
  apply Forall_cons in Hx as [Hc Hx]. simpl. rewrite Hc, IH by done.
  by rewrite <- app_assoc.
Qed.

Lemma phrase_ok ws : item_ok (NPhrase ws) -> phrase_bad (join_l ws) = false.
Proof.
  intros [Hlen Hall]. assert (Hne : ws <> []) by (destruct ws; simpl in Hlen; [lia|done]).
  destruct (join_l_first ws Hne Hall) as [c [r [Hr Hc]]].
  destruct (join_l_last ws Hne Hall) as [y [d [Hy Hd]]].
  unfold phrase_bad. rewrite (strip_id (join_l ws) c r d Hr Hc (ex_intro _ y Hy) Hd).
  unfold split_ws. rewrite list_ascii_of_string_of_list_ascii, split_join by done.
  rewrite Hr. simpl. apply Nat.ltb_ge. lia.
Qed.

Lemma bad_phrase_item it r : item_ok it ->
  bad_phrase_go None (item_chars it ++ r) = bad_phrase_go None r.
Proof.
  destruct it as [w|ws]; simpl; intros Hok.
  - apply bad_phrase_none_skip. eapply Forall_impl; [exact (lower_word_all w Hok)|].
    intros c Hc. apply lower_sp_not_dq. by rewrite Hc.
  - rewrite ?Ascii.eqb_refl. rewrite <- app_assoc.
    rewrite bad_phrase_some_skip by (apply join_l_no_dq, Hok).
    simpl. rewrite ?Ascii.eqb_refl, app_nil_r, rev_involutive, phrase_ok by done. done.
Qed.

Lemma bad_phrase_operand L r : Forall item_ok L ->
  bad_phrase_go None (operand_chars L ++ r) = bad_phrase_go None r.
Proof.
  induction L as [|it L IH]; intros Hall; [done|].
  apply Forall_cons in Hall as [Hit Hall]. destruct L as [|it' L]; [by apply bad_phrase_item|].
  change (operand_chars (it :: it' :: L)) with (item_chars it ++ " "%char :: operand_chars (it' :: L)).
  rewrite <- app_assoc, bad_phrase_item by done. simpl. by apply IH.
Qed.

Lemma near_query_phrases L ds R :
  Forall item_ok L -> Forall item_ok R -> Forall (fun c => is_digit c = true) ds ->
  bad_phrase_lengths (near_query L ds R) = false.
Proof.
  intros HL HR Hds. unfold bad_phrase_lengths. rewrite near_query_chars, bad_phrase_operand by done.
  replace (" "%char :: near_kw ++ ds ++ " "%char :: operand_chars R)
    with ((" "%char :: near_kw ++ ds ++ [" "%char]) ++ operand_chars R ++ [])
    by (cbn [app]; by rewrite app_nil_r, <- !app_assoc).
  rewrite bad_phrase_none_skip; [by rewrite bad_phrase_operand|].
  apply Forall_cons_2; [done|]. apply Forall_app_2; [repeat constructor|].
  apply Forall_app_2; [|repeat constructor].
  eapply Forall_impl; [exact Hds|]. intros c Hc. apply (digit_facts c Hc).
Qed.

(** Upper-case tokens *)
Lemma not_upper_oplike t : Forall (fun c => is_upper c = false) (list_ascii_of_string t) ->
  upper_oplike t = false.
Proof.
  destruct t as [|c t]; [done|]. intros H. apply Forall_cons in H as [Hc _].
  unfold upper_oplike. simpl. rewrite Hc. by rewrite andb_false_r.
Qed.

Lemma existsb_Forall_false {A} (f : A -> bool) l : Forall (fun x => f x = false) l -> existsb f l = false.
Proof. induction 1; simpl; [done|]. by rewrite H, IHForall. Qed.

Lemma strip_near_query L ds R : L <> [] -> R <> [] -> Forall item_ok L -> Forall item_ok R ->
  strip (near_query L ds R) = near_query L ds R.
Proof.
  intros HL0 HR0 HL HR.
  destruct (operand_chars_first L HL0 HL) as [c [r [Hr Hc]]].
  destruct (operand_chars_last R HR0 HR) as [y [d [Hy Hd]]].
  unfold near_query at 1. rewrite (strip_id _ c (r ++ " "%char :: near_kw ++ ds ++ " "%char :: operand_chars R) d);
    [done| by rewrite Hr | done | | done].
  exists (operand_chars L ++ " "%char :: near_kw ++ ds ++ " "%char :: y). rewrite Hy.
  repeat progress (rewrite <- ?app_assoc; cbn [app]). reflexivity.
Qed.

Lemma near_query_unknown_op L ds R : L <> [] -> R <> [] ->
  Forall item_ok L -> Forall item_ok R -> Forall (fun c => is_digit c = true) ds ->
  unknown_op_token (near_query L ds R) = false.
Proof.
  intros HL0 HR0 HL HR Hds. unfold unknown_op_token. rewrite strip_near_query by done.
  unfold split_ws. rewrite near_query_chars.
  replace (near_kw ++ ds ++ " "%char :: operand_chars R)
    with ((near_kw ++ ds) ++ " "%char :: operand_chars R) by (by rewrite app_assoc).
  rewrite !split_ws_go_sep by done.
  assert (Hkw : Forall (fun c => is_space c = false) (near_kw ++ ds)).
  { apply Forall_app_2; [repeat constructor|].
    eapply Forall_impl; [exact Hds|]. intros c Hc. apply (digit_facts c Hc). }
  rewrite <- (app_nil_r (near_kw ++ ds)), split_ws_go_nospace by done. rewrite ?app_nil_r.
  rewrite split_ws_go_flush by (by destruct ds; [|]).
  assert (Hop : forall L', Forall item_ok L' ->
            Forall (fun t => Forall (fun c => is_upper c = false) (list_ascii_of_string t))
                   (split_ws_go [] (operand_chars L'))).
  { intros L' HL'. apply split_ws_go_class; [constructor|]. intros c Hin _.
    pose proof (operand_chars_class L' HL') as Hall. rewrite Forall_forall in Hall.
    apply (op_char_facts c), Hall. by apply list_elem_of_In. }
  rewrite !existsb_app. rewrite !existsb_Forall_false; [done| | |].
  - eapply Forall_impl; [exact (Hop R HR)|]. intros t Ht. by rewrite not_upper_oplike.
  - apply Forall_singleton. apply andb_false_intro2. unfold near_kw. simpl. by destruct ds.
  - eapply Forall_impl; [exact (Hop L HL)|]. intros t Ht. by rewrite not_upper_oplike.
Qed.

(** Wildcards and keywords *)
Lemma str_has_list c l : str_has c (string_of_list_ascii l) = existsb (fun a => Ascii.eqb a c) l.
Proof. induction l as [|a l IH]; simpl; [done|]. by rewrite IH. Qed.

Lemma near_query_no_star L ds R :
  Forall item_ok L -> Forall item_ok R -> Forall (fun c => is_digit c = true) ds ->
  str_has "*" (near_query L ds R) = false.
Proof.
  intros HL HR Hds. unfold near_query at 1. rewrite str_has_list.
  assert (H : Forall (fun c => negb (Ascii.eqb c "*") = true) (list_ascii_of_string (near_query L ds R))).
  { apply near_query_Forall; [done|done|done| | |unfold near_kw; repeat constructor].
    - intros c Hc. by rewrite (proj1 (proj2 (op_char_facts c Hc))).
    - intros c Hc. by rewrite (proj1 (proj2 (digit_facts c Hc))). }
  unfold near_query in H. rewrite list_ascii_of_string_of_list_ascii in H.
  apply existsb_Forall_false. eapply Forall_impl; [exact H|].
  intros c Hc. apply negb_true_iff. exact Hc.
Qed.

Lemma kw_match_none prev kw l : strip_prefix kw l = None -> kw_match prev kw l = None.
Proof. intros H. unfold kw_match. rewrite H. by destruct prev as [p|]; [destruct (is_word p)|]. Qed.

Lemma not_upper_neq c (u : ascii) : is_upper u = true -> is_upper c = false -> Ascii.eqb u c = false.
Proof.
  intros Hu Hc. destruct (Ascii.eqb u c) eqn:E; [|done].
  apply Ascii.eqb_eq in E. subst. congruence.
Qed.

Fixpoint prev_after (prev : option ascii) (x : list ascii) : option ascii :=
  match x with [] => prev | c :: x' => prev_after (Some c) x' end.

Lemma bool_op_skip prev x r : Forall (fun c => is_upper c = false) x ->
  bool_op_search prev (x ++ r) = bool_op_search (prev_after prev x) r.
Proof.
  revert prev. induction x as [|c x IH]; intros prev Hx; [done|].
  apply Forall_cons in Hx as [Hc Hx]. simpl.
  rewrite !kw_match_none by (cbn [strip_prefix list_ascii_of_string]; by rewrite not_upper_neq).
  simpl. by apply IH.
Qed.

Lemma prev_after_snoc prev x c : prev_after prev (x ++ [c]) = Some c.
Proof. revert prev. induction x as [|a x IH]; intros prev; [done|]. apply IH. Qed.

Lemma near_query_no_bool_op L ds R :
  Forall item_ok L -> Forall item_ok R -> Forall (fun c => is_digit c = true) ds ->
  bool_op_search None (list_ascii_of_string (near_query L ds R)) = false.
Proof.
  intros HL HR Hds. rewrite near_query_chars.
  assert (Hup : forall L', Forall item_ok L' ->
            Forall (fun c => is_upper c = false) (operand_chars L')).
  { intros L' HL'. eapply Forall_impl; [exact (operand_chars_class L' HL')|].
    intros c Hc. apply (op_char_facts c Hc). }
  replace (operand_chars L ++ " "%char :: near_kw ++ ds ++ " "%char :: operand_chars R)
    with ((operand_chars L ++ [" "%char]) ++ near_kw ++ ds ++ " "%char :: operand_chars R)
    by (by rewrite <- app_assoc).
  rewrite bool_op_skip, prev_after_snoc by (apply Forall_app_2; [by apply Hup|repeat constructor]).
  unfold near_kw. simpl.
  rewrite <- (app_nil_r (ds ++ " "%char :: operand_chars R)), bool_op_skip; [done|].
  apply Forall_app_2; [|apply Forall_cons_2; [done|by apply Hup]].
  eapply Forall_impl; [exact Hds|]. intros c Hc. apply (digit_facts c Hc).
Qed.

(** [NEAR/<digits>] matches *)
Lemma strip_prefix_app p y : strip_prefix p (p ++ y) = Some y.
Proof. induction p as [|a p IH]; simpl; [done|]. by rewrite Ascii.eqb_refl. Qed.

Lemma span_digits_app ds c r : Forall (fun x => is_digit x = true) ds -> is_digit c = false ->
  span_digits (ds ++ c :: r) = (ds, c :: r).
Proof.
  induction ds as [|d ds IH]; intros Hds Hc; simpl; [by rewrite Hc|].
  apply Forall_cons in Hds as [Hd Hds]. by rewrite Hd, IH.
Qed.

Lemma near_finditer_skip0 before x r : Forall (fun c => is_upper c = false) x ->
  near_finditer O before (x ++ r) = near_finditer O (rev x ++ before) r.
Proof.
  revert before. induction x as [|c x IH]; intros before Hx; [done|].
  apply Forall_cons in Hx as [Hc Hx]. cbn [app near_finditer].
  assert (Hs : strip_prefix near_kw (c :: x ++ r) = None).
  { unfold near_kw. cbn [strip_prefix list_ascii_of_string]. by rewrite not_upper_neq. }
  rewrite Hs, IH by done. simpl. by rewrite <- app_assoc.
Qed.

Lemma near_finditer_skipS n before x r : length x = n ->
  near_finditer n before (x ++ r) = near_finditer O (rev x ++ before) r.
Proof.
  revert n before. induction x as [|c x IH]; intros n before Hn; simpl in Hn; subst; [done|].
  cbn [app near_finditer]. rewrite IH by done. simpl. by rewrite <- app_assoc.
Qed.

Lemma near_finditer_nil n before : near_finditer n before [] = [].
Proof. by destruct n. Qed.

Lemma near_query_matches L ds R :
  Forall item_ok L -> Forall item_ok R -> ds <> [] -> Forall (fun c => is_digit c = true) ds ->
  near_plain_matches (near_query L ds R) =
  [(operand_chars L ++ [" "%char], " "%char :: operand_chars R)].
Proof.
  intros HL HR Hds0 Hds. unfold near_plain_matches. rewrite near_query_chars.
  assert (Hup : forall L', Forall item_ok L' ->
            Forall (fun c => is_upper c = false) (operand_chars L')).
  { intros L' HL'. eapply Forall_impl; [exact (operand_chars_class L' HL')|].
    intros c Hc. apply (op_char_facts c Hc). }
  replace (operand_chars L ++ " "%char :: near_kw ++ ds ++ " "%char :: operand_chars R)
    with ((operand_chars L ++ [" "%char]) ++ near_kw ++ ds ++ " "%char :: operand_chars R)
    by (by rewrite <- app_assoc).
  rewrite near_finditer_skip0 by (apply Forall_app_2; [by apply Hup|repeat constructor]).
  set (before := rev (operand_chars L ++ [" "%char]) ++ []).
  assert (Hsd : span_digits (ds ++ " "%char :: operand_chars R) = (ds, " "%char :: operand_chars R))
    by (apply span_digits_app; done).
  change (near_kw ++ ds ++ " "%char :: operand_chars R) with
    ("N"%char :: (list_ascii_of_string "EAR/" ++ ds ++ " "%char :: operand_chars R)).
  cbn [near_finditer].
  change ("N"%char :: (list_ascii_of_string "EAR/" ++ ds ++ " "%char :: operand_chars R)) with
    (near_kw ++ ds ++ " "%char :: operand_chars R).
  rewrite strip_prefix_app, Hsd.
  destruct ds as [|d ds']; [done|]. cbv zeta iota beta.
  replace (list_ascii_of_string "EAR/" ++ (d :: ds') ++ " "%char :: operand_chars R)
    with ((list_ascii_of_string "EAR/" ++ d :: ds') ++ " "%char :: operand_chars R ++ [])
    by (by rewrite app_nil_r, <- app_assoc).
  rewrite near_finditer_skipS by (rewrite length_app; reflexivity).
  change (" "%char :: operand_chars R ++ []) with ([" "%char] ++ operand_chars R ++ []).
  rewrite app_assoc, near_finditer_skip0, near_finditer_nil
    by (apply Forall_app_2; [repeat constructor|by apply Hup]).
  unfold before. by rewrite app_nil_r, rev_involutive.
Qed.

Lemma near_query_valid L ds R : L <> [] -> R <> [] ->
  Forall item_ok L -> Forall item_ok R -> ds <> [] -> Forall (fun c => is_digit c = true) ds ->
  invalid_near (near_query L ds R) = false.
Proof.
  intros HL0 HR0 HL HR Hds0 Hds. unfold invalid_near.
  rewrite near_query_matches by done. rewrite andb_false_r. cbv iota beta.
  destruct (operand_chars_first L HL0 HL) as [c [r [Hr Hc]]].
  destruct (operand_chars_first R HR0 HR) as [c' [r' [Hr' Hc']]].
  rewrite (strip_not_blank _ c), (strip_not_blank _ c'); [done| | done | | done].
  - rewrite Hr'. right. by left.
  - rewrite Hr. by left.
Qed.

(** A [NEAR/<digits>] query whose operands are lower-case words and quoted
    phrases of one to three lower-case words passes every check of
    [detect_query_type] before the proximity branch. *)
Lemma near_query_not_mixed L ds R :
  Forall item_ok L -> Forall item_ok R -> Forall (fun c => is_digit c = true) ds ->
  has_mixed_types (near_query L ds R) = false.
Proof.
  intros HL HR Hds. unfold has_mixed_types. cbv zeta.
  rewrite near_query_no_star, near_query_no_bool_op by done.
  rewrite andb_false_l, andb_false_r. reflexivity.
Qed.

Lemma near_query_proximity L ds R : L <> [] -> R <> [] ->
  Forall item_ok L -> Forall item_ok R -> ds <> [] -> Forall (fun c => is_digit c = true) ds ->
  detect_query_type (near_query L ds R) = Ok "proximity".
Proof.
  intros HL0 HR0 HL HR Hds0 Hds. unfold detect_query_type.
  rewrite near_query_quotes, near_query_parens, near_query_phrases, near_query_unknown_op,
    near_query_not_mixed, near_query_matches, near_query_valid by done.
  cbv iota beta. by destruct (str_contains "NEAR" (near_query L ds R)).
Qed.

Example near_query_render :
  near_query [NPhrase ["machine"; "learning"]] ["2"%char] [NWord "algorithms"] =
  (qstr "machine learning" ++ " NEAR/2 algorithms")%string.
Proof. reflexivity. Qed.

(** ** [ranking/rankers.py]

    Scores are Python floats; they are modelled by their exact real values.
    Every score the code computes is finite (the arguments of [log] are
    positive and every division has a positive divisor), so the key
    [(-score, doc_id)] is compared as a pair of numbers. *)

From Stdlib Require Import Reals Qreals Lra.
Open Scope Z_scope.

(** [str.lower()] on ASCII text *)
Definition ascii_lower (c : ascii) : ascii :=
  if is_upper c then ascii_of_nat (nat_of_ascii c + 32) else c.

Fixpoint str_lower (s : string) : string :=
  match s with
  | EmptyString => EmptyString
  | String c s' => String (ascii_lower c) (str_lower s')
  end.

(** [_load_meta]: [N], [avgdl] and [doc_lengths], with their fallbacks. *)
Record loaded_meta : Type := {
  lm_N : Z;
  lm_avgdl : Q;
  lm_doc_lengths : gmap Z Z
}.

Definition load_meta (pkg : package) : loaded_meta :=
  let doc_lengths := match pkg_meta pkg with
                     | Some m => default ∅ (meta_doc_lengths m)
                     | None => ∅
                     end in
  let N := match pkg_meta pkg with
           | Some m => default (Z.of_nat (size doc_lengths)) (meta_N m)
           | None => Z.of_nat (size doc_lengths)
           end in
  let fallback : Q :=
    if (0 <? N)%Z then Qdiv (inject_Z (map_fold (fun _ v acc => (acc + v)%Z) 0%Z doc_lengths)) (inject_Z N)
    else 0%Q in
  let avgdl := match pkg_meta pkg with
               | Some m => default fallback (meta_avgdl m)
               | None => fallback
               end in
  {| lm_N := N; lm_avgdl := avgdl; lm_doc_lengths := doc_lengths |}.

(** [_df] and [_tf] *)
Definition df (pkg : package) (term : string) : nat := length (get_posting_list pkg (Uni term)).

Definition tf (pkg : package) (term : string) (doc_id : Z) : nat :=
  length (get_term_positions pkg (Uni term) doc_id).

(** [d[k] = v] on a dict, kept as its list of items in insertion order. *)
Definition dict_set {V} (k : string) (v : V) (m : list (string * V)) : list (string * V) :=
  if existsb (fun kv => String.eqb kv.1 k) m
  then map (fun kv => if String.eqb kv.1 k then (k, v) else kv) m
  else m ++ [(k, v)].

(** The [idf] dict: an entry for each query term with [df > 0]. *)
Definition idf_table (pkg : package) (idf_of : nat -> R) (query_toks : list string)
  : list (string * R) :=
  fold_left (fun acc t => let d := df pkg t in
                          if (0 <? d)%nat then dict_set t (idf_of d) acc else acc)
            query_toks [].

(** [{d: 0.0 for d in doc_ids}] *)
Definition zero_scores (doc_ids : list Z) : gmap Z R :=
  fold_left (fun m d => <[d := 0%R]> m) doc_ids ∅.

Definition bm25_k1 : R := 1.2.
Definition bm25_b : R := 0.75.

(** [_bm25_scores] with the default [k1] and [b] *)
Definition bm25_doc_score (pkg : package) (idf : list (string * R)) (lm : loaded_meta)
    (d : Z) : R :=
  let dl := Z.max 1 (default 0%Z (lm_doc_lengths lm !! d)) in
  let norm : R := if Qlt_le_dec 0 (lm_avgdl lm)
                  then ((1 - bm25_b) + bm25_b * (IZR dl / Q2R (lm_avgdl lm)))%R
                  else 1%R in
  let denom_base := (bm25_k1 * norm)%R in
  fold_left (fun s '(t, idf_t) =>
               let tf_td := tf pkg t d in
               if (tf_td =? 0)%nat then s
               else (s + idf_t * ((INR tf_td * (bm25_k1 + 1)) / (INR tf_td + denom_base)))%R)
            idf 0%R.

Definition bm25_scores (pkg : package) (query_toks : list string) (doc_ids : list Z)
  : gmap Z R :=
  let lm := load_meta pkg in
  let N := Z.max 1 (lm_N lm) in
  let idf := idf_table pkg (fun d => ln ((IZR N - INR d + 0.5) / (INR d + 0.5) + 1)) query_toks in
  let scores := zero_scores doc_ids in
  match idf with
  | [] => scores
  | _ => fold_left (fun sc d => <[d := bm25_doc_score pkg idf lm d]> sc) doc_ids scores
  end.

(** [_tfidf_scores] *)
Definition tfidf_doc_score (pkg : package) (idf : list (string * R)) (d : Z) : R :=
  fold_left (fun s '(t, idf_t) =>
               let tf_td := tf pkg t d in
               if (tf_td =? 0)%nat then s else (s + (1 + ln (INR tf_td)) * idf_t)%R)
            idf 0%R.

Definition tfidf_scores (pkg : package) (query_toks : list string) (doc_ids : list Z)
  : gmap Z R :=
  let lm := load_meta pkg in
  let N := Z.max 1 (lm_N lm) in
  let idf := idf_table pkg (fun d => ln (IZR N / INR d + / IZR (10 ^ 12))) query_toks in
  let scores := zero_scores doc_ids in
  match idf with
  | [] => scores
  | _ => fold_left (fun sc d => <[d := tfidf_doc_score pkg idf d]> sc) doc_ids scores
  end.

(** [score_map.get(d, 0.0)] *)
Definition score_get (score_map : gmap Z R) (d : Z) : R := default 0%R (score_map !! d).

(** Python's [<] on the key tuples [(-score, doc_id)]. *)
Definition key_ltb (k k' : R * Z) : bool :=
  if Req_EM_T k.1 k'.1 then (k.2 <? k'.2)
  else if Rlt_dec k.1 k'.1 then true else false.

Definition rank_key (score_map : gmap Z R) (d : Z) : R * Z := ((- score_get score_map d)%R, d).

(** The stable sort by key places [x] before [y] unless [key y < key x]. *)
Definition rank_leb (score_map : gmap Z R) (x y : Z) : bool :=
  negb (key_ltb (rank_key score_map y) (rank_key score_map x)).

(** The score map chosen by [method] ([method or "default"], lower-cased;
    an unknown name falls back to BM25). *)
Definition method_scores (pkg : package) (query_toks : list string) (doc_ids : list Z)
    (method : string) : gmap Z R :=
  let meth := str_lower (if String.eqb method "" then "default" else method) in
  if String.eqb meth "default" || String.eqb meth "bm25" then bm25_scores pkg query_toks doc_ids
  else if String.eqb meth "tfidf" then tfidf_scores pkg query_toks doc_ids
  else bm25_scores pkg query_toks doc_ids.

(** [rank_documents]; [candidate_docs] is not read. *)
Definition rank_documents (pkg : package) (query_toks : list string)
    (candidate_docs : list (list string)) (doc_ids : list Z) (method : string)
  : list Z * list R :=
  match doc_ids with
  | [] => ([], [])
  | _ =>
      let score_map := method_scores pkg query_toks doc_ids method in
      let ranked := sort_list (rank_leb score_map) doc_ids in
      (ranked, map (score_get score_map) ranked)
  end.

(** [_simple_tokenize]. [re.split(r"[^a-z0-9]+", text)] scans the text
    once: [cur] is the piece being read (reversed) and [in_sep] tells
    whether the previous character was a separator, so that a run of
    separators splits only once; a separator at either end gives an empty
    first or last piece. Characters are Latin-1 code points: no character
    outside [A-Z] lowers to a character of [a-z0-9], so lowering the ASCII
    letters gives the tokens [str.lower] gives. *)
Fixpoint re_split_go (cur : list ascii) (in_sep : bool) (l : list ascii) : list string :=
  match l with
  | [] => [string_of_list_ascii (rev cur)]
  | c :: l' =>
      if is_lower_alnum c then re_split_go (c :: cur) false l'
      else if in_sep then re_split_go cur true l'
      else string_of_list_ascii (rev cur) :: re_split_go [] true l'
  end.

Definition re_split_alnum (s : string) : list string := re_split_go [] false (list_ascii_of_string s).

Definition simple_tokenize (text : string) : list string :=
  List.filter (fun t => negb (String.eqb t EmptyString)) (re_split_alnum (str_lower text)).

(** ** Properties of the ranking *)

Lemma rank_leb_spec m x y :
  rank_leb m x y = true <->
  (score_get m y < score_get m x \/ (score_get m x = score_get m y /\ (x <= y)%Z))%R.
Proof.
  unfold rank_leb, key_ltb, rank_key. cbn [fst snd].
  set (sx := score_get m x). set (sy := score_get m y).
  destruct (Req_EM_T (- sy) (- sx)) as [E|E].
  - destruct (Z.ltb_spec y x) as [Hyx|Hyx]; simpl; split; intros H;
      try discriminate; try reflexivity.
    + destruct H as [H|[_ H]]; [lra|lia].
    + right. split; [lra|lia].
  - destruct (Rlt_dec (- sy) (- sx)) as [H|H]; simpl; split; intros H';
      try discriminate; try reflexivity.
    + destruct H' as [H'|[H' _]]; [lra|]. exfalso. apply E. by rewrite H'.
    + left. destruct (Rtotal_order sy sx) as [?|[?|?]]; [done| |]; exfalso.
      * apply E. by f_equal.
      * apply H. lra.
Qed.

Lemma rank_leb_total m x y : rank_leb m x y = true \/ rank_leb m y x = true.
Proof.
  rewrite !rank_leb_spec.
  destruct (Rtotal_order (score_get m x) (score_get m y)) as [H|[H|H]].
  - right. by left.
  - destruct (Z.le_ge_cases x y); [left|right]; right; split; [done|lia| |lia]. done.
  - left. by left.
Qed.

Lemma rank_leb_trans m x y z :
  rank_leb m x y = true -> rank_leb m y z = true -> rank_leb m x z = true.
Proof.
  rewrite !rank_leb_spec. intros [H1|[H1 H1']] [H2|[H2 H2']].
  - left. lra.
  - left. lra.
  - left. lra.
  - right. split; [lra|lia].
Qed.

Lemma score_get_zero_fold m l :
  (forall d, score_get m d = 0%R) ->
  forall d, score_get (fold_left (fun m d => <[d := 0%R]> m) l m) d = 0%R.
Proof.
  revert m. induction l as [|k l IH]; intros m Hm d; simpl; [done|].
  apply IH. intros d'. unfold score_get. destruct (decide (k = d')) as [->|Hne].
  - by rewrite lookup_insert_eq.
  - rewrite lookup_insert_ne by done. apply Hm.
Qed.

Lemma score_get_zero_scores l d : score_get (zero_scores l) d = 0%R.
Proof. apply score_get_zero_fold. intros d'. reflexivity. Qed.

Lemma idf_table_nil pkg f : idf_table pkg f [] = [].
Proof. reflexivity. Qed.

Lemma method_scores_no_query pkg ids method d : score_get (method_scores pkg [] ids method) d = 0%R.
Proof.
  unfold method_scores, bm25_scores, tfidf_scores. rewrite !idf_table_nil.
  destruct (_ || _); [|destruct (String.eqb _ "tfidf")]; apply score_get_zero_scores.
Qed.

(** [fold_left] of inserts: the last insert of a key wins. *)
Lemma fold_insert_lookup (g : Z -> R) (m : gmap Z R) l d :
  fold_left (fun sc k => <[k := g k]> sc) l m !! d =
  if decide (d ∈ l) then Some (g d) else m !! d.
Proof.
  revert m. induction l as [|k l IH]; intros m; simpl; [done|].
  rewrite IH. destruct (decide (d ∈ l)) as [Hin|Hin].
  - rewrite decide_True; [done|]. apply elem_of_cons. by right.
  - destruct (decide (k = d)) as [->|Hne].
    + rewrite decide_True by (apply elem_of_cons; by left). by rewrite lookup_insert_eq.
    + rewrite decide_False by (rewrite elem_of_cons; intros [?|?]; done).
      by rewrite lookup_insert_ne.
Qed.

Lemma bm25_single_term pkg t ids d :
  (0 < df pkg t)%nat -> In d ids ->
  score_get (bm25_scores pkg [t] ids) d =
  bm25_doc_score pkg
    [(t, ln ((IZR (Z.max 1 (lm_N (load_meta pkg))) - INR (df pkg t) + 0.5) /
             (INR (df pkg t) + 0.5) + 1))]
    (load_meta pkg) d.
Proof.
  intros Hdf Hin. unfold bm25_scores.
  assert (Hidf : forall f, idf_table pkg f [t] = [(t, f (df pkg t))]).
  { intros f. unfold idf_table. simpl. apply Nat.ltb_lt in Hdf. by rewrite Hdf. }
  rewrite Hidf. unfold score_get. rewrite fold_insert_lookup.
  rewrite decide_True; [done|]. by apply list_elem_of_In.
Qed.

Lemma rank_documents_eq pkg query_toks candidate_docs doc_ids method :
  rank_documents pkg query_toks candidate_docs doc_ids method =
  (sort_list (rank_leb (method_scores pkg query_toks doc_ids method)) doc_ids,
   map (score_get (method_scores pkg query_toks doc_ids method))
       (sort_list (rank_leb (method_scores pkg query_toks doc_ids method)) doc_ids)).
Proof. unfold rank_documents. by destruct doc_ids. Qed.

Lemma rank_sorted m l :
  StronglySorted (fun x y => score_get m y < score_get m x \/
                             (score_get m x = score_get m y /\ (x <= y)%Z))%R
                 (sort_list (rank_leb m) l).
Proof.
  eapply SS_impl; [|apply (sort_list_sorted (rank_leb m) (rank_leb_total m) (rank_leb_trans m))].
  intros x y H. by apply rank_leb_spec.
Qed.

(** ** A two-document corpus for BM25: document 0 is [t], document 1 is
    [t] followed by 100 other tokens. *)
Definition bm25_corpus : list (list string) := [["t"]; "t" :: repeat "u" 100]%string.

Definition bm25_pkg : package := pkg_of (create_all_indexes bm25_corpus None).

Lemma bm25_pkg_stats :
  df bm25_pkg "t" = 2%nat /\ tf bm25_pkg "t" 0 = 1%nat /\ tf bm25_pkg "t" 1 = 1%nat /\
  lm_N (load_meta bm25_pkg) = 2 /\ lm_avgdl (load_meta bm25_pkg) = (102 # 2)%Q /\
  lm_doc_lengths (load_meta bm25_pkg) !! 0 = Some 1 /\
  lm_doc_lengths (load_meta bm25_pkg) !! 1 = Some 101.
Proof. split_and!; vm_compute; reflexivity. Qed.

Lemma bm25_doc_score_one pkg t idf_t lm d n dl :
  tf pkg t d = S n -> lm_doc_lengths lm !! d = Some dl -> (0 < lm_avgdl lm)%Q ->
  bm25_doc_score pkg [(t, idf_t)] lm d =
  (idf_t * ((INR (S n) * (bm25_k1 + 1)) /
            (INR (S n) + bm25_k1 * ((1 - bm25_b) + bm25_b * (IZR (Z.max 1 dl) / Q2R (lm_avgdl lm))))))%R.
Proof.
  intros Htf Hdl Havg. unfold bm25_doc_score. cbn [fold_left].
  rewrite Htf, Hdl. cbn [default Nat.eqb].
  destruct (Qlt_le_dec 0 (lm_avgdl lm)) as [_|Hle]; [|exfalso; by apply (Qle_not_lt _ _ Hle)].
  apply Rplus_0_l.
Qed.

Lemma bm25_corpus_scores ids method :
  (method = "bm25" \/ method = "default") -> In 0 ids -> In 1 ids ->
  (score_get (method_scores bm25_pkg ["t"] ids method) 1 <
   score_get (method_scores bm25_pkg ["t"] ids method) 0)%R.
Proof.
  intros Hm Hin0 Hin1.
  assert (Hms : method_scores bm25_pkg ["t"] ids method = bm25_scores bm25_pkg ["t"] ids)
    by (destruct Hm as [-> | ->]; reflexivity).
  destruct bm25_pkg_stats as (Hdf & Htf0 & Htf1 & HN & Havg & Hdl0 & Hdl1).
  rewrite Hms, !bm25_single_term by (rewrite ?Hdf; (lia || done)).
  rewrite (bm25_doc_score_one _ _ _ _ 0 O 1), (bm25_doc_score_one _ _ _ _ 1 O 101)
    by (rewrite ?Havg; (done || reflexivity)).
  rewrite Hdf, HN, Havg.
  set (idf := ln _).
  assert (Hidf : (0 < idf)%R).
  { unfold idf. rewrite <- ln_1. apply ln_increasing; [lra|].
    rewrite (Z.max_r 1 2) by lia. cbn [INR]. replace (1 + 1 + 0.5)%R with (5 / 2)%R by lra. lra. }
  assert (Hq : Q2R (102 # 2) = 51%R) by (unfold Q2R; cbn [Qnum Qden]; field).
  rewrite Hq, (Z.max_l 1 1), (Z.max_r 1 101) by lia. cbn [INR]. unfold bm25_k1, bm25_b.
  apply Rmult_lt_compat_l; [done|]. unfold Rdiv. apply Rmult_lt_compat_l; [lra|].
  apply Rinv_lt_contravar; [|lra].
  apply Rmult_lt_0_compat; lra.
Qed.

(** * The claims *)

(** C1. [convert_natural_language] returns nothing (its body is [pass]), so
    [process_query] answers every natural-language query with the empty
    set. For climate change, classified natural_language, the specified
    conversion is climate OR change, whose boolean evaluation on the
    four-document corpus is {10, 30}, while [process_query] returns the
    empty set. *)
Theorem natural_language_query_returns_empty :
  detect_query_type "climate change" = Ok "natural_language" /\
  convert_natural_language "climate change" = None /\
  convert_natural_language_spec "climate change" = "climate OR change" /\
  process_boolean_query test_pkg "climate OR change" = Ok {[10; 30]} /\
  process_query test_pkg "climate change" = Ok ∅.
Proof. split_and!; vm_compute; reflexivity. Qed.

(** C2. The core grams of [_pattern_to_ngrams] are taken from the pattern
    with every star deleted, so a gram can straddle a star. For the pattern
    re*ing the gram rei is derived, although the term reading matches the
    pattern as an anchored glob and its augmented form does not contain rei;
    the wildcard map has no term under rei, the candidate set becomes
    empty, and [process_wildcard_query] returns the empty set instead of
    the postings {10} of reading. *)
Theorem wildcard_query_misses_glob_match :
  glob_match "re*ing" "reading" = true /\
  get_posting_list reading_pkg (Uni "reading") = [10] /\
  In "rei"%string (pattern_to_ngrams "re*ing") /\
  find_wildcard_matches reading_pkg "rei" = [] /\
  process_wildcard_query reading_pkg "re*ing" = ∅.
Proof. split_and!; vm_compute; first [reflexivity | tauto]. Qed.

(** C3. The boolean evaluator gives NOT, AND and OR their set meaning over
    the query universe U (the union of the postings of the operands), with
    NOT binding tighter than AND and AND tighter than OR: for every
    expression whose operands are lowercase words, printed with the fewest
    parentheses that this precedence and left associativity need, the
    result of [process_boolean_query] is the expression's set semantics,
    with NOT A read as U minus A. On the four-document corpus of the
    specification, climate AND NOT science gives {10} and
    ( climate AND change ) OR science gives {10, 30}. *)
Theorem boolean_precedence_semantics (pkg : package) (e : bexpr) :
  bexpr_atoms_ok e ->
  process_boolean_query pkg (render_bexpr e) =
    Ok (bexpr_denote pkg (bexpr_universe pkg e) e) /\
  process_boolean_query test_pkg "climate AND NOT science" = Ok {[10]} /\
  process_boolean_query test_pkg "( climate AND change ) OR science" = Ok {[10; 30]}.
Proof.
  intros Hok. split.
  - unfold process_boolean_query.
    rewrite collect_universe_render by done.
    rewrite tokenize_render, to_rpn_bexpr_tokens by done.
    unfold eval_rpn. rewrite <- (app_nil_r (bexpr_postfix e)), eval_rpn_bexpr by done.
    reflexivity.
  - split; vm_compute; reflexivity.
Qed.

Lemma boolean_precedence_semantics_witness :
  bexpr_atoms_ok (BOr (BAnd (BTerm "climate") (BNot (BTerm "science"))) (BTerm "energy")) /\
  process_boolean_query test_pkg
    (render_bexpr (BOr (BAnd (BTerm "climate") (BNot (BTerm "science"))) (BTerm "energy")))
  = Ok (bexpr_denote test_pkg
          (bexpr_universe test_pkg (BOr (BAnd (BTerm "climate") (BNot (BTerm "science"))) (BTerm "energy")))
          (BOr (BAnd (BTerm "climate") (BNot (BTerm "science"))) (BTerm "energy"))).
Proof.
  assert (H : bexpr_atoms_ok (BOr (BAnd (BTerm "climate") (BNot (BTerm "science"))) (BTerm "energy")))
    by (simpl; split_and!; reflexivity).
  split; [exact H|].
  exact (proj1 (boolean_precedence_semantics test_pkg _ H)).
Defined.

(** C4. For every query, candidate list and method name, [rank_documents]
    returns a permutation of the candidate IDs with the scores aligned to
    it, ordered by descending score and then ascending ID. With no query
    terms every score is 0 and the IDs come in ascending order. A method
    name other than default, bm25 and tfidf (after lower-casing) is scored
    as BM25, so no method name makes it fail. *)
Theorem rank_documents_contract pkg query_toks candidate_docs doc_ids method :
  let score_map := method_scores pkg query_toks doc_ids method in
  let res := rank_documents pkg query_toks candidate_docs doc_ids method in
  Permutation res.1 doc_ids /\
  res.2 = map (score_get score_map) res.1 /\
  StronglySorted (fun x y => score_get score_map y < score_get score_map x \/
                             (score_get score_map x = score_get score_map y /\ (x <= y)%Z))%R
                 res.1 /\
  (query_toks = [] -> Forall (fun s => s = 0%R) res.2 /\ StronglySorted Z.le res.1) /\
  (method <> "" -> ~ In (str_lower method) ["default"; "bm25"; "tfidf"] ->
   score_map = method_scores pkg query_toks doc_ids "bm25").
Proof.
  intros score_map res. unfold res. rewrite rank_documents_eq. fold score_map. cbn [fst snd].
  split_and!.
  - apply sort_list_perm.
  - reflexivity.
  - apply rank_sorted.
  - intros ->. split.
    + apply Forall_forall. intros s Hs. apply list_elem_of_In, in_map_iff in Hs as [d [<- _]].
      apply method_scores_no_query.
    + eapply SS_impl; [|apply rank_sorted]. intros x y H.
      unfold score_map in H. rewrite !method_scores_no_query in H.
      destruct H as [H|[_ H]]; [lra|exact H].
  - intros Hne Hnin. unfold score_map, method_scores.
    rewrite (proj2 (String.eqb_neq method "") Hne).
    destruct (String.eqb (str_lower method) "default") eqn:E1;
      [apply String.eqb_eq in E1; exfalso; apply Hnin; rewrite E1; by left|].
    destruct (String.eqb (str_lower method) "bm25") eqn:E2;
      [apply String.eqb_eq in E2; exfalso; apply Hnin; rewrite E2; right; by left|].
    destruct (String.eqb (str_lower method) "tfidf") eqn:E3;
      [apply String.eqb_eq in E3; exfalso; apply Hnin; rewrite E3; right; right; by left|].
    reflexivity.
Qed.

Lemma rank_documents_contract_witness :
  Forall (fun s => s = 0%R) (rank_documents test_pkg [] [] [30; 10] "XYZ").2 /\
  StronglySorted Z.le (rank_documents test_pkg [] [] [30; 10] "XYZ").1 /\
  method_scores test_pkg [] [30; 10] "XYZ" = method_scores test_pkg [] [30; 10] "bm25".
Proof.
  pose proof (rank_documents_contract test_pkg [] [] [30; 10] "XYZ") as H.
  cbv zeta in H. destruct H as (_ & _ & _ & H4 & H5).
  split; [apply H4; reflexivity|]. split; [apply H4; reflexivity|].
  apply H5; [discriminate|]. simpl. intuition discriminate.
Defined.

(** C5. For every query that [_parse_near] accepts, with left operand L,
    distance k and right operand R, [process_proximity_query] returns
    exactly the documents that are in the postings of both operand keys
    and that have a left span a and a right span b with a different from b
    and a distance of at most k, the distance being 0 for overlapping
    spans and the smaller edge gap otherwise. For change NEAR/0 followed by
    the quoted phrase climate change, on the four-document corpus, the
    span of change in document 10 is [1,1], that of the phrase is [0,1],
    their distance is 0, and the result is {10}. *)
Theorem proximity_hit_iff (pkg : package) (query left_str right_str : string) (k : nat) :
  parse_near query = Ok (left_str, k, right_str) ->
  (exists hits, process_proximity_query pkg query = Ok hits /\
    forall d, d ∈ hits <->
      (In d (get_posting_list pkg (prox_as_key left_str)) /\
       In d (get_posting_list pkg (prox_as_key right_str)) /\
       exists a b, In a (span_positions pkg (prox_as_key left_str) d) /\
                   In b (span_positions pkg (prox_as_key right_str) d) /\
                   a <> b /\ claim_distance a b <= Z.of_nat k)) /\
  span_positions test_pkg (prox_as_key "change") 10 = [(1, 1)] /\
  span_positions test_pkg (prox_as_key (qstr "climate change")) 10 = [(0, 1)] /\
  claim_distance (1, 1) (0, 1) = 0 /\
  process_proximity_query test_pkg change_near_query = Ok {[10]}.
Proof.
  intros Hp. split; [|split_and!; vm_compute; reflexivity].
  unfold process_proximity_query. rewrite Hp.
  eexists; split; [reflexivity|]. intros d.
  rewrite elem_of_filter, elem_of_intersection, !elem_of_list_to_set, !list_elem_of_In.
  unfold doc_hit. rewrite existsb_exists. setoid_rewrite existsb_exists. split.
  - intros [[a [Ha [b [Hb Hab]]]] [Hl Hr]].
    case_decide as Heq; [discriminate|].
    apply Z.leb_le in Hab. rewrite edge_distance_claim in Hab.
    split_and!; [done|done|]. by exists a, b.
  - intros [Hl [Hr [a [b [Ha [Hb [Hab Hd]]]]]]].
    split; [|done]. exists a. split; [done|]. exists b. split; [done|].
    case_decide; [done|]. apply Z.leb_le. by rewrite edge_distance_claim.
Qed.

Lemma proximity_hit_iff_witness :
  parse_near change_near_query = Ok ("change"%string, 0%nat, qstr "climate change") /\
  exists hits, process_proximity_query test_pkg change_near_query = Ok hits.
Proof.
  assert (H : parse_near change_near_query = Ok ("change"%string, 0%nat, qstr "climate change"))
    by (vm_compute; reflexivity).
  split; [exact H|].
  destruct (proj1 (proximity_hit_iff test_pkg _ _ _ _ H)) as [hits [Hh _]].
  exists hits. exact Hh.
Defined.

(** X24. For a corpus whose document IDs are pairwise distinct,
    building it from the (document, ID) pairs supplied in any two orders
    yields the same package (postings, wildcard map, proximity map and
    metadata), and in that package every posting list, wildcard term list
    and per-document position list is strictly ascending. *)
Theorem create_all_indexes_order_independent
    (docs1 docs2 : list (list string)) (ids1 ids2 : list Z) :
  length ids1 = length docs1 ->
  length ids2 = length docs2 ->
  NoDup ids1 ->
  Permutation (combine docs1 ids1) (combine docs2 ids2) ->
  exists pkg, create_all_indexes docs1 (Some ids1) = Ok pkg /\
              create_all_indexes docs2 (Some ids2) = Ok pkg /\
              package_sorted pkg.
Proof.
  intros Hl1 Hl2 Hnd Hp.
  assert (HN : length docs1 = length docs2).
  { apply Permutation_length in Hp. rewrite !length_combine in Hp. lia. }
  unfold create_all_indexes.
  rewrite (proj2 (Nat.eqb_eq _ _) Hl1), (proj2 (Nat.eqb_eq _ _) Hl2). simpl.
  eexists. split; [reflexivity|]. split.
  - rewrite (index_docs_perm _ _ _ Hp) by (by rewrite map_snd_combine).
    by rewrite HN.
  - eapply (create_all_indexes_sorted docs1 (Some ids1)); [done|].
    unfold create_all_indexes. by rewrite (proj2 (Nat.eqb_eq _ _) Hl1).
Qed.

(** C6. When two documents share an ID, [create_all_indexes] breaks the
    invariants its comments state: the position list of ["a"] in document 0
    is [[0; 0]], which is not strictly ascending (the positions of both
    documents are appended to one list and only sorted), and the stored
    length of document 0 depends on the order in which the two documents
    are supplied (the later one overwrites it), so the package is not
    independent of input order. *)
Theorem create_all_indexes_duplicate_ids_counterexample :
  get_term_positions (pkg_of (create_all_indexes [["a"]; ["a"]]%string (Some [0; 0])))
    (Uni "a") 0 = [0; 0] /\
  ~ StronglySorted Z.lt [0; 0] /\
  create_all_indexes [["a"]; ["a"; "b"]]%string (Some [0; 0])
  <> create_all_indexes [["a"; "b"]; ["a"]]%string (Some [0; 0]).
Proof.
  split; [vm_compute; reflexivity|]. split.
  - intros Hs. inversion Hs as [|? ? _ Hall]; subst.
    inversion Hall; lia.
  - intros H.
    apply (f_equal (fun r => match pkg_meta (pkg_of r) with
                             | Some m => default ∅ (meta_doc_lengths m) !! 0
                             | None => None end)) in H.
    vm_compute in H. discriminate.
Qed.

Lemma create_all_indexes_order_independent_witness :
  exists pkg,
    create_all_indexes [["b"; "a"]; ["a"; "a"]]%string (Some [7; 3]) = Ok pkg /\
    create_all_indexes [["a"; "a"]; ["b"; "a"]]%string (Some [3; 7]) = Ok pkg /\
    package_sorted pkg.
Proof.
  apply create_all_indexes_order_independent.
  - reflexivity.
  - reflexivity.
  - apply NoDup_cons. split; [set_solver|]. apply NoDup_singleton.
  - simpl. apply perm_swap.
Defined.

(** C7. On any package, looking up a key absent from the unified postings,
    a character n-gram absent from the wildcard map, or a (key, doc_id)
    pair absent from the proximity map returns the empty list; the lookups
    are total functions (they never fail). *)
Theorem lookups_default_to_empty (pkg : package) (k : tokgram) (cg : string) (d : Z) :
  (default ∅ (pkg_unified pkg) !! k = None -> get_posting_list pkg k = []) /\
  (default ∅ (pkg_wildcard pkg) !! cg = None -> find_wildcard_matches pkg cg = []) /\
  ((default ∅ (pkg_proximity pkg) !! k ≫= fun docmap => docmap !! d) = None ->
   get_term_positions pkg k d = []).
Proof.
  unfold get_posting_list, find_wildcard_matches, get_term_positions.
  split; [|split]; intros H.
  - by rewrite H.
  - by rewrite H.
  - destruct (default ∅ (pkg_proximity pkg) !! k) as [dm|]; simpl in *; [|done].
    by rewrite H.
Qed.

Lemma lookups_default_to_empty_witness :
  let pkg := pkg_of (create_all_indexes spec_corpus (Some [10; 20; 30])) in
  get_posting_list pkg (Uni "ocean") = [] /\
  find_wildcard_matches pkg "zq$" = [] /\
  get_term_positions pkg (Uni "climate") 40 = [].
Proof.
  intros pkg.
  destruct (lookups_default_to_empty pkg (Uni "ocean") "zq$" 40) as [H1 [H2 _]].
  destruct (lookups_default_to_empty pkg (Uni "climate") "zq$" 40) as [_ [_ H3]].
  split; [apply H1; vm_compute; reflexivity|].
  split; [apply H2; vm_compute; reflexivity|].
  apply H3; vm_compute; reflexivity.
Defined.

(** C8. [detect_query_type] fails (with a reason) on every query that holds
    a [*] together with a [NEAR/<int>] match, the text NEAR, a boolean
    keyword or a double quote, and on every query that holds the text NEAR
    together with a boolean keyword. A query [L NEAR/k R] whose operands are
    non-empty sequences of lower-case words and quoted phrases of one to
    three lower-case words is not rejected as mixed and is classified as
    proximity. *)
Theorem mixed_types_rejected_near_phrases_accepted :
  (forall q,
     (str_has "*" q = true /\
      (near_plain_matches q <> [] \/ str_contains "NEAR" q = true \/
       bool_op_search None (list_ascii_of_string q) = true \/ str_has dq q = true)) \/
     (str_contains "NEAR" q = true /\ bool_op_search None (list_ascii_of_string q) = true) ->
     exists reason, detect_query_type q = Err reason) /\
  (forall L ds R, L <> [] -> R <> [] -> Forall item_ok L -> Forall item_ok R ->
     ds <> [] -> Forall (fun c => is_digit c = true) ds ->
     has_mixed_types (near_query L ds R) = false /\
     detect_query_type (near_query L ds R) = Ok "proximity").
Proof.
  split.
  - intros q Hq. unfold detect_query_type. rewrite (has_mixed_types_spec q Hq).
    destruct (has_unmatched_quotes q), (balanced_parens q), (bad_phrase_lengths q),
      (unknown_op_token q); simpl; eexists; reflexivity.
  - intros L ds R HL0 HR0 HL HR Hds0 Hds. split.
    + by apply near_query_not_mixed.
    + by apply near_query_proximity.
Qed.

Lemma mixed_types_rejected_near_phrases_accepted_witness :
  (exists reason, detect_query_type "climat* AND change" = Err reason) /\
  detect_query_type (near_query [NPhrase ["machine"; "learning"]] ["2"%char] [NWord "algorithms"])
    = Ok "proximity".
Proof.
  split.
  - apply (proj1 mixed_types_rejected_near_phrases_accepted).
    left. split; [reflexivity|]. right. right. left. vm_compute. reflexivity.
  - apply (proj2 mixed_types_rejected_near_phrases_accepted); try discriminate.
    + constructor; [|constructor]. split; [simpl; lia|]. repeat constructor.
    + repeat constructor.
    + repeat constructor.
Defined.

(** C9. BM25 on the corpus of document 0 = [t] (length 1) and document 1 =
    [t] followed by 100 other tokens (length 101): each document holds [t]
    once, the shorter document scores strictly higher and is ranked first,
    for both BM25 method names and both orders of the candidate list. *)
Theorem bm25_shorter_document_ranks_first method ids :
  (method = "bm25" \/ method = "default") -> (ids = [0; 1] \/ ids = [1; 0]) ->
  map (@length string) bm25_corpus = [1; 101]%nat /\
  map (fun doc => count_occ string_dec doc "t") bm25_corpus = [1; 1]%nat /\
  (score_get (method_scores bm25_pkg ["t"] ids method) 1 <
   score_get (method_scores bm25_pkg ["t"] ids method) 0)%R /\
  (rank_documents bm25_pkg ["t"] bm25_corpus ids method).1 = [0; 1].
Proof.
  intros Hm Hids.
  assert (Hin0 : In 0 ids) by (destruct Hids as [-> | ->]; simpl; auto).
  assert (Hin1 : In 1 ids) by (destruct Hids as [-> | ->]; simpl; auto).
  pose proof (bm25_corpus_scores ids method Hm Hin0 Hin1) as Hlt.
  split_and!; [reflexivity|reflexivity|exact Hlt|].
  rewrite rank_documents_eq. cbn [fst].
  set (m := method_scores bm25_pkg ["t"] ids method) in *.
  destruct Hids as [-> | ->]; cbn [sort_list insert_sorted].
  - assert (H01 : rank_leb m 0 1 = true) by (apply rank_leb_spec; by left).
    by rewrite H01.
  - assert (H10 : rank_leb m 1 0 = false).
    { destruct (rank_leb m 1 0) eqn:E; [|done].
      apply rank_leb_spec in E. destruct E as [E|[E _]]; lra. }
    by rewrite H10.
Qed.

Lemma bm25_shorter_document_ranks_first_witness :
  (rank_documents bm25_pkg ["t"] bm25_corpus [1; 0] "bm25").1 = [0; 1].
Proof.
  apply (bm25_shorter_document_ranks_first "bm25" [1; 0]); [by left | by right].
Defined.

(** C10. Whenever [process_boolean_query] returns a set, that set is
    contained in the query universe U (the union of the postings of the
    query's operand tokens), so every returned document contains at least
    one operand of the query. *)
Theorem boolean_result_in_universe (pkg : package) (query : string) (S : gset Z) :
  process_boolean_query pkg query = Ok S ->
  S ⊆ collect_universe pkg (tokenize query) /\
  (forall d, d ∈ S -> exists t, t ∈ tokenize query /\ is_op_or_paren t = false /\
                                d ∈ postings_for_key pkg (bool_as_key t)).
Proof.
  unfold process_boolean_query. intros Hq.
  assert (HS : S ⊆ collect_universe pkg (tokenize query)).
  { destruct (to_rpn (tokenize query)) as [rpn|e] eqn:Hr; [|done].
    apply (to_rpn_loop_ok (tokenize query)) in Hr; [| done | constructor | constructor].
    eapply eval_rpn_loop_subset; [|constructor|exact Hq].
    intros x Hx Hn Ha Ho. eapply Forall_forall in Hr; [|exact Hx].
    destruct Hr as [[o [q [-> Hq']]]|[t [Ht [Hop ->]]]].
    - apply prec_some in Hq' as [-> | [-> | ->]]; done.
    - intros d Hd. apply collect_universe_spec. eauto. }
  split; [done|]. intros d Hd. apply collect_universe_spec. by apply HS.
Qed.

Lemma boolean_result_in_universe_witness :
  process_boolean_query test_pkg "climate AND NOT science" = Ok {[10]} /\
  {[10]} ⊆ collect_universe test_pkg (tokenize "climate AND NOT science").
Proof.
  assert (H : process_boolean_query test_pkg "climate AND NOT science" = Ok {[10]})
    by (vm_compute; reflexivity).
  split; [exact H|]. exact (proj1 (boolean_result_in_universe _ _ _ H)).
Defined.


(** * Further properties of the code *)

(** Properties read off the code beyond the claims: what the index
    builder stores and what the lookups return on a built package, the
    wildcard expansion, the shunting-yard conversion, NEAR/k, the query
    classifier, the ranking and the tokenizer of the evaluation script. *)

(** ** The n-grams of [_token_ngrams] *)

Lemma token_ngrams_from_spec tokens fuel n k i :
  In (k, i) (token_ngrams_from tokens n fuel) <->
  exists m, (n <= m < n + fuel)%nat /\ (i + m <= length tokens)%nat /\
            k = ngram_key tokens m i.
Proof.
  revert n. induction fuel as [|fuel IH]; intros n; simpl.
  - split; [done|]. intros (m & Hm & _). lia.
  - destruct (Nat.ltb_spec (length tokens) n) as [Hlt|Hge].
    + split; [done|]. intros (m & Hm & Hi & _). lia.
    + rewrite in_app_iff, IH, in_map_iff. split.
      * intros [[i' [Heq Hi']]|(m & Hm & Hi & ->)].
        -- injection Heq as <- <-. apply in_seq in Hi'. exists n. split_and!; (lia || done).
        -- exists m. split_and!; (lia || done).
      * intros (m & Hm & Hi & ->). destruct (Nat.eq_dec m n) as [->|Hne].
        -- left. exists i. split; [done|]. apply in_seq. lia.
        -- right. exists m. split_and!; (lia || done).
Qed.

(** ** Substrings *)

Lemma substring_length i n s :
  String.length (substring i n s) = Nat.min n (String.length s - i).
Proof.
  revert i n. induction s as [|c s IH]; intros i n; simpl.
  - destruct i, n; reflexivity.
  - destruct i as [|i].
    + destruct n as [|n]; simpl; [done|]. rewrite IH. lia.
    + rewrite IH. done.
Qed.

Lemma substring_min i n s :
  substring i n s = substring i (Nat.min n (String.length s - i)) s.
Proof.
  revert i n. induction s as [|c s IH]; intros i n; simpl.
  - destruct i, n; reflexivity.
  - destruct i as [|i].
    + destruct n as [|n]; simpl; [done|]. f_equal. rewrite IH. f_equal. lia.
    + apply IH.
Qed.

Lemma str_length_app s1 s2 :
  String.length (s1 ++ s2)%string = (String.length s1 + String.length s2)%nat.
Proof. induction s1; simpl; [reflexivity|lia]. Qed.

Lemma token_ngrams_keys_aux tokens n_max t ts i :
  (In (Uni t, i) (token_ngrams tokens n_max) <->
     (1 <= n_max)%nat /\ (i < length tokens)%nat /\ nth i tokens EmptyString = t) /\
  (In (Tup ts, i) (token_ngrams tokens n_max) <->
     (2 <= length ts <= n_max)%nat /\ (i + length ts <= length tokens)%nat /\
     ts = firstn (length ts) (skipn i tokens)).
Proof.
  unfold token_ngrams. rewrite !token_ngrams_from_spec. split; split.
  - intros (m & Hm & Hi & Hk). unfold ngram_key in Hk.
    destruct (Nat.eqb_spec m 1) as [->|]; [|done]. injection Hk as ->. split_and!; (lia || done).
  - intros (Hn & Hi & <-). exists 1%nat. split_and!; (lia || done).
  - intros (m & Hm & Hi & Hk). unfold ngram_key in Hk.
    destruct (Nat.eqb_spec m 1) as [->|Hm1]; [done|]. injection Hk as ->.
    rewrite length_firstn, length_skipn. rewrite Nat.min_l by lia.
    split_and!; (lia || done).
  - intros (Hl & Hi & Hts). exists (length ts). split_and!; try lia.
    unfold ngram_key. destruct (Nat.eqb_spec (length ts) 1) as [|_]; [lia|]. by f_equal.
Qed.

(** X1. The keys [_token_ngrams] emits are exactly these: the unigram key
    of [t] at position [i] when [n_max >= 1], [i] is an index of the token
    list and the token there is [t]; the tuple key of [ts] at position [i]
    when [2 <= len(ts) <= n_max] and [ts] is the slice [tokens[i:i+len(ts)]]
    lying inside the list. *)
Theorem token_ngrams_keys tokens n_max t ts i :
  (In (Uni t, i) (token_ngrams tokens n_max) <->
     (1 <= n_max)%nat /\ (i < length tokens)%nat /\ nth i tokens EmptyString = t) /\
  (In (Tup ts, i) (token_ngrams tokens n_max) <->
     (2 <= length ts <= n_max)%nat /\ (i + length ts <= length tokens)%nat /\
     ts = firstn (length ts) (skipn i tokens)).
Proof. apply token_ngrams_keys_aux. Qed.

(** X2. [_char_ngrams(term, n_max)] returns exactly the substrings of
    ["$" + term + "$"] of length 1 to [n_max], except the string ["$"]. *)
Theorem char_ngrams_spec term n_max cg :
  In cg (char_ngrams term n_max) <->
  cg <> "$"%string /\ (1 <= String.length cg <= n_max)%nat /\
  exists i, (i + String.length cg <= String.length ("$" ++ term ++ "$"))%nat /\
            substring i (String.length cg) ("$" ++ term ++ "$") = cg.
Proof.
  unfold char_ngrams. set (s := ("$" ++ term ++ "$")%string).
  assert (Hs : String.length s = (String.length term + 2)%nat).
  { unfold s. rewrite !str_length_app. cbn [String.length]. lia. }
  rewrite in_flat_map. split.
  - intros (n & Hn & Hin). apply in_seq in Hn.
    apply in_flat_map in Hin as (i & Hi & Hin). apply in_seq in Hi.
    destruct (String.eqb_spec (substring i n s) "$") as [|Hne]; [done|].
    destruct Hin as [<-|[]]. rewrite substring_length.
    split; [done|]. split; [lia|].
    exists i. split; [lia|]. by rewrite <- substring_min.
  - intros (Hne & Hl & i & Hi & Hsub). exists (String.length cg). split; [apply in_seq; lia|].
    apply in_flat_map. exists i. split; [apply in_seq; lia|].
    rewrite Hsub. destruct (String.eqb_spec cg "$"); [done|]. by left.
Qed.

(** ** What the single pass of [create_all_indexes] records *)

Lemma unified_fold ops st k d :
  d ∈ default ∅ (bs_unified (fold_left apply_op ops st) !! k) <->
  d ∈ default ∅ (bs_unified st !! k) \/ exists p, In (OpNgram k d p) ops.
Proof.
  revert st. induction ops as [|o ops IH]; intros st; simpl.
  - split; [by left|]. intros [H|[p []]]. done.
  - rewrite IH. destruct o as [d0 L|k0 d0 p0|c0 t0]; simpl.
    + split; [intros [H|[p Hp]]; [by left|right; exists p; by right]|].
      intros [H|[p [Hp|Hp]]]; [by left|done|right; by exists p].
    + unfold add_posting. destruct (decide (k0 = k)) as [<-|Hk].
      * rewrite lookup_insert_eq. simpl. rewrite elem_of_union, elem_of_singleton. split.
        -- intros [[->|H]|[p Hp]]; [right; exists p0; by left|by left|right; exists p; by right].
        -- intros [H|[p [Hp|Hp]]]; [by left; right| |right; exists p; done].
           injection Hp as <- _. left; by left.
      * rewrite lookup_insert_ne by done. split.
        -- intros [H|[p Hp]]; [by left|right; exists p; by right].
        -- intros [H|[p [Hp|Hp]]]; [by left|by injection Hp|right; by exists p].
    + split; [intros [H|[p Hp]]; [by left|right; exists p; by right]|].
      intros [H|[p [Hp|Hp]]]; [by left|done|right; by exists p].
Qed.

Lemma wildcard_fold ops st cg t :
  t ∈ default ∅ (bs_wildcard (fold_left apply_op ops st) !! cg) <->
  t ∈ default ∅ (bs_wildcard st !! cg) \/ In (OpWild cg t) ops.
Proof.
  revert st. induction ops as [|o ops IH]; intros st; simpl.
  - split; [by left|]. intros [H|[]]. done.
  - rewrite IH. destruct o as [d0 L|k0 d0 p0|c0 t0]; simpl.
    + split; [intros [H|H]; [by left|right; by right]|].
      intros [H|[Hp|Hp]]; [by left|done|by right].
    + split; [intros [H|H]; [by left|right; by right]|].
      intros [H|[Hp|Hp]]; [by left|done|by right].
    + unfold add_wild. destruct (decide (c0 = cg)) as [<-|Hc].
      * rewrite lookup_insert_eq. simpl. rewrite elem_of_union, elem_of_singleton. split.
        -- intros [[->|H]|H]; [right; by left|by left|right; by right].
        -- intros [H|[Hp|Hp]]; [by left; right| |by right].
           injection Hp as <-. left; by left.
      * rewrite lookup_insert_ne by done. split.
        -- intros [H|H]; [by left|right; by right].
        -- intros [H|[Hp|Hp]]; [by left|by injection Hp|by right].
Qed.

Lemma doc_ops_ngram tokens did k d p :
  In (OpNgram k d p) (doc_ops tokens did) <->
  d = did /\ exists i, In (k, i) (token_ngrams tokens NGRAMS_MAX) /\ p = Z.of_nat i.
Proof.
  unfold doc_ops. simpl. rewrite in_app_iff, in_map_iff, in_flat_map. split.
  - intros [Heq|[[[k' i] [Heq Hin]]|[t [_ Hin]]]]; [done| |].
    + injection Heq as <- <- <-. split; [done|]. by exists i.
    + apply in_map_iff in Hin as [c [? _]]. done.
  - intros [-> [i [Hin ->]]]. right; left. exists (k, i). done.
Qed.

Lemma doc_ops_wild tokens did cg t :
  In (OpWild cg t) (doc_ops tokens did) <->
  In t tokens /\ In cg (char_ngrams t CHAR_NGRAMS_MAX).
Proof.
  unfold doc_ops. simpl. rewrite in_app_iff, in_map_iff, in_flat_map. split.
  - intros [Heq|[[[k' i] [Heq _]]|[t' [Ht Hin]]]]; [done|done|].
    apply in_map_iff in Hin as [c [Heq Hin]]. injection Heq as -> ->.
    apply list_elem_of_In in Ht. rewrite elem_of_elements, elem_of_list_to_set in Ht.
    split; [by apply list_elem_of_In|done].
  - intros [Ht Hc]. right; right. exists t. split.
    + apply list_elem_of_In. rewrite elem_of_elements, elem_of_list_to_set.
      by apply list_elem_of_In.
    + apply in_map_iff. by exists cg.
Qed.

Lemma unified_index_docs P st k d :
  d ∈ default ∅ (bs_unified (index_docs st P) !! k) <->
  d ∈ default ∅ (bs_unified st !! k) \/
  exists tokens i, In (tokens, d) P /\ In (k, i) (token_ngrams tokens NGRAMS_MAX).
Proof.
  revert st. induction P as [|[tokens did] P IH]; intros st; simpl.
  - split; [by left|]. intros [H|(? & ? & [] & _)]. done.
  - rewrite IH. unfold index_doc. rewrite unified_fold. split.
    + intros [[H|[p Hp]]|(t & i & Hin & Hk)].
      * by left.
      * apply doc_ops_ngram in Hp as [-> [i [Hi _]]]. right. exists tokens, i. by split; [left|].
      * right. exists t, i. by split; [right|].
    + intros [H|(t & i & [Heq|Hin] & Hk)].
      * by left; left.
      * injection Heq as -> ->. left; right. exists (Z.of_nat i).
        apply doc_ops_ngram. split; [done|]. by exists i.
      * right. by exists t, i.
Qed.

Lemma wildcard_index_docs P st cg t :
  t ∈ default ∅ (bs_wildcard (index_docs st P) !! cg) <->
  t ∈ default ∅ (bs_wildcard st !! cg) \/
  exists tokens d, In (tokens, d) P /\ In t tokens /\ In cg (char_ngrams t CHAR_NGRAMS_MAX).
Proof.
  revert st. induction P as [|[tokens did] P IH]; intros st; simpl.
  - split; [by left|]. intros [H|(? & ? & [] & _)]. done.
  - rewrite IH. unfold index_doc. rewrite wildcard_fold. split.
    + intros [[H|Hp]|(ts & d & Hin & Ht)].
      * by left.
      * apply doc_ops_wild in Hp. right. exists tokens, did. by split; [left|].
      * right. exists ts, d. by split; [right|].
    + intros [H|(ts & d & [Heq|Hin] & Ht)].
      * by left; left.
      * injection Heq as -> ->. left; right. by apply doc_ops_wild.
      * right. by exists ts, d.
Qed.

Lemma positions_index_docs P st k d :
  positions_at (bs_proximity (index_docs st P)) k d =
  positions_at (bs_proximity st) k d ++
  flat_map (fun '(tokens, did) =>
              if bool_decide (did = d) then ngram_positions k (token_ngrams tokens NGRAMS_MAX)
              else []) P.
Proof.
  revert st. induction P as [|[tokens did] P IH]; intros st; simpl.
  - by rewrite app_nil_r.
  - rewrite IH. unfold index_doc. rewrite positions_at_fold, prox_contrib_doc_ops.
    by rewrite app_assoc.
Qed.

Lemma ngram_positions_spec k ng p :
  In p (ngram_positions k ng) <-> exists i, In (k, i) ng /\ p = Z.of_nat i.
Proof.
  unfold ngram_positions. rewrite in_map_iff. split.
  - intros [[k' i] [<- Hin]]. apply filter_In in Hin as [Hin Hk].
    apply bool_decide_eq_true in Hk. simpl in Hk. subst. by exists i.
  - intros [i [Hin ->]]. exists (k, i). split; [done|].
    apply filter_In. split; [done|]. by apply bool_decide_eq_true.
Qed.

Lemma sorted_Z_In l x : In x (sorted_Z l) <-> In x l.
Proof. split; apply Permutation_in; [|symmetry]; apply sorted_Z_perm. Qed.

Lemma sorted_str_In l x : In x (sorted_str l) <-> In x l.
Proof.
  assert (Hp : Permutation (sorted_str l) l)
    by apply sort_list_perm.
  split; apply Permutation_in; [|symmetry]; apply Hp.
Qed.

Lemma finalize_postings N st k d :
  In d (get_posting_list (finalize N st) k) <-> d ∈ default ∅ (bs_unified st !! k).
Proof.
  unfold get_posting_list, finalize. simpl. rewrite lookup_fmap.
  destruct (bs_unified st !! k) as [v|]; simpl.
  - rewrite sorted_Z_In, <- list_elem_of_In. apply elem_of_elements.
  - split; [done|]. set_solver.
Qed.

Lemma finalize_wildcard N st cg t :
  In t (find_wildcard_matches (finalize N st) cg) <-> t ∈ default ∅ (bs_wildcard st !! cg).
Proof.
  unfold find_wildcard_matches, finalize. simpl. rewrite lookup_fmap.
  destruct (bs_wildcard st !! cg) as [v|]; simpl.
  - rewrite sorted_str_In, <- list_elem_of_In. apply elem_of_elements.
  - split; [done|]. set_solver.
Qed.

Lemma finalize_positions N st k d :
  get_term_positions (finalize N st) k d = sorted_Z (positions_at (bs_proximity st) k d).
Proof.
  unfold get_term_positions, finalize, positions_at. simpl. rewrite lookup_fmap.
  destruct (bs_proximity st !! k) as [dm|]; simpl; [|done].
  rewrite lookup_fmap. by destruct (dm !! d).
Qed.


Lemma create_all_indexes_Ok docs doc_ids pkg :
  create_all_indexes docs doc_ids = Ok pkg ->
  length (ids_used docs doc_ids) = length docs /\
  pkg = finalize (Z.of_nat (length docs))
                 (index_docs empty_state (combine docs (ids_used docs doc_ids))).
Proof.
  unfold create_all_indexes, ids_used.
  set (ids := match doc_ids with Some l => l | None => _ end).
  replace (default _ doc_ids) with ids by (by destruct doc_ids).
  destruct (Nat.eqb_spec (length ids) (length docs)); simpl; [|done].
  intros [= <-]. done.
Qed.

(** The updates after the first one of [doc_ops] leave the lengths alone. *)
Lemma fold_no_length ops st :
  Forall (fun o => match o with OpLength _ _ => False | _ => True end) ops ->
  bs_doc_lengths (fold_left apply_op ops st) = bs_doc_lengths st /\
  bs_total_len (fold_left apply_op ops st) = bs_total_len st.
Proof.
  revert st. induction ops as [|o ops IH]; intros st Hf; simpl; [done|].
  apply Forall_cons in Hf as [Ho Hf]. rewrite (proj1 (IH _ Hf)), (proj2 (IH _ Hf)).
  destruct o; simpl; done.
Qed.

Lemma index_doc_lengths st tokens did :
  bs_doc_lengths (index_doc st tokens did) =
    <[did := Z.of_nat (length tokens)]> (bs_doc_lengths st) /\
  bs_total_len (index_doc st tokens did) = bs_total_len st + Z.of_nat (length tokens).
Proof.
  unfold index_doc, doc_ops. cbn [fold_left].
  apply fold_no_length. apply Forall_app. split.
  - apply Forall_forall. intros o Ho. apply list_elem_of_In, in_map_iff in Ho as [[k p] [<- _]]. done.
  - apply Forall_forall. intros o Ho. apply list_elem_of_In, in_flat_map in Ho as [t [_ Ho]].
    apply in_map_iff in Ho as [c [<- _]]. done.
Qed.

Lemma index_docs_lengths P st d L :
  bs_doc_lengths (index_docs st P) !! d = Some L ->
  bs_doc_lengths st !! d = Some L \/
  exists tokens, In (tokens, d) P /\ L = Z.of_nat (length tokens).
Proof.
  revert st. induction P as [|[tokens did] P IH]; intros st H; simpl in *; [by left|].
  apply IH in H as [H|(t & Hin & ->)]; [|right; exists t; by split; [right|]].
  rewrite (proj1 (index_doc_lengths _ _ _)) in H.
  destruct (decide (did = d)) as [<-|Hne].
  - rewrite lookup_insert_eq in H. injection H as <-. right. exists tokens. by split; [left|].
  - rewrite lookup_insert_ne in H by done. by left.
Qed.

Lemma index_docs_lengths_some P st tokens d :
  (is_Some (bs_doc_lengths st !! d) \/ In (tokens, d) P) ->
  is_Some (bs_doc_lengths (index_docs st P) !! d).
Proof.
  revert st. induction P as [|[t did] P IH]; intros st H; simpl in *.
  - by destruct H.
  - apply IH. rewrite (proj1 (index_doc_lengths _ _ _)).
    destruct (decide (did = d)) as [<-|Hne].
    + left. rewrite lookup_insert_eq. by eexists.
    + rewrite lookup_insert_ne by done.
      destruct H as [H|[Heq|H]]; [by left|congruence|by right].
Qed.

Lemma create_all_indexes_postings_aux docs doc_ids pkg k d :
  create_all_indexes docs doc_ids = Ok pkg ->
  (In d (get_posting_list pkg k) <->
   exists tokens i, In (tokens, d) (combine docs (ids_used docs doc_ids)) /\
                    In (k, i) (token_ngrams tokens NGRAMS_MAX)).
Proof.
  intros [_ ->]%create_all_indexes_Ok.
  rewrite finalize_postings, unified_index_docs. simpl. rewrite lookup_empty. simpl.
  split; [intros [H|H]; [set_solver|done]|by right].
Qed.

Lemma create_all_indexes_positions_aux docs doc_ids pkg k d p :
  create_all_indexes docs doc_ids = Ok pkg ->
  (In p (get_term_positions pkg k d) <->
   exists tokens i, In (tokens, d) (combine docs (ids_used docs doc_ids)) /\
                    In (k, i) (token_ngrams tokens NGRAMS_MAX) /\ p = Z.of_nat i).
Proof.
  intros [_ ->]%create_all_indexes_Ok.
  rewrite finalize_positions, sorted_Z_In, positions_index_docs.
  unfold positions_at. simpl. rewrite lookup_empty. simpl.
  rewrite in_flat_map. split.
  - intros [[tokens did] [Hin Hp]]. case_bool_decide as Hd; [|done]. subst did.
    apply ngram_positions_spec in Hp as [i [Hk ->]]. by exists tokens, i.
  - intros (tokens & i & Hin & Hk & ->). exists (tokens, d). split; [done|].
    rewrite bool_decide_true by done. apply ngram_positions_spec. by exists i.
Qed.

(** X3. In a package built by [create_all_indexes], the posting list of
    any key [k] (a token or a tuple of 2 or 3 tokens) holds document ID [d]
    exactly when some supplied document with ID [d] has [k] among its token
    n-grams, at some position. *)
Theorem create_all_indexes_postings_spec docs doc_ids pkg k d :
  create_all_indexes docs doc_ids = Ok pkg ->
  (In d (get_posting_list pkg k) <->
   exists tokens i, In (tokens, d) (combine docs (ids_used docs doc_ids)) /\
                    In (k, i) (token_ngrams tokens NGRAMS_MAX)).
Proof. apply create_all_indexes_postings_aux. Qed.

(** X4. In a package built by [create_all_indexes], the positions stored
    for key [k] in document [d] are exactly the start positions of [k]
    among the n-grams of the supplied documents with ID [d]. *)
Theorem create_all_indexes_positions_spec docs doc_ids pkg k d p :
  create_all_indexes docs doc_ids = Ok pkg ->
  (In p (get_term_positions pkg k d) <->
   exists tokens i, In (tokens, d) (combine docs (ids_used docs doc_ids)) /\
                    In (k, i) (token_ngrams tokens NGRAMS_MAX) /\ p = Z.of_nat i).
Proof. apply create_all_indexes_positions_aux. Qed.

(** X5. In a package built by [create_all_indexes], the wildcard map
    lists term [t] under the character n-gram [cg] exactly when [t] is a
    token of a supplied document and [cg] is one of the character n-grams
    of [t] (up to length 3). *)
Theorem create_all_indexes_wildcard_spec docs doc_ids pkg cg t :
  create_all_indexes docs doc_ids = Ok pkg ->
  (In t (find_wildcard_matches pkg cg) <->
   exists tokens d, In (tokens, d) (combine docs (ids_used docs doc_ids)) /\ In t tokens /\
                    In cg (char_ngrams t CHAR_NGRAMS_MAX)).
Proof.
  intros [_ ->]%create_all_indexes_Ok.
  rewrite finalize_wildcard, wildcard_index_docs. simpl. rewrite lookup_empty. simpl.
  split; [intros [H|H]; [set_solver|done]|by right].
Qed.

(** X6. In a package built by [create_all_indexes], the posting list of a
    single term [t] holds exactly the IDs of the supplied documents that
    contain [t], and the positions of [t] in document [d] are exactly the
    indices at which a document with ID [d] has the token [t]. *)
Theorem create_all_indexes_term_lookup docs doc_ids pkg t d p :
  create_all_indexes docs doc_ids = Ok pkg ->
  (In d (get_posting_list pkg (Uni t)) <->
   exists tokens, In (tokens, d) (combine docs (ids_used docs doc_ids)) /\ In t tokens) /\
  (In p (get_term_positions pkg (Uni t) d) <->
   exists tokens, In (tokens, d) (combine docs (ids_used docs doc_ids)) /\
                  0 <= p /\ (Z.to_nat p < length tokens)%nat /\
                  nth (Z.to_nat p) tokens EmptyString = t).
Proof.
  intros Hc. rewrite (create_all_indexes_postings_aux _ _ _ _ _ Hc).
  rewrite (create_all_indexes_positions_aux _ _ _ _ _ _ Hc).
  assert (HU : forall tokens i, In (Uni t, i) (token_ngrams tokens NGRAMS_MAX) <->
                                (i < length tokens)%nat /\ nth i tokens EmptyString = t).
  { intros tokens i. rewrite (proj1 (token_ngrams_keys_aux tokens NGRAMS_MAX t [] i)).
    unfold NGRAMS_MAX. split; [intros (_ & ? & ?)|intros [? ?]; split_and!]; (done || lia). }
  split; split.
  - intros (tokens & i & Hin & Hk). apply HU in Hk as (Hi & <-).
    exists tokens. split; [done|]. apply nth_In. lia.
  - intros (tokens & Hin & Ht). apply In_nth with (d := EmptyString) in Ht as (i & Hi & <-).
    exists tokens, i. split; [done|]. by apply HU.
  - intros (tokens & i & Hin & Hk & ->). apply HU in Hk as (Hi & <-).
    exists tokens. rewrite Nat2Z.id. split_and!; (done || lia).
  - intros (tokens & Hin & Hp & Hi & <-). exists tokens, (Z.to_nat p). split; [done|].
    split; [by apply HU|lia].
Qed.

(** X7. The metadata of a package built by [create_all_indexes], as
    [_load_meta] reads it: [N] is the number of documents, [avgdl] is 0
    for an empty corpus, every stored document length is the token count
    of a supplied document with that ID, and every supplied ID has one. *)
Theorem create_all_indexes_meta docs doc_ids pkg :
  create_all_indexes docs doc_ids = Ok pkg ->
  lm_N (load_meta pkg) = Z.of_nat (length docs) /\
  (docs = [] -> lm_avgdl (load_meta pkg) = 0%Q) /\
  (forall d L, lm_doc_lengths (load_meta pkg) !! d = Some L ->
     exists tokens, In (tokens, d) (combine docs (ids_used docs doc_ids)) /\ L = Z.of_nat (length tokens)) /\
  (forall tokens d, In (tokens, d) (combine docs (ids_used docs doc_ids)) ->
     is_Some (lm_doc_lengths (load_meta pkg) !! d)).
Proof.
  intros [Hl ->]%create_all_indexes_Ok. unfold load_meta, finalize. cbn -[Qdiv].
  split_and!.
  - done.
  - intros ->. reflexivity.
  - intros d L H. apply index_docs_lengths in H as [H|H]; [|done].
    simpl in H. by rewrite lookup_empty in H.
  - intros tokens d Hin. apply (index_docs_lengths_some _ _ tokens). by right.
Qed.

(** ** Wildcard grams and expansion *)

Lemma dedupe_fold grams out :
  NoDup out -> (forall g, In g out -> g <> EmptyString /\ g <> "$"%string) ->
  let r := fold_left (fun out g =>
             if String.eqb g EmptyString || String.eqb g "$" || existsb (String.eqb g) out
             then out else g :: out) grams out in
  NoDup r /\ (forall g, In g r <-> In g out \/ (In g grams /\ g <> EmptyString /\ g <> "$"%string)).
Proof.
  revert out. induction grams as [|g0 grams IH]; intros out Hnd Hok; simpl.
  - split; [done|]. intros g. split; [by left|]. intros [H|[[] _]]. done.
  - destruct (String.eqb_spec g0 EmptyString) as [->|H1]; simpl.
    { destruct (IH out Hnd Hok) as [Hr Hin]. split; [done|]. intros g. rewrite Hin.
      split; [intros [H|(Hg & Ha & Hb)]; [by left|right; split_and!; [by right|done|done]]|].
      intros [H|[[<-|H] H']]; [by left|by destruct H'|right; done]. }
    destruct (String.eqb_spec g0 "$") as [->|H2]; simpl.
    { destruct (IH out Hnd Hok) as [Hr Hin]. split; [done|]. intros g. rewrite Hin.
      split; [intros [H|(Hg & Ha & Hb)]; [by left|right; split_and!; [by right|done|done]]|].
      intros [H|[[<-|H] H']]; [by left|by destruct H'|right; done]. }
    destruct (existsb (String.eqb g0) out) eqn:He.
    + destruct (IH out Hnd Hok) as [Hr Hin]. split; [done|]. intros g. rewrite Hin.
      split; [intros [H|(Hg & Ha & Hb)]; [by left|right; split_and!; [by right|done|done]]|].
      intros [H|[[<-|H] H']]; [by left| |right; done].
      left. apply existsb_exists in He as [x [Hx Hxe]]. apply String.eqb_eq in Hxe. by subst.
    + assert (Hn : ~ In g0 out).
      { intros Hi. assert (existsb (String.eqb g0) out = true) as Ht
          by (apply existsb_exists; exists g0; split; [done|apply String.eqb_refl]).
        congruence. }
      destruct (IH (g0 :: out)) as [Hr Hin].
      * constructor; [by rewrite list_elem_of_In|done].
      * intros g [<-|Hg]; [done|by apply Hok].
      * split; [done|]. intros g. rewrite Hin. simpl.
        split; [intros [[<-|H]|(Hg & Ha & Hb)]; [right; split_and!; (by left) || done|by left|right; split_and!; [by right|done|done]]|].
        intros [H|[[<-|H] H']]; [by left; right|by left; left|right; done].
Qed.

Lemma dedupe_grams_spec grams :
  NoDup (dedupe_grams grams) /\
  (forall g, In g (dedupe_grams grams) <-> In g grams /\ g <> EmptyString /\ g <> "$"%string).
Proof.
  unfold dedupe_grams. destruct (dedupe_fold grams [] (NoDup_nil_2)) as [Hnd Hin]; [done|].
  split; [apply NoDup_ListNoDup, NoDup_rev, NoDup_ListNoDup; done|]. intros g. rewrite <- in_rev, Hin. split; [|by right].
  by intros [[]|H].
Qed.

(** X8. The n-grams [_pattern_to_ngrams] returns have no duplicates, and
    none is empty, equal to ["$"] or longer than 3 characters. *)
Theorem pattern_to_ngrams_grams pat :
  NoDup (pattern_to_ngrams pat) /\
  forall g, In g (pattern_to_ngrams pat) ->
    g <> EmptyString /\ g <> "$"%string /\ (String.length g <= 3)%nat.
Proof.
  unfold pattern_to_ngrams. cbv zeta.
  match goal with |- context [dedupe_grams ?l] => destruct (dedupe_grams_spec l) as [Hnd Hin] end.
  split; [done|]. intros g Hg. apply Hin in Hg as (Hg & H1 & H2). split_and!; [done|done|].
  rewrite !in_app_iff in Hg. destruct Hg as [Hg|[Hg|Hg]].
  - destruct (negb (str_startswith "*" pat)); [|done]. apply in_flat_map in Hg as [L [HL Hg]].
    destruct (L <=? _)%nat; [|done]. destruct Hg as [<-|[]].
    rewrite str_length_app, substring_length. cbn [String.length].
    destruct HL as [<-|[<-|[]]]; lia.
  - destruct (negb (str_endswith "*" pat)); [|done]. apply in_flat_map in Hg as [L [HL Hg]].
    destruct (L <=? _)%nat; [|done]. destruct Hg as [<-|[]].
    rewrite str_length_app, substring_length. cbn [String.length].
    destruct HL as [<-|[<-|[]]]; lia.
  - apply in_flat_map in Hg as [L [HL Hg]]. apply in_map_iff in Hg as [i [<- _]].
    rewrite substring_length. destruct HL as [<-|[<-|[<-|[]]]]; lia.
Qed.

Lemma expand_fold pkg rest (cands : gset string) t :
  t ∈ fold_left (fun cands g =>
                   if decide (cands = ∅) then cands
                   else cands ∩ list_to_set (find_wildcard_matches pkg g)) rest cands ->
  t ∈ cands /\ forall g, In g rest -> In t (find_wildcard_matches pkg g).
Proof.
  revert cands. induction rest as [|g rest IH]; intros cands H; simpl in *.
  - split; [done|]. by intros g [].
  - destruct (decide (cands = ∅)) as [->|Hne].
    + apply IH in H as [H _]. set_solver.
    + apply IH in H as [H Hr]. apply elem_of_intersection in H as [Hc Hg].
      split; [done|]. intros g' [<-|Hg'].
      * apply list_elem_of_In. by apply elem_of_list_to_set in Hg.
      * by apply Hr.
Qed.

Lemma expand_terms_sound pkg pat t :
  In t (expand_terms pkg pat) ->
  glob_match pat t = true /\
  forall g, In g (pattern_to_ngrams pat) -> In t (find_wildcard_matches pkg g).
Proof.
  unfold expand_terms. destruct (pattern_to_ngrams pat) as [|g0 rest] eqn:Hg; [done|].
  intros Ht. apply sorted_str_In, filter_In in Ht as [Ht Hm]. split; [done|].
  apply list_elem_of_In, elem_of_elements, expand_fold in Ht as [H0 Hr].
  intros g [<-|Hg']; [|by apply Hr].
  apply list_elem_of_In. by apply elem_of_list_to_set in H0.
Qed.

Lemma union_postings_fold pkg terms (acc : gset Z) d :
  d ∈ fold_left (fun results t => results ∪ list_to_set (get_posting_list pkg (Uni t))) terms acc <->
  d ∈ acc \/ exists t, In t terms /\ In d (get_posting_list pkg (Uni t)).
Proof.
  revert acc. induction terms as [|t terms IH]; intros acc; simpl.
  - split; [by left|]. by intros [H|(? & [] & _)].
  - rewrite IH, elem_of_union, elem_of_list_to_set, list_elem_of_In. split.
    + intros [[H|H]|(t' & Ht' & Hd)]; [by left|right; exists t; by split; [left|]|].
      right. exists t'. by split; [right|].
    + intros [H|(t' & [<-|Ht'] & Hd)]; [by left; left|by left; right|right; by exists t'].
Qed.

Lemma process_wildcard_query_sound_aux pkg pat d :
  d ∈ process_wildcard_query pkg pat ->
  str_has "*" pat = true /\
  exists t, glob_match pat t = true /\ In d (get_posting_list pkg (Uni t)) /\
            forall g, In g (pattern_to_ngrams pat) -> In t (find_wildcard_matches pkg g).
Proof.
  unfold process_wildcard_query.
  destruct (str_has "*" pat); simpl; [|set_solver].
  destruct (String.eqb (strip pat) EmptyString); simpl; [set_solver|].
  intros Hd. split; [done|].
  apply union_postings_fold in Hd as [Hd|(t & Ht & Hd)]; [set_solver|].
  apply expand_terms_sound in Ht as [Hm Hg]. by exists t.
Qed.

(** X9. Every document [process_wildcard_query] returns is in the posting
    list of a term [t] that matches the pattern as a glob and that the
    wildcard map lists under every n-gram of the pattern; the pattern holds
    a [*] (a pattern without one gives the empty set). *)
Theorem process_wildcard_query_sound pkg pat d :
  d ∈ process_wildcard_query pkg pat ->
  str_has "*" pat = true /\
  exists t, glob_match pat t = true /\ In d (get_posting_list pkg (Uni t)) /\
            forall g, In g (pattern_to_ngrams pat) -> In t (find_wildcard_matches pkg g).
Proof. apply process_wildcard_query_sound_aux. Qed.

(** X10. On a package built by [create_all_indexes], every document that
    [process_wildcard_query] returns holds a token that matches the
    pattern as a glob. *)
Theorem process_wildcard_query_built_sound docs doc_ids pkg pat d :
  create_all_indexes docs doc_ids = Ok pkg ->
  d ∈ process_wildcard_query pkg pat ->
  exists tokens t, In (tokens, d) (combine docs (ids_used docs doc_ids)) /\ In t tokens /\
                   glob_match pat t = true.
Proof.
  intros Hc Hd. apply process_wildcard_query_sound_aux in Hd as (_ & t & Hm & Hp & _).
  apply (create_all_indexes_postings_aux _ _ _ _ _ Hc) in Hp as (tokens & i & Hin & Hk).
  apply (proj1 (proj1 (token_ngrams_keys_aux tokens NGRAMS_MAX t [] i))) in Hk as (_ & Hi & Ht).
  exists tokens, t. split_and!; [done| |done]. rewrite <- Ht. by apply nth_In.
Qed.

(** ** [_to_rpn] fails exactly on unbalanced parenthesis tokens *)


Lemma prec_not_paren t q : prec t = Some q -> String.eqb t "(" = false /\ String.eqb t ")" = false.
Proof. intros H. apply prec_some in H as [-> | [-> | ->]]; done. Qed.

Lemma pop_ops_open cond ops out ops' out' :
  pop_ops cond ops out = (ops', out') ->
  count_open ops' = count_open ops /\
  (Forall (fun o => o <> ")"%string) ops -> Forall (fun o => o <> ")"%string) ops').
Proof.
  revert out. induction ops as [|o ops IH]; intros out H; simpl in H.
  - by injection H as <- <-.
  - destruct (prec o) as [q|] eqn:Hq; [|by injection H as <- <-].
    destruct (cond q); [|by injection H as <- <-].
    apply IH in H as [Hc Hf]. unfold count_open in *. simpl.
    rewrite (proj1 (prec_not_paren _ _ Hq)). split; [done|].
    intros Ho. apply Hf. by apply Forall_cons in Ho as [_ ?].
Qed.

Lemma pop_to_paren_open ops out ops' out' :
  Forall (fun o => o <> ")"%string) ops ->
  pop_to_paren ops out = (ops', out') ->
  (count_open ops = 0%nat /\ ops' = []) \/
  (exists ops'', ops' = "(" :: ops'' /\ S (count_open ops'') = count_open ops /\
                 Forall (fun o => o <> ")"%string) ops'').
Proof.
  revert out. induction ops as [|o ops IH]; intros out Hf H; simpl in H.
  - injection H as <- <-. by left.
  - apply Forall_cons in Hf as [Ho Hf]. unfold count_open in *. simpl.
    destruct (String.eqb_spec o "(") as [->|Hne].
    + injection H as <- <-. right. by exists ops.
    + apply IH in H as [[Hc ->]|(ops'' & -> & Hc & Hf')]; [| |done].
      * left. by rewrite Hc.
      * right. by exists ops''.
Qed.

Lemma flush_ops_open ops out :
  Forall (fun o => o <> ")"%string) ops ->
  ((exists r, flush_ops ops out = Ok r) <-> count_open ops = 0%nat) /\
  (forall e, flush_ops ops out = Err e -> e = "Unbalanced parentheses"%string).
Proof.
  revert out. induction ops as [|o ops IH]; intros out Hf; simpl.
  - split; [split; [done|by eexists]|done].
  - apply Forall_cons in Hf as [Ho Hf]. unfold count_open in *. simpl.
    destruct (String.eqb_spec o "(") as [->|Hne]; simpl.
    + split; [split; [by intros [? ?]|done]|by intros e [= <-]].
    + destruct (String.eqb_spec o ")"); [done|]. simpl. apply IH. done.
Qed.

Lemma balanced_go_other c a l :
  Ascii.eqb a "(" = false -> Ascii.eqb a ")" = false -> balanced_go c (a :: l) = balanced_go c l.
Proof. intros H1 H2. simpl. by rewrite H1, H2. Qed.

Lemma to_rpn_loop_balanced tokens ops out :
  Forall (fun o => o <> ")"%string) ops ->
  ((exists r, to_rpn_loop tokens ops out = Ok r) <->
   balanced_go (Z.of_nat (count_open ops)) (map paren_of_token tokens) = true) /\
  (forall e, to_rpn_loop tokens ops out = Err e -> e = "Unbalanced parentheses"%string).
Proof.
  revert ops out. induction tokens as [|t rest IH]; intros ops out Hf; cbn [map to_rpn_loop].
  - destruct (flush_ops_open ops out Hf) as [H1 H2]. rewrite H1. split; [|done]. simpl.
    split; [intros ->; done|]. intros H. apply Z.eqb_eq in H. lia.
  - unfold paren_of_token at 1.
    destruct (String.eqb_spec t "(") as [->|Hop].
    + simpl. replace (Z.of_nat (count_open ops) + 1) with (Z.of_nat (count_open ("(" :: ops)))
        by (unfold count_open; simpl; lia).
      apply IH. by constructor.
    + destruct (String.eqb_spec t ")") as [->|Hcl].
      * simpl. destruct (pop_to_paren ops out) as [ops' out'] eqn:Hp.
        apply (pop_to_paren_open _ _ _ _ Hf) in Hp as [[Hc ->]|(ops'' & -> & Hc & Hf'')].
        -- rewrite Hc. split; [|by intros e [= <-]]. split; [by intros [? ?]|done].
        -- rewrite <- Hc. rewrite (proj2 (Z.ltb_ge _ _)) by lia.
           replace (Z.of_nat (S (count_open ops'')) - 1) with (Z.of_nat (count_open ops'')) by lia.
           by apply IH.
      * rewrite balanced_go_other by done.
        destruct (prec t) as [p|] eqn:Hq.
        -- destruct (if String.eqb t "NOT" then _ else _) as [ops' out'] eqn:Hp.
           assert (Hc : count_open ops' = count_open ops /\ Forall (fun o => o <> ")"%string) ops').
           { destruct (String.eqb t "NOT"); apply pop_ops_open in Hp as [Hc Hf']; auto. }
           destruct Hc as [Hc Hf'].
           replace (count_open ops) with (count_open (t :: ops'))
             by (unfold count_open in *; simpl; apply String.eqb_neq in Hop; by rewrite Hop).
           apply IH. by constructor.
        -- by apply IH.
Qed.

(** X11. [_to_rpn] succeeds exactly when the parenthesis tokens of the
    list, read as characters, are balanced in the sense of
    [_balanced_parens]; when it fails, the error is always Unbalanced
    parentheses. *)
Theorem to_rpn_balanced tokens :
  ((exists rpn, to_rpn tokens = Ok rpn) <->
   balanced_parens (string_of_list_ascii (map paren_of_token tokens)) = true) /\
  (forall e, to_rpn tokens = Err e -> e = "Unbalanced parentheses"%string).
Proof.
  unfold balanced_parens. rewrite list_ascii_of_string_of_list_ascii.
  apply (to_rpn_loop_balanced tokens [] []). constructor.
Qed.

(** ** [NEAR/k] is symmetric and monotone in [k] *)

Lemma edge_distance_sym a b : edge_distance a b = edge_distance b a.
Proof.
  destruct a as [as_ ae], b as [bs_ be]. unfold edge_distance.
  rewrite orb_comm, Z.min_comm. reflexivity.
Qed.

Lemma doc_hit_sym pkg lk rk k did : doc_hit pkg lk rk k did = doc_hit pkg rk lk k did.
Proof.
  unfold doc_hit. apply Bool.eq_iff_eq_true. rewrite !existsb_exists. split.
  - intros (a & Ha & Hb). apply existsb_exists in Hb as (b & Hb & Hab).
    exists b. split; [done|]. apply existsb_exists. exists a. split; [done|].
    destruct (decide (a = b)); [done|]. rewrite decide_False by congruence.
    by rewrite edge_distance_sym.
  - intros (b & Hb & Ha). apply existsb_exists in Ha as (a & Ha & Hab).
    exists a. split; [done|]. apply existsb_exists. exists b. split; [done|].
    destruct (decide (b = a)); [done|]. rewrite decide_False by congruence.
    by rewrite edge_distance_sym.
Qed.

Lemma doc_hit_mono pkg lk rk k1 k2 did :
  (k1 <= k2)%nat -> doc_hit pkg lk rk k1 did = true -> doc_hit pkg lk rk k2 did = true.
Proof.
  intros Hk. unfold doc_hit. rewrite !existsb_exists. intros (a & Ha & Hb).
  exists a. split; [done|]. apply existsb_exists in Hb as (b & Hb & Hab).
  apply existsb_exists. exists b. split; [done|].
  destruct (decide (a = b)); [done|]. apply Z.leb_le in Hab. apply Z.leb_le. lia.
Qed.

(** X12. Swapping the two operands of a NEAR/k query does not change what
    [process_proximity_query] returns. *)
Theorem proximity_operands_commute pkg q1 q2 l k r :
  parse_near q1 = Ok (l, k, r) -> parse_near q2 = Ok (r, k, l) ->
  process_proximity_query pkg q1 = process_proximity_query pkg q2.
Proof.
  intros H1 H2. unfold process_proximity_query. rewrite H1, H2. f_equal.
  apply set_eq. intros d. rewrite !elem_of_filter, !elem_of_intersection, doc_hit_sym.
  tauto.
Qed.

(** X13. Raising the distance k of a NEAR/k query, with the same operands,
    never removes a document from the result of
    [process_proximity_query]. *)
Theorem proximity_monotone_in_k pkg q1 q2 l k1 k2 r S1 S2 :
  parse_near q1 = Ok (l, k1, r) -> parse_near q2 = Ok (l, k2, r) -> (k1 <= k2)%nat ->
  process_proximity_query pkg q1 = Ok S1 -> process_proximity_query pkg q2 = Ok S2 ->
  S1 ⊆ S2.
Proof.
  intros H1 H2 Hk. unfold process_proximity_query. rewrite H1, H2.
  intros [= <-] [= <-] d. rewrite !elem_of_filter. intros [Hh Hd].
  split; [|done]. by apply (doc_hit_mono _ _ _ k1).
Qed.

(** ** Paren balance, quotes and classification *)


Lemma balanced_go_spec l : forall c, 0 <= c ->
  balanced_go c l = true <->
  (forall n, Z.of_nat (closes (firstn n l)) <= c + Z.of_nat (opens (firstn n l))) /\
  c + Z.of_nat (opens l) = Z.of_nat (closes l).
Proof.
  induction l as [|ch l IH]; intros c Hc.
  - cbn [balanced_go]. rewrite Z.eqb_eq. split.
    + intros ->. unfold opens, closes. split; [intros [|n]|]; simpl; lia.
    + intros [_ H]. unfold opens, closes in H. simpl in H. lia.
  - cbn [balanced_go].
    destruct (Ascii.eqb_spec ch "(") as [->|H1].
    + rewrite IH by lia. unfold opens, closes. cbn [firstn count_occ].
      destruct (ascii_dec "(" "(") as [_|]; [|done].
      destruct (ascii_dec "(" ")") as [E|_]; [done|]. split.
      * intros [Hp Ht]. split; [|lia]. intros [|n]; [simpl; lia|].
        cbn [firstn count_occ]. destruct (ascii_dec "(" "("); [|done].
        destruct (ascii_dec "(" ")"); [done|]. specialize (Hp n). lia.
      * intros [Hp Ht]. split; [|lia]. intros n. specialize (Hp (S n)).
        cbn [firstn count_occ] in Hp. destruct (ascii_dec "(" "("); [|done].
        destruct (ascii_dec "(" ")"); [done|]. lia.
    + destruct (Ascii.eqb_spec ch ")") as [->|H2].
      * unfold opens, closes in *. cbn [firstn count_occ].
        destruct (ascii_dec ")" ")") as [_|]; [|done].
        destruct (ascii_dec ")" "(") as [E|_]; [done|].
        destruct (Z.ltb_spec (c - 1) 0) as [Hlt|Hge].
        -- split; [done|]. intros [Hp _]. specialize (Hp 1%nat).
           cbn [firstn count_occ] in Hp. destruct (ascii_dec ")" ")"); [|done].
           destruct (ascii_dec ")" "("); [done|]. simpl in Hp. lia.
        -- rewrite IH by lia. split.
           ++ intros [Hp Ht]. split; [|lia]. intros [|n]; [simpl; lia|].
              cbn [firstn count_occ]. destruct (ascii_dec ")" ")"); [|done].
              destruct (ascii_dec ")" "("); [done|]. specialize (Hp n). lia.
           ++ intros [Hp Ht]. split; [|lia]. intros n. specialize (Hp (S n)).
              cbn [firstn count_occ] in Hp. destruct (ascii_dec ")" ")"); [|done].
              destruct (ascii_dec ")" "("); [done|]. lia.
      * rewrite IH by lia. unfold opens, closes. cbn [firstn count_occ].
        destruct (ascii_dec ch "(") as [|Hn1]; [done|].
        destruct (ascii_dec ch ")") as [|Hn2]; [done|]. split.
        -- intros [Hp Ht]. split; [|lia]. intros [|n]; [simpl; lia|].
           cbn [firstn count_occ]. destruct (ascii_dec ch "(") as [|Hn3]; [done|].
           destruct (ascii_dec ch ")") as [|Hn4]; [done|]. apply Hp.
        -- intros [Hp Ht]. split; [|lia]. intros n. specialize (Hp (S n)).
           cbn [firstn count_occ] in Hp. destruct (ascii_dec ch "(") as [|Hn3]; [done|].
           destruct (ascii_dec ch ")") as [|Hn4]; [done|]. done.
Qed.

(** X14. [_balanced_parens] holds exactly when no prefix of the text has
    more closing than opening parentheses and the text has as many of
    each. *)
Theorem balanced_parens_spec s :
  balanced_parens s = true <->
  (forall n, (closes (firstn n (list_ascii_of_string s)) <= opens (firstn n (list_ascii_of_string s)))%nat) /\
  opens (list_ascii_of_string s) = closes (list_ascii_of_string s).
Proof.
  unfold balanced_parens. rewrite balanced_go_spec by lia. split.
  - intros [Hp Ht]. split; [intros n; specialize (Hp n)|]; lia.
  - intros [Hp Ht]. split; [intros n; specialize (Hp n)|]; lia.
Qed.

(** X15. The unmatched-quote test of a concatenation is the exclusive or
    of the tests of its parts: appending text with an even number of
    double quotes never changes the verdict. *)
Theorem has_unmatched_quotes_app s1 s2 :
  has_unmatched_quotes (s1 ++ s2) = xorb (has_unmatched_quotes s1) (has_unmatched_quotes s2).
Proof.
  unfold has_unmatched_quotes. rewrite list_ascii_of_string_append, count_occ_app, Nat.odd_add.
  by destruct (Nat.odd _), (Nat.odd _).
Qed.

Lemma existsb_negb_forallb {A} (f : A -> bool) l :
  existsb (fun x => negb (f x)) l = negb (forallb f l).
Proof. induction l as [|x l IH]; [done|]. simpl. rewrite IH. by destruct (f x). Qed.

(** X16. A query [detect_query_type] classifies as wildcard holds a [*],
    a character other than [*], no double quote, no whitespace, no text
    NEAR, no NEAR/k match and no AND, OR or NOT keyword. *)
Theorem detect_wildcard_shape q :
  detect_query_type q = Ok "wildcard"%string ->
  str_has "*" q = true /\ str_has dq q = false /\
  existsb is_space (list_ascii_of_string q) = false /\
  existsb (fun c => negb (Ascii.eqb c "*")) (list_ascii_of_string q) = true /\
  str_contains "NEAR" q = false /\ near_plain_matches q = [] /\
  bool_op_search None (list_ascii_of_string q) = false.
Proof.
  unfold detect_query_type.
  destruct (has_unmatched_quotes q); [done|]. destruct (balanced_parens q); [|done].
  destruct (bad_phrase_lengths q); [done|]. destruct (unknown_op_token q); [done|].
  destruct (has_mixed_types q) eqn:Hm; [done|].
  destruct (str_contains "NEAR" q) eqn:Hn; [by destruct (invalid_near q)|].
  destruct (near_plain_matches q) as [|m ms] eqn:Hms; [|by destruct (invalid_near q)]. cbn.
  destruct (str_has "*" q) eqn:Hs; [|by destruct (bool_op_search _ _ || _), (invalid_boolean_structure q)].
  destruct (invalid_wildcard q) eqn:Hw; [done|]. intros _.
  unfold has_mixed_types in Hm. rewrite Hs, Hn, Hms in Hm. cbn in Hm.
  unfold invalid_wildcard in Hw. rewrite Hs in Hw. cbn in Hw.
  destruct (str_has dq q); [done|]. destruct (existsb is_space _); [done|].
  destruct (bool_op_search None _); [done|].
  rewrite existsb_negb_forallb, Hw. done.
Qed.

(** X17. A query [detect_query_type] classifies as boolean has balanced
    quotes and parentheses, no bad phrase, no [*] and no NEAR, and holds
    a keyword or a double quote; its whitespace-split tokens neither start
    with AND or OR nor end with an operator, and no AND or OR is followed
    by AND or OR, and no NOT by an operator. *)
Theorem detect_boolean_shape q :
  detect_query_type q = Ok "boolean"%string ->
  has_unmatched_quotes q = false /\ balanced_parens q = true /\
  bad_phrase_lengths q = false /\ str_has "*" q = false /\
  str_contains "NEAR" q = false /\ near_plain_matches q = [] /\
  (bool_op_search None (list_ascii_of_string q) = true \/ str_has dq q = true) /\
  forall t0 ts, split_ws (strip q) = t0 :: ts ->
    is_op2 t0 = false /\ is_op3 (List.last (t0 :: ts) t0) = false /\ adjacent_bad (t0 :: ts) = false.
Proof.
  unfold detect_query_type.
  destruct (has_unmatched_quotes q) eqn:Hq; [done|]. destruct (balanced_parens q) eqn:Hb; [|done].
  destruct (bad_phrase_lengths q) eqn:Hp; [done|]. destruct (unknown_op_token q); [done|].
  destruct (has_mixed_types q); [done|].
  destruct (str_contains "NEAR" q) eqn:Hn; [by destruct (invalid_near q)|].
  destruct (near_plain_matches q) as [|m ms] eqn:Hms; [|by destruct (invalid_near q)]. cbn.
  destruct (str_has "*" q) eqn:Hs; [by destruct (invalid_wildcard q)|].
  destruct (bool_op_search None _ || str_has dq q) eqn:Hbo; [|done].
  destruct (invalid_boolean_structure q) eqn:Hi; [done|]. intros _.
  split_and!; try done.
  - by apply orb_prop in Hbo.
  - intros t0 ts Ht. unfold invalid_boolean_structure in Hi. rewrite Hq, Hb, Hp, Ht in Hi.
    cbn in Hi. apply orb_false_elim in Hi as [Hi Had]. apply orb_false_elim in Hi as [Hi H2].
    apply orb_false_elim in Hi as [_ H3]. done.
Qed.

(** X18. A query [detect_query_type] classifies as proximity has no [*],
    no AND, OR or NOT keyword, and exactly one NEAR/k match, with
    non-blank text before it and after it. *)
Theorem detect_proximity_shape q :
  detect_query_type q = Ok "proximity"%string ->
  str_has "*" q = false /\ bool_op_search None (list_ascii_of_string q) = false /\
  exists before after, near_plain_matches q = [(before, after)] /\
    strip (string_of_list_ascii before) <> EmptyString /\
    strip (string_of_list_ascii after) <> EmptyString.
Proof.
  unfold detect_query_type.
  destruct (has_unmatched_quotes q); [done|]. destruct (balanced_parens q); [|done].
  destruct (bad_phrase_lengths q); [done|]. destruct (unknown_op_token q); [done|].
  destruct (has_mixed_types q) eqn:Hm; [done|].
  destruct (str_contains "NEAR" q ||
            negb (match near_plain_matches q with [] => true | _ => false end)) eqn:Hn.
  - destruct (invalid_near q) eqn:Hi; [done|]. intros _.
    assert (Hnear : negb (match near_plain_matches q with [] => true | _ => false end)
                    || str_contains "NEAR" q = true) by (rewrite orb_comm; exact Hn).
    unfold has_mixed_types in Hm. cbv zeta in Hm. rewrite Hnear in Hm. cbn in Hm.
    destruct (str_has "*" q); [done|]. destruct (bool_op_search None _); [done|].
    split; [done|]. split; [done|].
    unfold invalid_near in Hi.
    destruct (near_plain_matches q) as [|[before after] [|m' ms]] eqn:Hms.
    + rewrite orb_false_r in Hn. by rewrite Hn in Hi.
    + exists before, after. rewrite andb_false_r in Hi. cbn in Hi.
      apply orb_false_elim in Hi as [H1 H2]. apply String.eqb_neq in H1, H2. done.
    + rewrite andb_false_r in Hi. done.
  - destruct (str_has "*" q); [by destruct (invalid_wildcard q)|].
    by destruct (bool_op_search None _ || _), (invalid_boolean_structure q).
Qed.

(** ** Ranking and tokenizing *)

Lemma ascii_lower_idem c : ascii_lower (ascii_lower c) = ascii_lower c.
Proof. destruct c as [[] [] [] [] [] [] [] []]; vm_compute; reflexivity. Qed.

Lemma str_lower_idem s : str_lower (str_lower s) = str_lower s.
Proof. induction s as [|c s IH]; [done|]. simpl. by rewrite ascii_lower_idem, IH. Qed.

Lemma method_scores_lower pkg q ids m :
  method_scores pkg q ids (str_lower m) = method_scores pkg q ids m.
Proof.
  unfold method_scores. destruct m as [|c m]; [done|].
  change (String.eqb (str_lower (String c m)) "") with false.
  change (String.eqb (String c m) "") with false. cbv iota. by rewrite str_lower_idem.
Qed.

(** X19. [rank_documents] gives the same result for a method name and for
    its lower-cased form. *)
Theorem rank_documents_method_case_insensitive pkg q cands ids m :
  rank_documents pkg q cands ids (str_lower m) = rank_documents pkg q cands ids m.
Proof. unfold rank_documents. by rewrite method_scores_lower. Qed.

Lemma dict_set_in {V} k (v : V) m kv : In kv (dict_set k v m) -> In kv m \/ kv = (k, v).
Proof.
  unfold dict_set. destruct (existsb _ m).
  - intros (x & <- & Hx)%in_map_iff. destruct (String.eqb x.1 k); [by right|by left].
  - intros [H|[<-|[]]]%in_app_or; [by left|by right].
Qed.

Lemma idf_table_entries pkg f q kv :
  In kv (idf_table pkg f q) ->
  In kv.1 q /\ (0 < df pkg kv.1)%nat /\ kv.2 = f (df pkg kv.1).
Proof.
  unfold idf_table.
  assert (Hgen : forall l acc, (forall t, In t l -> In t q) ->
            (forall kv, In kv acc -> In kv.1 q /\ (0 < df pkg kv.1)%nat /\ kv.2 = f (df pkg kv.1)) ->
            forall kv, In kv (fold_left (fun acc t => let d := df pkg t in
                          if (0 <? d)%nat then dict_set t (f d) acc else acc) l acc) ->
            In kv.1 q /\ (0 < df pkg kv.1)%nat /\ kv.2 = f (df pkg kv.1)).
  { induction l as [|t l IH]; intros acc Hl Hacc; [done|]. cbn [fold_left]. apply IH.
    - intros t' Ht'. apply Hl. by right.
    - destruct (Nat.ltb_spec 0 (df pkg t)) as [Hd|Hd]; [|done].
      intros kv' [Hkv| ->]%dict_set_in; [by apply Hacc|]. split_and!; [apply Hl; by left|done|done]. }
  apply Hgen; [done|done].
Qed.

Lemma bm25_doc_score_unmatched pkg idf lm d :
  (forall kv, In kv idf -> tf pkg kv.1 d = 0%nat) -> bm25_doc_score pkg idf lm d = 0%R.
Proof.
  intros H. unfold bm25_doc_score. cbv zeta. generalize 0%R as s0.
  induction idf as [|[t v] idf IH]; intros s0; [done|]. cbn [fold_left].
  pose proof (H (t, v) (or_introl eq_refl)) as Ht. cbn [fst] in Ht. rewrite Ht. cbn [Nat.eqb].
  apply IH. intros kv Hkv. apply H. by right.
Qed.

Lemma tfidf_doc_score_unmatched pkg idf d :
  (forall kv, In kv idf -> tf pkg kv.1 d = 0%nat) -> tfidf_doc_score pkg idf d = 0%R.
Proof.
  intros H. unfold tfidf_doc_score. generalize 0%R as s0.
  induction idf as [|[t v] idf IH]; intros s0; [done|]. cbn [fold_left].
  pose proof (H (t, v) (or_introl eq_refl)) as Ht. cbn [fst] in Ht. rewrite Ht. cbn [Nat.eqb].
  apply IH. intros kv Hkv. apply H. by right.
Qed.

Lemma method_scores_unmatched pkg q ids m d :
  (forall t, In t q -> tf pkg t d = 0%nat) -> score_get (method_scores pkg q ids m) d = 0%R.
Proof.
  intros H.
  assert (Hb : score_get (bm25_scores pkg q ids) d = 0%R).
  { unfold bm25_scores. cbv zeta. set (f := fun d0 : nat => _). destruct (idf_table pkg f q) as [|p l] eqn:Hi;
      [apply score_get_zero_scores|].
    unfold score_get. rewrite fold_insert_lookup. destruct (decide (d ∈ ids)); [|apply score_get_zero_scores].
    cbn [default]. rewrite <- Hi. apply bm25_doc_score_unmatched. intros kv Hkv.
    apply H, (idf_table_entries _ _ _ _ Hkv). }
  assert (Ht : score_get (tfidf_scores pkg q ids) d = 0%R).
  { unfold tfidf_scores. cbv zeta. set (f := fun d0 : nat => _). destruct (idf_table pkg f q) as [|p l] eqn:Hi;
      [apply score_get_zero_scores|].
    unfold score_get. rewrite fold_insert_lookup. destruct (decide (d ∈ ids)); [|apply score_get_zero_scores].
    cbn [default]. rewrite <- Hi. apply tfidf_doc_score_unmatched. intros kv Hkv.
    apply H, (idf_table_entries _ _ _ _ Hkv). }
  unfold method_scores. destruct (_ || _); [done|]. by destruct (String.eqb _ "tfidf").
Qed.

(** X20. A ranked candidate in which no query term occurs gets the score
    0, with every method. *)
Theorem rank_documents_unmatched_scores_zero pkg q cands ids m i d :
  nth_error (rank_documents pkg q cands ids m).1 i = Some d ->
  (forall t, In t q -> tf pkg t d = 0%nat) ->
  nth_error (rank_documents pkg q cands ids m).2 i = Some 0%R.
Proof.
  rewrite rank_documents_eq. cbn [fst snd]. intros Hi H.
  rewrite nth_error_map, Hi. cbn. f_equal. by apply method_scores_unmatched.
Qed.

Lemma ln_nonneg x : (1 <= x)%R -> (0 <= ln x)%R.
Proof.
  intros H. rewrite <- ln_1. destruct (Rle_lt_or_eq_dec 1 x H) as [Hlt|<-]; [|lra].
  apply Rlt_le, ln_increasing; lra.
Qed.

Lemma fold_left_nonneg {A} (F : R -> A -> R) (l : list A) :
  (forall s a, In a l -> (0 <= s)%R -> (0 <= F s a)%R) ->
  forall s, (0 <= s)%R -> (0 <= fold_left F l s)%R.
Proof.
  induction l as [|a l IH]; intros HF s Hs; [done|]. cbn [fold_left].
  apply IH; [intros s' a' Ha'; apply HF; by right|]. apply HF; [by left|done].
Qed.

Lemma bm25_doc_score_nonneg pkg idf lm d :
  (forall kv, In kv idf -> (0 <= kv.2)%R) -> (0 <= bm25_doc_score pkg idf lm d)%R.
Proof.
  intros H. unfold bm25_doc_score. cbv zeta.
  set (dl := Z.max 1 _).
  assert (Hdl : (1 <= IZR dl)%R) by (apply IZR_le; lia).
  set (norm := if Qlt_le_dec 0 (lm_avgdl lm) then _ else 1%R).
  assert (Hn : (0 < norm)%R).
  { unfold norm. destruct (Qlt_le_dec 0 (lm_avgdl lm)) as [Ha|Ha]; [|lra].
    apply Qlt_Rlt in Ha. unfold Q2R at 1 in Ha. simpl in Ha.
    assert (0 < IZR dl / Q2R (lm_avgdl lm))%R.
    { unfold Rdiv. apply Rmult_lt_0_compat; [lra|]. apply Rinv_0_lt_compat. lra. }
    unfold bm25_b. lra. }
  apply fold_left_nonneg; [|lra]. intros s [t v] Hin Hs. cbv beta iota.
  destruct (tf pkg t d =? 0)%nat; [done|].
  pose proof (H _ Hin) as Hv. cbn [snd] in Hv. pose proof (pos_INR (tf pkg t d)).
  assert (0 <= INR (tf pkg t d) * (bm25_k1 + 1) / (INR (tf pkg t d) + bm25_k1 * norm))%R.
  { unfold Rdiv, bm25_k1. apply Rmult_le_pos; [lra|]. apply Rlt_le, Rinv_0_lt_compat. nra. }
  assert (0 <= v * (INR (tf pkg t d) * (bm25_k1 + 1) / (INR (tf pkg t d) + bm25_k1 * norm)))%R
    by (apply Rmult_le_pos; lra).
  lra.
Qed.

Lemma tfidf_doc_score_nonneg pkg idf d :
  (forall kv, In kv idf -> (0 <= kv.2)%R) -> (0 <= tfidf_doc_score pkg idf d)%R.
Proof.
  intros H. unfold tfidf_doc_score.
  apply fold_left_nonneg; [|lra]. intros s [t v] Hin Hs. cbv beta iota.
  destruct (tf pkg t d =? 0)%nat eqn:E; [done|]. apply Nat.eqb_neq in E.
  pose proof (H _ Hin) as Hv. cbn [snd] in Hv.
  assert (1 <= INR (tf pkg t d))%R by (apply (le_INR 1); lia).
  pose proof (ln_nonneg _ H0).
  assert (0 <= (1 + ln (INR (tf pkg t d))) * v)%R by (apply Rmult_le_pos; lra).
  lra.
Qed.

Lemma bm25_idf_nonneg (N : Z) (d : nat) :
  (INR d <= IZR N)%R -> (0 <= ln ((IZR N - INR d + 0.5) / (INR d + 0.5) + 1))%R.
Proof.
  intros H. apply ln_nonneg. pose proof (pos_INR d).
  assert (0 <= (IZR N - INR d + 0.5) / (INR d + 0.5))%R.
  { unfold Rdiv. apply Rmult_le_pos; [lra|]. apply Rlt_le, Rinv_0_lt_compat. lra. }
  lra.
Qed.

Lemma tfidf_idf_nonneg (N : Z) (d : nat) :
  (0 < d)%nat -> (INR d <= IZR N)%R -> (0 <= ln (IZR N / INR d + / IZR (10 ^ 12)))%R.
Proof.
  intros Hd H. apply ln_nonneg.
  assert (Hd' : (1 <= INR d)%R) by (apply (le_INR 1); lia).
  assert (1 <= IZR N / INR d)%R.
  { apply (Rmult_le_reg_r (INR d)); [lra|]. unfold Rdiv.
    rewrite Rmult_assoc, Rinv_l by lra. lra. }
  assert (0 < / IZR (10 ^ 12))%R by (apply Rinv_0_lt_compat, IZR_lt; reflexivity).
  lra.
Qed.

Lemma method_scores_nonneg pkg q ids m d :
  (forall t, (df pkg t <= Z.to_nat (Z.max 1 (lm_N (load_meta pkg))))%nat) ->
  (0 <= score_get (method_scores pkg q ids m) d)%R.
Proof.
  intros Hdf.
  assert (HN : forall t, (INR (df pkg t) <= IZR (Z.max 1 (lm_N (load_meta pkg))))%R).
  { intros t. rewrite INR_IZR_INZ. apply IZR_le. specialize (Hdf t). lia. }
  assert (Hb : (0 <= score_get (bm25_scores pkg q ids) d)%R).
  { unfold bm25_scores. cbv zeta. set (f := fun d0 : nat => _).
    destruct (idf_table pkg f q) as [|p l] eqn:Hi; [rewrite score_get_zero_scores; lra|].
    unfold score_get. rewrite fold_insert_lookup.
    destruct (decide (d ∈ ids));
      [|pose proof (score_get_zero_scores ids d) as Hz; unfold score_get in Hz; rewrite Hz; lra].
    cbn [default]. rewrite <- Hi. apply bm25_doc_score_nonneg. intros kv Hkv.
    destruct (idf_table_entries _ _ _ _ Hkv) as (_ & _ & ->). apply bm25_idf_nonneg, HN. }
  assert (Ht : (0 <= score_get (tfidf_scores pkg q ids) d)%R).
  { unfold tfidf_scores. cbv zeta. set (f := fun d0 : nat => _).
    destruct (idf_table pkg f q) as [|p l] eqn:Hi; [rewrite score_get_zero_scores; lra|].
    unfold score_get. rewrite fold_insert_lookup.
    destruct (decide (d ∈ ids));
      [|pose proof (score_get_zero_scores ids d) as Hz; unfold score_get in Hz; rewrite Hz; lra].
    cbn [default]. rewrite <- Hi. apply tfidf_doc_score_nonneg. intros kv Hkv.
    destruct (idf_table_entries _ _ _ _ Hkv) as (_ & Hpos & ->). apply tfidf_idf_nonneg; [done|apply HN]. }
  unfold method_scores. destruct (_ || _); [done|]. by destruct (String.eqb _ "tfidf").
Qed.

Lemma create_all_indexes_df_bound docs doc_ids pkg :
  create_all_indexes docs doc_ids = Ok pkg ->
  forall t, (df pkg t <= Z.to_nat (Z.max 1 (lm_N (load_meta pkg))))%nat.
Proof.
  intros H t. destruct (create_all_indexes_Ok _ _ _ H) as [Hlen Hpkg].
  assert (HN : lm_N (load_meta pkg) = Z.of_nat (length docs)) by (subst pkg; reflexivity).
  assert (Hle : (df pkg t <= length docs)%nat).
  { unfold df. rewrite <- Hlen. apply NoDup_incl_length.
    - rewrite Hpkg. unfold get_posting_list, finalize. simpl. rewrite lookup_fmap.
      destruct (bs_unified _ !! Uni t) as [v|]; simpl; [|constructor].
      apply (Permutation_NoDup (Permutation_sym (sorted_Z_perm _))).
      apply NoDup_ListNoDup, NoDup_elements.
    - intros d Hd. rewrite Hpkg in Hd.
      apply finalize_postings, unified_index_docs in Hd as [Hd|(tokens & i & Hin & _)].
      + simpl in Hd. rewrite lookup_empty in Hd. set_solver.
      + by apply in_combine_r in Hin. }
  rewrite HN. lia.
Qed.

(** X21. On a package built by [create_all_indexes], every score
    [rank_documents] returns is at least 0, with BM25 and with TF-IDF. *)
Theorem rank_documents_scores_nonneg docs doc_ids pkg q cands ids m :
  create_all_indexes docs doc_ids = Ok pkg ->
  List.Forall (fun s => (0 <= s)%R) (rank_documents pkg q cands ids m).2.
Proof.
  intros H. rewrite rank_documents_eq. cbn [snd]. apply List.Forall_forall.
  intros s (d & <- & _)%in_map_iff. apply method_scores_nonneg.
  apply (create_all_indexes_df_bound _ _ _ H).
Qed.

(** ** [_simple_tokenize] *)


Lemma re_split_go_alnum l : forall cur b,
  List.Forall (fun c => is_lower_alnum c = true) cur ->
  forall t, In t (re_split_go cur b l) ->
  List.Forall (fun c => is_lower_alnum c = true) (list_ascii_of_string t).
Proof.
  induction l as [|c l IH]; intros cur b Hcur t Ht; cbn [re_split_go] in Ht.
  - destruct Ht as [<-|[]]. rewrite list_ascii_of_string_of_list_ascii. by apply Forall_rev.
  - destruct (is_lower_alnum c) eqn:Hc; [apply (IH (c :: cur) false); [by constructor|done]|].
    destruct b; [by apply (IH cur true)|].
    destruct Ht as [<-|Ht]; [|by apply (IH [] true)].
    rewrite list_ascii_of_string_of_list_ascii. by apply Forall_rev.
Qed.

(** X22. Every token [_simple_tokenize] returns is a non-empty string of
    the characters [a-z] and [0-9]. *)
Theorem simple_tokenize_lower_words text t :
  In t (simple_tokenize text) -> is_lower_word t = true.
Proof.
  unfold simple_tokenize. intros (Ht & Hne)%filter_In.
  apply (re_split_go_alnum _ [] false) in Ht; [|constructor].
  unfold is_lower_word. rewrite Hne. cbn [andb]. apply forallb_forall.
  intros c Hc. by apply (proj1 (List.Forall_forall _ _) Ht).
Qed.

Lemma re_split_go_run cs : forall cur b r,
  cs <> [] -> List.Forall (fun c => is_lower_alnum c = true) cs ->
  re_split_go cur b (cs ++ r) = re_split_go (rev cs ++ cur) false r.
Proof.
  induction cs as [|c cs IH]; intros cur b r Hne Hall; [done|].
  apply List.Forall_cons_iff in Hall as [Hc Hall]. cbn [app re_split_go]. rewrite Hc.
  destruct cs as [|c' cs']; [done|].
  rewrite IH by done. cbn [rev]. by rewrite <- !app_assoc.
Qed.

Lemma alnum_not_upper c : is_lower_alnum c = true -> is_upper c = false.
Proof. destruct c as [[] [] [] [] [] [] [] []]; vm_compute; congruence. Qed.

Lemma str_lower_id s :
  List.Forall (fun c => is_upper c = false) (list_ascii_of_string s) -> str_lower s = s.
Proof.
  induction s as [|c s IH]; intros H; [done|]. cbn in H. apply List.Forall_cons_iff in H as [Hc H].
  cbn [str_lower]. unfold ascii_lower. rewrite Hc, IH; done.
Qed.

Lemma join_l_chars ws c :
  In c (join_l ws) -> c = " "%char \/ exists w, In w ws /\ In c (list_ascii_of_string w).
Proof.
  induction ws as [|w ws IH]; [done|]. destruct ws as [|w' ws].
  - intros Hc. right. exists w. split; [by left|done].
  - change (join_l (w :: w' :: ws)) with (list_ascii_of_string w ++ " "%char :: join_l (w' :: ws)).
    intros [Hc|[<-|Hc]]%in_app_or; [right; exists w; split; [by left|done]|by left|].
    destruct (IH Hc) as [->|(w0 & Hw0 & Hc0)]; [by left|]. right. exists w0. split; [by right|done].
Qed.

Lemma re_split_join ws : ws <> [] -> List.Forall (fun w => is_lower_word w = true) ws ->
  re_split_go [] false (join_l ws) = ws.
Proof.
  induction ws as [|w ws IH]; intros Hne Hall; [by destruct Hne|].
  apply List.Forall_cons_iff in Hall as [Hw Hall].
  destruct (lower_word_chars w Hw) as (c0 & cs & Hl & _ & Hwc).
  destruct ws as [|w' ws].
  - cbn [join_l]. rewrite <- (app_nil_r (list_ascii_of_string w)), re_split_go_run by (rewrite Hl; done).
    cbn. rewrite app_nil_r, rev_involutive, string_of_list_ascii_of_string. done.
  - change (join_l (w :: w' :: ws)) with (list_ascii_of_string w ++ " "%char :: join_l (w' :: ws)).
    rewrite re_split_go_run by (rewrite ?Hl; done). cbn [re_split_go].
    change (is_lower_alnum " "%char) with false. cbv iota.
    rewrite app_nil_r, rev_involutive, string_of_list_ascii_of_string. f_equal.
    apply List.Forall_cons_iff in Hall as [Hw' Hall'].
    destruct (lower_word_chars w' Hw') as (c1 & cs1 & Hl1 & Hc1 & _).
    assert (HJ : exists J, join_l (w' :: ws) = c1 :: J).
    { destruct ws as [|w'' ws]; cbn [join_l]; rewrite Hl1; by eexists. }
    destruct HJ as [J HJ].
    transitivity (re_split_go [] false (join_l (w' :: ws))); [|by apply IH; [|constructor]].
    rewrite HJ. cbn [re_split_go]. by rewrite Hc1.
Qed.

(** X23. Tokenizing the space-joined text of words made of [a-z] and
    [0-9] with [_simple_tokenize] gives back the words. *)
Theorem simple_tokenize_join ws :
  List.Forall (fun w => is_lower_word w = true) ws ->
  simple_tokenize (String.concat " " ws) = ws.
Proof.
  intros Hall. unfold simple_tokenize, re_split_alnum.
  rewrite str_lower_id.
  2:{ rewrite join_concat. apply List.Forall_forall. intros c [->|(w & Hw & Hc)]%join_l_chars; [done|].
      apply alnum_not_upper.
      apply (proj1 (List.Forall_forall _ _) (lower_word_all w (proj1 (List.Forall_forall _ _) Hall w Hw)) c Hc). }
  rewrite join_concat. destruct ws as [|w ws]; [done|].
  rewrite re_split_join by done.
  apply List.forallb_filter_id. apply forallb_forall. intros t Ht.
  pose proof (proj1 (List.Forall_forall _ _) Hall t Ht) as H. unfold is_lower_word in H.
  apply andb_prop in H as [H _]. done.
Qed.

(** ** Instances of the further properties *)

Lemma create_all_indexes_postings_spec_witness :
  create_all_indexes spec_corpus (Some [10; 20; 30]) =
    Ok (pkg_of (create_all_indexes spec_corpus (Some [10; 20; 30]))) /\
  (In 30 (get_posting_list (pkg_of (create_all_indexes spec_corpus (Some [10; 20; 30])))
            (Tup ["climate"; "change"]%string)) <->
   exists tokens i, In (tokens, 30) (combine spec_corpus (ids_used spec_corpus (Some [10; 20; 30]))) /\
                    In (Tup ["climate"; "change"]%string, i) (token_ngrams tokens NGRAMS_MAX)).
Proof.
  assert (H : create_all_indexes spec_corpus (Some [10; 20; 30]) =
              Ok (pkg_of (create_all_indexes spec_corpus (Some [10; 20; 30]))))
    by (vm_compute; reflexivity).
  split; [exact H|]. exact (create_all_indexes_postings_spec _ _ _ _ _ H).
Defined.

Lemma create_all_indexes_positions_spec_witness :
  create_all_indexes spec_corpus (Some [10; 20; 30]) =
    Ok (pkg_of (create_all_indexes spec_corpus (Some [10; 20; 30]))) /\
  (In 4 (get_term_positions (pkg_of (create_all_indexes spec_corpus (Some [10; 20; 30])))
           (Uni "change") 30) <->
   exists tokens i, In (tokens, 30) (combine spec_corpus (ids_used spec_corpus (Some [10; 20; 30]))) /\
                    In (Uni "change", i) (token_ngrams tokens NGRAMS_MAX) /\ 4 = Z.of_nat i).
Proof.
  assert (H : create_all_indexes spec_corpus (Some [10; 20; 30]) =
              Ok (pkg_of (create_all_indexes spec_corpus (Some [10; 20; 30]))))
    by (vm_compute; reflexivity).
  split; [exact H|]. exact (create_all_indexes_positions_spec _ _ _ _ _ _ H).
Defined.

Lemma create_all_indexes_wildcard_spec_witness :
  create_all_indexes spec_corpus (Some [10; 20; 30]) =
    Ok (pkg_of (create_all_indexes spec_corpus (Some [10; 20; 30]))) /\
  (In "climate"%string (find_wildcard_matches (pkg_of (create_all_indexes spec_corpus (Some [10; 20; 30]))) "$cl") <->
   exists tokens d, In (tokens, d) (combine spec_corpus (ids_used spec_corpus (Some [10; 20; 30]))) /\
                    In "climate"%string tokens /\ In "$cl"%string (char_ngrams "climate" CHAR_NGRAMS_MAX)).
Proof.
  assert (H : create_all_indexes spec_corpus (Some [10; 20; 30]) =
              Ok (pkg_of (create_all_indexes spec_corpus (Some [10; 20; 30]))))
    by (vm_compute; reflexivity).
  split; [exact H|]. exact (create_all_indexes_wildcard_spec _ _ _ _ _ H).
Defined.

Lemma create_all_indexes_term_lookup_witness :
  create_all_indexes spec_corpus None = Ok (pkg_of (create_all_indexes spec_corpus None)) /\
  (In 1 (get_posting_list (pkg_of (create_all_indexes spec_corpus None)) (Uni "climate")) <->
   exists tokens, In (tokens, 1) (combine spec_corpus (ids_used spec_corpus None)) /\
                  In "climate"%string tokens).
Proof.
  assert (H : create_all_indexes spec_corpus None = Ok (pkg_of (create_all_indexes spec_corpus None)))
    by (vm_compute; reflexivity).
  split; [exact H|]. exact (proj1 (create_all_indexes_term_lookup _ _ _ "climate" 1 2 H)).
Defined.

Lemma create_all_indexes_meta_witness :
  create_all_indexes spec_corpus (Some [10; 20; 30]) =
    Ok (pkg_of (create_all_indexes spec_corpus (Some [10; 20; 30]))) /\
  lm_N (load_meta (pkg_of (create_all_indexes spec_corpus (Some [10; 20; 30])))) = 3.
Proof.
  assert (H : create_all_indexes spec_corpus (Some [10; 20; 30]) =
              Ok (pkg_of (create_all_indexes spec_corpus (Some [10; 20; 30]))))
    by (vm_compute; reflexivity).
  split; [exact H|]. exact (proj1 (create_all_indexes_meta _ _ _ H)).
Defined.

Lemma process_wildcard_query_sound_witness :
  10 ∈ process_wildcard_query test_pkg "climat*" /\
  exists t, glob_match "climat*" t = true /\ In 10 (get_posting_list test_pkg (Uni t)) /\
            forall g, In g (pattern_to_ngrams "climat*") -> In t (find_wildcard_matches test_pkg g).
Proof.
  assert (H : 10 ∈ process_wildcard_query test_pkg "climat*")
    by (apply (bool_decide_eq_true_1 (10 ∈ process_wildcard_query test_pkg "climat*"));
        vm_compute; reflexivity).
  split; [exact H|]. exact (proj2 (process_wildcard_query_sound _ _ _ H)).
Defined.

Lemma process_wildcard_query_built_sound_witness :
  create_all_indexes test_corpus (Some [10; 20; 30; 40]) = Ok test_pkg /\
  30 ∈ process_wildcard_query test_pkg "climat*" /\
  exists tokens t, In (tokens, 30) (combine test_corpus (ids_used test_corpus (Some [10; 20; 30; 40]))) /\
                   In t tokens /\ glob_match "climat*" t = true.
Proof.
  assert (H1 : create_all_indexes test_corpus (Some [10; 20; 30; 40]) = Ok test_pkg)
    by (vm_compute; reflexivity).
  assert (H2 : 30 ∈ process_wildcard_query test_pkg "climat*")
    by (apply (bool_decide_eq_true_1 (30 ∈ process_wildcard_query test_pkg "climat*"));
        vm_compute; reflexivity).
  split; [exact H1|]. split; [exact H2|].
  exact (process_wildcard_query_built_sound _ _ _ _ _ H1 H2).
Defined.

Lemma proximity_operands_commute_witness :
  parse_near "climate NEAR/1 change" = Ok ("climate", 1%nat, "change")%string /\
  parse_near "change NEAR/1 climate" = Ok ("change", 1%nat, "climate")%string /\
  process_proximity_query test_pkg "climate NEAR/1 change" =
  process_proximity_query test_pkg "change NEAR/1 climate".
Proof.
  assert (H1 : parse_near "climate NEAR/1 change" = Ok ("climate", 1%nat, "change")%string)
    by reflexivity.
  assert (H2 : parse_near "change NEAR/1 climate" = Ok ("change", 1%nat, "climate")%string)
    by reflexivity.
  split; [exact H1|]. split; [exact H2|].
  exact (proximity_operands_commute _ _ _ _ _ _ H1 H2).
Defined.

Lemma proximity_monotone_in_k_witness :
  process_proximity_query test_pkg "climate NEAR/0 research" = Ok ∅ /\
  process_proximity_query test_pkg "climate NEAR/2 research" = Ok {[30]} /\
  (∅ : gset Z) ⊆ {[30]}.
Proof.
  assert (H1 : parse_near "climate NEAR/0 research" = Ok ("climate", 0%nat, "research")%string)
    by reflexivity.
  assert (H2 : parse_near "climate NEAR/2 research" = Ok ("climate", 2%nat, "research")%string)
    by reflexivity.
  assert (H3 : process_proximity_query test_pkg "climate NEAR/0 research" = Ok ∅)
    by (vm_compute; reflexivity).
  assert (H4 : process_proximity_query test_pkg "climate NEAR/2 research" = Ok {[30]})
    by (vm_compute; reflexivity).
  split; [exact H3|]. split; [exact H4|].
  exact (proximity_monotone_in_k _ _ _ _ _ _ _ _ _ H1 H2 ltac:(lia) H3 H4).
Defined.

Lemma detect_wildcard_shape_witness :
  detect_query_type "climat*" = Ok "wildcard"%string /\
  existsb is_space (list_ascii_of_string "climat*") = false.
Proof.
  assert (H : detect_query_type "climat*" = Ok "wildcard"%string) by (vm_compute; reflexivity).
  split; [exact H|]. exact (proj1 (proj2 (proj2 (detect_wildcard_shape _ H)))).
Defined.

Lemma detect_boolean_shape_witness :
  detect_query_type "climate AND NOT change" = Ok "boolean"%string /\
  is_op2 "climate" = false.
Proof.
  assert (H : detect_query_type "climate AND NOT change" = Ok "boolean"%string)
    by (vm_compute; reflexivity).
  split; [exact H|].
  destruct (detect_boolean_shape _ H) as (_ & _ & _ & _ & _ & _ & _ & Hs).
  exact (proj1 (Hs "climate" ["AND"; "NOT"; "change"]%string ltac:(vm_compute; reflexivity))).
Defined.

Lemma detect_proximity_shape_witness :
  detect_query_type "climate NEAR/2 change" = Ok "proximity"%string /\
  str_has "*" "climate NEAR/2 change" = false.
Proof.
  assert (H : detect_query_type "climate NEAR/2 change" = Ok "proximity"%string)
    by (vm_compute; reflexivity).
  split; [exact H|]. exact (proj1 (detect_proximity_shape _ H)).
Defined.

Lemma rank_documents_unmatched_scores_zero_witness :
  nth_error (rank_documents test_pkg ["ocean"; "climate"] [] [20] "tfidf").1 0 = Some 20 /\
  nth_error (rank_documents test_pkg ["ocean"; "climate"] [] [20] "tfidf").2 0 = Some 0%R.
Proof.
  assert (H1 : nth_error (rank_documents test_pkg ["ocean"; "climate"] [] [20] "tfidf").1 0 = Some 20)
    by reflexivity.
  assert (H2 : forall t, In t ["ocean"; "climate"]%string -> tf test_pkg t 20 = 0%nat)
    by (intros t [<-|[<-|[]]]; vm_compute; reflexivity).
  split; [exact H1|]. exact (rank_documents_unmatched_scores_zero _ _ _ _ _ _ _ H1 H2).
Defined.

Lemma rank_documents_scores_nonneg_witness :
  create_all_indexes test_corpus (Some [10; 20; 30; 40]) = Ok test_pkg /\
  List.Forall (fun s => (0 <= s)%R) (rank_documents test_pkg ["climate"; "change"] [] [10; 30; 40] "tfidf").2.
Proof.
  assert (H : create_all_indexes test_corpus (Some [10; 20; 30; 40]) = Ok test_pkg)
    by (vm_compute; reflexivity).
  split; [exact H|]. exact (rank_documents_scores_nonneg _ _ _ _ _ _ _ H).
Defined.

Lemma simple_tokenize_lower_words_witness :
  In "hello"%string (simple_tokenize "Hello, World!") /\ is_lower_word "hello" = true.
Proof.
  assert (H : In "hello"%string (simple_tokenize "Hello, World!")) by (vm_compute; left; reflexivity).
  split; [exact H|]. exact (simple_tokenize_lower_words _ _ H).
Defined.

Lemma simple_tokenize_join_witness :
  simple_tokenize "climate change 2024" = ["climate"; "change"; "2024"]%string.
Proof.
  apply (simple_tokenize_join ["climate"; "change"; "2024"]%string). repeat constructor.
Defined.
